(** * Resource planner backend: synchronisation and reconciliation core

    A shallow embedding of the route helpers of the backend
    (Jira integration helpers, work-item de-duplication, batch sprint
    regeneration and its in-memory guard) together with the properties
    the specification states about them.

    Part I holds the definitions, translated from the TypeScript sources;
    Part II holds the lemmas and theorems. *)

From Stdlib Require Import List String Ascii Bool Arith ZArith QArith Lia.
Import ListNotations.

Local Open Scope string_scope.
Local Open Scope list_scope.

(* ################################################################# *)
(** * Part I: definitions *)

(** ** Evaluation results

    A JavaScript expression either produces a value or throws. *)

Inductive Js (A : Type) : Type :=
| Ok (a : A)
| Throw (msg : string).
Arguments Ok {A} a.
Arguments Throw {A} msg.

Definition bind {A B : Type} (m : Js A) (k : A -> Js B) : Js B :=
  match m with
  | Ok a => k a
  | Throw e => Throw e
  end.

Declare Scope js_scope.
Delimit Scope js_scope with js.
Notation "x <- m ;; k" := (bind m (fun x => k))
  (at level 61, m at next level, right associativity) : js_scope.
Local Open Scope js_scope.

(** ** Strings

    Names are modelled as byte strings; case folding covers the ASCII
    letters, which is where [String.prototype.toLowerCase] and this model
    agree. *)

Module JsString.

Definition nl : string := String (ascii_of_nat 10) EmptyString.

(** [Array.prototype.join] on an array of strings. *)
Definition join (sep : string) (parts : list string) : string :=
  String.concat sep parts.

Definition lowerAscii (c : ascii) : ascii :=
  let n := nat_of_ascii c in
  if (65 <=? n)%nat && (n <=? 90)%nat then ascii_of_nat (n + 32) else c.

Fixpoint toLowerCase (s : string) : string :=
  match s with
  | EmptyString => EmptyString
  | String c r => String (lowerAscii c) (toLowerCase r)
  end.

(** [s.includes(sub)]: [sub] occurs in [s] as a contiguous substring. *)
Fixpoint includes (s sub : string) : bool :=
  String.prefix sub s ||
  match s with
  | EmptyString => false
  | String _ r => includes r sub
  end.

Definition isWhiteSpace (c : ascii) : bool :=
  let n := nat_of_ascii c in
  ((9 <=? n)%nat && (n <=? 13)%nat) || (n =? 32)%nat.

Fixpoint trimStart (s : string) : string :=
  match s with
  | String c r => if isWhiteSpace c then trimStart r else s
  | EmptyString => EmptyString
  end.

(** Drops trailing white space: a character stays when something
    that is not white space follows it or it is not white space. *)
Fixpoint trimEnd (s : string) : string :=
  match s with
  | EmptyString => EmptyString
  | String c r =>
      match trimEnd r with
      | EmptyString => if isWhiteSpace c then EmptyString else String c EmptyString
      | r' => String c r'
      end
  end.

Definition trim (s : string) : string := trimEnd (trimStart s).

(** Truthiness of a string: only the empty string is falsy. *)
Definition truthy (s : string) : bool :=
  match s with EmptyString => false | _ => true end.

End JsString.

(** ** Rich-document text extraction
    ([extractTextFromADF], src/routes/jiraIntegration.ts) *)

Module Adf.

#[local] Set Warnings "-register-all".

(** The values the walker can meet.  [Node type text content] is an
    object whose [text], when present, is a string; [content = None]
    stands for a [content] property that is missing or is not an
    array, [type] and [text] are [None] when the property is missing. *)
Inductive ADF : Type :=
| Nullish                      (* null, undefined *)
| FalsyPrim                    (* false, 0, NaN *)
| Prim                         (* true, a non-zero number *)
| Str (s : string)
| Node (type : option string) (text : option string)
       (content : option (list ADF)).

Definition truthy (v : ADF) : bool :=
  match v with
  | Nullish | FalsyPrim => false
  | Str s => JsString.truthy s
  | Prim | Node _ _ _ => true
  end.

Definition typeIs (type : option string) (t : string) : bool :=
  match type with
  | Some s => String.eqb s t
  | None => false
  end.

(** The bullet marker of list containers. *)
Definition bullet : string := "• ".

Definition orElse {A : Type} (o : option A) (k : A) : A :=
  match o with Some r => r | None => k end.

Definition rangeError : string :=
  "RangeError: Maximum call stack size exceeded".

(** [stack] is the room left on the call stack, counted in nested
    calls of the walker: a call that finds no room raises
    [RangeError], and the calls a call makes for the children of a
    content array find one less. *)
Fixpoint extractTextFromADF (stack : nat) (adfContent : ADF) : Js string :=
  match stack with
  | O => Throw rangeError
  | S room =>
      let fix mapExtract (nodes : list ADF) : Js (list string) :=
        match nodes with
        | [] => Ok []
        | node :: rest =>
            s <- extractTextFromADF room node ;;
            ss <- mapExtract rest ;;
            Ok (s :: ss)
        end in
      if negb (truthy adfContent) then Ok ""
      else
        match adfContent with
        | Str s => Ok s
        | Nullish => Throw "TypeError: cannot read properties of null or undefined"
        | FalsyPrim | Prim => Ok ""
        | Node type text content =>
            (* adfContent.content.map(node => prefix + extract(node)).join(sep),
               when content is an array *)
            let viaContent (pre sep : string) : option (Js string) :=
              match content with
              | Some nodes =>
                  Some (parts <- mapExtract nodes ;;
                        Ok (JsString.join sep (map (String.append pre) parts)))
              | None => None
              end in
            orElse (viaContent "" JsString.nl)
           (orElse (if typeIs type "paragraph" || typeIs type "listItem"
                    then viaContent "" "" else None)
           (if typeIs type "text"
            then Ok (match text with
                     | Some t => if JsString.truthy t then t else ""
                     | None => "" end)
            else
            orElse (if typeIs type "bulletList" || typeIs type "orderedList"
                    then viaContent bullet JsString.nl else None)
           (orElse (viaContent "" " ")
                   (Ok ""))))
        end
  end.

(** [content.map(extractTextFromADF)] with room for [room] nested
    calls, threading a thrown exception. *)
Fixpoint mapExtract (room : nat) (nodes : list ADF) : Js (list string) :=
  match nodes with
  | [] => Ok []
  | node :: rest =>
      s <- extractTextFromADF room node ;;
      ss <- mapExtract room rest ;;
      Ok (s :: ss)
  end.

(** The nested calls the walker makes on a document: one, and one
    more than the deepest child for a node with a content array. *)
Fixpoint depth (adfContent : ADF) : nat :=
  match adfContent with
  | Node _ _ (Some nodes) =>
      S ((fix deepest (l : list ADF) : nat :=
            match l with
            | [] => O
            | node :: rest => Nat.max (depth node) (deepest rest)
            end) nodes)
  | _ => 1
  end.

(** The deepest of a list of documents. *)
Fixpoint deepest (nodes : list ADF) : nat :=
  match nodes with
  | [] => O
  | node :: rest => Nat.max (depth node) (deepest rest)
  end.

(** [n] containers, one inside the other, around a text node. *)
Fixpoint nested (n : nat) : ADF :=
  match n with
  | O => Node (Some "text") (Some "x") None
  | S m => Node (Some "doc") None (Some [nested m])
  end.

(** A text node [{type: 'text', text: t}]. *)
Definition textNode (t : string) : ADF := Node (Some "text") (Some t) None.

End Adf.

(** ** Story-point validation
    ([validateStoryPoints], src/routes/jiraIntegration.ts) *)

Module StoryPoints.

(** A JavaScript number.  Finite doubles are rationals; comparison,
    [Math.min] and [Math.max] are exact on them, so they are modelled
    on [Q]. *)
Inductive JsNumber : Type :=
| NaN
| PosInf
| NegInf
| Fin (q : Q).

(** The raw field value handed to the validator. *)
Inductive JsValue : Type :=
| VNull
| VUndefined
| VString (s : string)
| VNumber (n : JsNumber)
| VOther.                      (* booleans, arrays, objects *)

(** [a > b] on numbers; any comparison with [NaN] is false. *)
Definition gt (a b : JsNumber) : bool :=
  match a, b with
  | NaN, _ | _, NaN => false
  | PosInf, PosInf => false
  | PosInf, _ => true
  | _, PosInf => false
  | NegInf, _ => false
  | Fin _, NegInf => true
  | Fin x, Fin y => negb (Qle_bool x y)
  end.

Definition min (a b : JsNumber) : JsNumber :=
  match a, b with
  | NaN, _ | _, NaN => NaN
  | NegInf, _ | _, NegInf => NegInf
  | PosInf, x | x, PosInf => x
  | Fin x, Fin y => if Qle_bool x y then Fin x else Fin y
  end.

Definition max (a b : JsNumber) : JsNumber :=
  match a, b with
  | NaN, _ | _, NaN => NaN
  | PosInf, _ | _, PosInf => PosInf
  | NegInf, x | x, NegInf => x
  | Fin x, Fin y => if Qle_bool x y then Fin y else Fin x
  end.

Definition isNaN (n : JsNumber) : bool :=
  match n with NaN => true | _ => false end.

(** *** [parseFloat]

    The longest prefix that is a decimal literal (after leading white
    space), read exactly; the rounding of the literal to the nearest
    double is not modelled. *)

Definition digitOf (c : ascii) : option Z :=
  let n := nat_of_ascii c in
  if (48 <=? n)%nat && (n <=? 57)%nat then Some (Z.of_nat (n - 48)) else None.

(** Reads a run of digits: its value continuing [acc], how many digits
    were read, and the rest of the input. *)
Fixpoint digits (s : string) (acc : Z) (count : nat) : Z * nat * string :=
  match s with
  | String c r =>
      match digitOf c with
      | Some d => digits r (10 * acc + d)%Z (S count)
      | None => (acc, count, s)
      end
  | EmptyString => (acc, count, s)
  end.

Definition sign (s : string) : bool * string :=
  match s with
  | String "-" r => (true, r)
  | String "+" r => (false, r)
  | _ => (false, s)
  end.

(** The exponent part [e[+-]ddd], 0 when it is absent or malformed. *)
Definition exponent (s : string) : Z :=
  match s with
  | String c r =>
      if Ascii.eqb c "e" || Ascii.eqb c "E" then
        let '(neg, r1) := sign r in
        let '(e, n, _) := digits r1 0%Z 0%nat in
        match n with
        | O => 0%Z
        | _ => if neg then (- e)%Z else e
        end
      else 0%Z
  | EmptyString => 0%Z
  end.

Definition scale (m e : Z) : Q :=
  if (0 <=? e)%Z then inject_Z (m * 10 ^ e)
  else Qred (Qmake m (Z.to_pos (10 ^ (- e)))).

Definition parseFloat (input : string) : JsNumber :=
  let '(neg, s) := sign (JsString.trimStart input) in
  if String.prefix "Infinity" s then (if neg then NegInf else PosInf)
  else
    let '(i, ni, r1) := digits s 0%Z 0%nat in
    let '(m, nf, r2) :=
      match r1 with
      | String "." r => digits r i 0%nat
      | _ => (i, 0%nat, r1)
      end in
    match (ni + nf)%nat with
    | O => NaN
    | _ =>
        let q := scale m (exponent r2 - Z.of_nat nf) in
        Fin (if neg then Qopp q else q)
    end.

Definition isString (value : JsValue) (s : string) : bool :=
  match value with VString t => String.eqb t s | _ => false end.

Definition isNullish (value : JsValue) : bool :=
  match value with VNull | VUndefined => true | _ => false end.

Definition validateStoryPoints (value : JsValue) : JsNumber :=
  if isNullish value || isString value "None" || isString value "" then Fin 1
  else
    (* [None]: one of the early [return 1] of the conversion *)
    let converted : option JsNumber :=
      match value with
      | VString s =>
          let points := parseFloat (JsString.trim s) in
          if isNaN points then None else Some points
      | VNumber n => Some n
      | _ => None
      end in
    match converted with
    | None => Fin 1
    | Some points =>
        if gt points (Fin 100) then Fin 1
        else max (Fin (1 # 2)) (min points (Fin 20))
    end.

(** A finite number of the policy range [0.5, 20]. *)
Definition inRange (n : JsNumber) : Prop :=
  exists q, n = Fin q /\ (1 # 2 <= q)%Q /\ (q <= 20)%Q.

(** The values a field of a parsed JSON document can hold, which is
    what every call site passes: any value but the number [NaN], for
    which JSON has no literal.  A missing field is [VUndefined], and a
    literal beyond the doubles reads as an infinity. *)
Definition fromJson (value : JsValue) : Prop := value <> VNumber NaN.

End StoryPoints.

(** ** Persistent sprint rows (model Sprint, prisma/schema.prisma) *)

Module Db.

Record Sprint : Type := mkSprint {
  id : nat;                     (* the generated cuid *)
  name : string;
  startDate : Z;                (* epoch milliseconds *)
  endDate : Z;
  plannedVelocity : Q;
  actualVelocity : option Q;
  archived : bool
}.

End Db.

(** ** Sprint matching of completed tickets
    ([extractSprintName], [syncCompletedTicketToSprint],
     src/routes/jiraIntegration.ts) *)

Module SprintMatcher.

(** One entry of the tracker's sprint field. *)
Inductive SprintAssoc : Type :=
| SAString (s : string)
| SAObject (name sprintName : option string)
| SAOther.                     (* null, numbers, booleans *)

(** The sprint field [customfield_10020] of an issue. *)
Inductive SprintField : Type :=
| FAbsent                      (* missing, null, or without a length *)
| FArray (entries : list SprintAssoc)
| FString (s : string).

Record Ticket : Type := mkTicket {
  key : string;
  customfield_10020 : SprintField;
  updated : option Z            (* [None]: an invalid date *)
}.

Fixpoint untilComma (s : string) : string :=
  match s with
  | String c r => if Ascii.eqb c "," then EmptyString else String c (untilComma r)
  | EmptyString => EmptyString
  end.

(** First group of the leftmost match of [/name=([^,]+)/]. *)
Fixpoint matchName (s : string) : option string :=
  let here :=
    if String.prefix "name=" s
    then untilComma (String.substring 5 (String.length s - 5) s)
    else EmptyString in
  if JsString.truthy here then Some here
  else match s with
       | String _ r => matchName r
       | EmptyString => None
       end.

Definition truthyOpt (o : option string) : bool :=
  match o with Some s => JsString.truthy s | None => false end.

Definition extractSprintName (sprintData : SprintAssoc) : option string :=
  let sprintName :=
    match sprintData with
    | SAString s => matchName s
    | SAObject name sprintName => if truthyOpt name then name else sprintName
    | SAOther => None
    end in
  match sprintName with
  | Some n => if JsString.truthy n then Some (JsString.trim n) else None
  | None => None
  end.

(** The predicate of the sprint-field [find]. *)
Definition nameMatches (sprintName : string) (sprint : Db.Sprint) : bool :=
  let a := JsString.toLowerCase (Db.name sprint) in
  let b := JsString.toLowerCase sprintName in
  String.eqb a b || JsString.includes a b || JsString.includes b a.

(** The predicate of the date-range [find]. *)
Definition dateMatches (updatedDate : option Z) (sprint : Db.Sprint) : bool :=
  match updatedDate with
  | Some u => (Db.startDate sprint <=? u)%Z && (u <=? Db.endDate sprint)%Z
  | None => false
  end.

(** The last sprint association, when [sprints.length > 0]. *)
Definition lastSprint (sprints : SprintField) : option SprintAssoc :=
  match sprints with
  | FAbsent => None
  | FArray entries => List.last (map Some entries) None
  | FString s => if JsString.truthy s then Some (SAString s) else None
  end.

(** The sprint name strategy 1 searches for, when there is one. *)
Definition sprintNameOf (jiraIssue : Ticket) : option string :=
  match lastSprint (customfield_10020 jiraIssue) with
  | Some l =>
      match extractSprintName l with
      | Some sprintName =>
          if JsString.truthy sprintName then Some sprintName else None
      | None => None
      end
  | None => None
  end.

(** [s] is the first element of [l], in list order, that satisfies [P]. *)
Definition firstSuch {A : Type} (P : A -> bool) (l : list A) (s : A) : Prop :=
  exists before after,
    l = before ++ s :: after /\ P s = true /\
    forall x, In x before -> P x = false.

(** Candidates in ascending order of start date, as the caller's
    query ([orderBy: startDate asc]) hands them over. *)
Fixpoint ascendingByStart (l : list Db.Sprint) : Prop :=
  match l with
  | [] => True
  | s :: rest =>
      (forall c, In c rest -> (Db.startDate s <= Db.startDate c)%Z)
      /\ ascendingByStart rest
  end.

Inductive SyncOutcome : Type :=
| no_sprint_found
| target (sprint : Db.Sprint).   (* the ticket is then persisted under it *)

Definition orFind (found : option Db.Sprint) (next : option Db.Sprint)
  : option Db.Sprint :=
  match found with Some _ => found | None => next end.

Definition targetSprint (jiraIssue : Ticket) (pastSprints : list Db.Sprint)
  : option Db.Sprint :=
  (* Strategy 1: sprint field *)
  let byField :=
    match lastSprint (customfield_10020 jiraIssue) with
    | Some l =>
        match extractSprintName l with
        | Some sprintName =>
            if JsString.truthy sprintName
            then List.find (nameMatches sprintName) pastSprints
            else None
        | None => None
        end
    | None => None
    end in
  (* Strategy 2: date range *)
  let byDate :=
    orFind byField (List.find (dateMatches (updated jiraIssue)) pastSprints) in
  (* Strategy 3: the last of the past sprints *)
  orFind byDate (List.last (map Some pastSprints) None).

Definition syncCompletedTicketToSprint (jiraIssue : Ticket)
    (pastSprints : list Db.Sprint) : SyncOutcome :=
  match targetSprint jiraIssue pastSprints with
  | None => no_sprint_found
  | Some s => target s
  end.

(** *** The matcher as the specification words it

    The sprint-field stage tries exact case-insensitive equality over
    all candidates first and containment only afterwards. *)
Definition specTargetSprint (jiraIssue : Ticket) (pastSprints : list Db.Sprint)
  : option Db.Sprint :=
  let lower s := JsString.toLowerCase s in
  let byField :=
    match lastSprint (customfield_10020 jiraIssue) with
    | Some l =>
        match extractSprintName l with
        | Some n =>
            if JsString.truthy n then
              orFind
                (List.find (fun c => String.eqb (lower (Db.name c)) (lower n))
                           pastSprints)
                (List.find (fun c => JsString.includes (lower (Db.name c)) (lower n)
                                     || JsString.includes (lower n) (lower (Db.name c)))
                           pastSprints)
            else None
        | None => None
        end
    | None => None
    end in
  orFind (orFind byField
                 (List.find (dateMatches (updated jiraIssue)) pastSprints))
         (List.last (map Some pastSprints) None).

(** *** Example data: a ticket tagged "Sprint 12" and two candidates *)

Definition sprint12Ticket : Ticket :=
  mkTicket "REF-1" (FArray [SAObject (Some "Sprint 12") None]) None.

Definition sprint12Extended : Db.Sprint :=
  Db.mkSprint 1 "Sprint 12 extended" 0 5 10 None false.

Definition sprint12 : Db.Sprint :=
  Db.mkSprint 2 "Sprint 12" 6 9 10 None false.

End SprintMatcher.

(** ** De-duplication of imported epics
    (GET /api/work-items, src/routes/workItems.ts) *)

Module WorkItems.

Record WorkItem : Type := mkWorkItem {
  id : string;
  jiraId : option string;       (* [None]: null *)
  epicId : option string;
  isEpic : bool;
  createdAt : Z;
  title : string
}.

(** An element of the response: epics carry their [children]
    ([None]: the property is undefined). *)
Record OutItem : Type := mkOutItem {
  item : WorkItem;
  children : option (list WorkItem)
}.

Definition optEqb (a b : option string) : bool :=
  match a, b with
  | Some x, Some y => String.eqb x y
  | None, None => true
  | _, _ => false
  end.

(** A JavaScript [Map], as its entries in insertion order. *)
Section JsMap.
Context {K V : Type} (keq : K -> K -> bool).

Fixpoint mapGet (k : K) (m : list (K * V)) : option V :=
  match m with
  | [] => None
  | (k', v) :: r => if keq k' k then Some v else mapGet k r
  end.

Fixpoint mapSet (k : K) (v : V) (m : list (K * V)) : list (K * V) :=
  match m with
  | [] => [(k, v)]
  | (k', v') :: r => if keq k' k then (k', v) :: r else (k', v') :: mapSet k v r
  end.

Definition mapValues (m : list (K * V)) : list V := map snd m.
End JsMap.

(** The loop that fills [epicMap]. *)
Fixpoint fillEpicMap (epics : list WorkItem)
    (epicMap : list (option string * WorkItem)) : list (option string * WorkItem) :=
  match epics with
  | [] => epicMap
  | epic :: rest =>
      let existingEpic := mapGet optEqb (jiraId epic) epicMap in
      let replace :=
        match existingEpic with
        | None => true
        | Some e => (createdAt e <? createdAt epic)%Z
        end in
      fillEpicMap rest
        (if replace then mapSet optEqb (jiraId epic) epic epicMap else epicMap)
  end.

Definition deduplicatedEpics (transformedWorkItems : list WorkItem) : list WorkItem :=
  mapValues (fillEpicMap (filter isEpic transformedWorkItems) []).

Definition epicWorkItemIds (items : list WorkItem) : list string :=
  map id (deduplicatedEpics items).

Definition epicJiraIds (items : list WorkItem) : list (option string) :=
  map jiraId (deduplicatedEpics items).

Definition allEpicIdToJiraId (items : list WorkItem) : list (string * option string) :=
  fold_left (fun m epic => mapSet String.eqb (id epic) (jiraId epic) m)
            (filter isEpic items) [].

Definition hasId (ids : list string) (i : string) : bool :=
  existsb (String.eqb i) ids.

(** [epicJiraIds.has(x)] where [x] may be undefined ([None]). *)
Definition hasJiraId (ids : list (option string)) (x : option (option string)) : bool :=
  match x with
  | None => false
  | Some j => existsb (optEqb j) ids
  end.

Definition truthyId (o : option string) : bool :=
  match o with Some s => JsString.truthy s | None => false end.

(** The predicate of the [filter] over all work items. *)
Definition keep (items : list WorkItem) (it : WorkItem) : bool :=
  let viaParent :=
    match epicId it with
    | Some e =>
        JsString.truthy e &&
        (hasId (epicWorkItemIds items) e
         || hasJiraId (epicJiraIds items)
                      (mapGet String.eqb e (allEpicIdToJiraId items)))
    | None => false
    end in
  if viaParent then true
  else if isEpic it && negb (hasId (epicWorkItemIds items) (id it)) then false
  else true.

Definition isChildOf (epic child : WorkItem) : bool :=
  optEqb (epicId child) (Some (id epic)) || optEqb (epicId child) (jiraId epic).

(** The [map] that attaches children to epics. *)
Definition withChildren (items : list WorkItem) (it : WorkItem) : OutItem :=
  if isEpic it then
    let cs := filter (isChildOf it) items in
    mkOutItem it (match cs with [] => None | _ => Some cs end)
  else mkOutItem it None.

Definition finalWorkItems (transformedWorkItems : list WorkItem) : list OutItem :=
  map (withChildren transformedWorkItems)
      (filter (keep transformedWorkItems) transformedWorkItems).

(** The children listed under an output element. *)
Definition childrenOf (o : OutItem) : list WorkItem :=
  match children o with Some cs => cs | None => [] end.

(** Two epic records of the external id REF-10, and a story whose
    parent reference is the internal id of the older record. *)
Definition epicOld : WorkItem :=
  mkWorkItem "cku1" (Some "REF-10") None true 1000 "Checkout".
Definition epicNew : WorkItem :=
  mkWorkItem "cku2" (Some "REF-10") None true 2000 "Checkout".
Definition orphan : WorkItem :=
  mkWorkItem "cku3" (Some "REF-11") (Some "cku1") false 3000 "Pay by card".

(** An older epic record of REF-10 that is itself filed under the
    newest one. *)
Definition epicNested : WorkItem :=
  mkWorkItem "cku0" (Some "REF-10") (Some "cku2") true 500 "Checkout".

End WorkItems.

(** ** The transactional store client
    (the operations of [tx.sprint] the batch route uses) *)

Module Prisma.

Record Store : Type := mkStore {
  rows : list Db.Sprint;        (* in insertion order *)
  nextId : nat                  (* source of fresh ids *)
}.

(** A statement inside a transaction: it reads and writes the store
    and may throw. *)
Definition Tx (A : Type) : Type := Store -> Js (A * Store).

Definition ret {A : Type} (a : A) : Tx A := fun db => Ok (a, db).

Definition throw {A : Type} (msg : string) : Tx A := fun _ => Throw msg.

Definition bindTx {A B : Type} (m : Tx A) (k : A -> Tx B) : Tx B :=
  fun db =>
    match m db with
    | Ok (a, db') => k a db'
    | Throw e => Throw e
    end.

Definition deleteMany (where_ : Db.Sprint -> bool) : Tx nat :=
  fun db =>
    Ok (List.length (filter where_ (rows db)),
        mkStore (filter (fun r => negb (where_ r)) (rows db)) (nextId db)).

(** [findFirst] is called without [orderBy]; the first match in
    insertion order stands for the row the store returns. *)
Definition findFirst (where_ : Db.Sprint -> bool) : Tx (option Db.Sprint) :=
  fun db => Ok (List.find where_ (rows db), db).

Definition findMany (where_ : Db.Sprint -> bool) : Tx (list Db.Sprint) :=
  fun db => Ok (filter where_ (rows db), db).

Definition create (name : string) (startDate endDate : Z)
    (plannedVelocity : Q) (actualVelocity : option Q) : Tx Db.Sprint :=
  fun db =>
    let sprint := Db.mkSprint (nextId db) name startDate endDate
                              plannedVelocity actualVelocity false in
    Ok (sprint, mkStore (rows db ++ [sprint]) (S (nextId db))).

(** The data of the batch route's update: the planned velocity, and
    the actual velocity when the property is there ([Some None] is
    [null], which clears the column). *)
Definition setVelocities (plannedVelocity : Q)
    (actualVelocity : option (option Q)) (r : Db.Sprint) : Db.Sprint :=
  Db.mkSprint (Db.id r) (Db.name r) (Db.startDate r) (Db.endDate r)
              plannedVelocity
              (match actualVelocity with
               | Some v => v
               | None => Db.actualVelocity r
               end)
              (Db.archived r).

Definition update (id : nat) (plannedVelocity : Q)
    (actualVelocity : option (option Q)) : Tx Db.Sprint :=
  fun db =>
    match List.find (fun r => Db.id r =? id)%nat (rows db) with
    | Some r =>
        Ok (setVelocities plannedVelocity actualVelocity r,
            mkStore (map (fun r' => if (Db.id r' =? id)%nat
                                    then setVelocities plannedVelocity actualVelocity r'
                                    else r') (rows db))
                    (nextId db))
    | None => Throw "Record to update not found."
    end.

(** [prisma.$transaction]: the writes of a body that throws are
    rolled back. *)
Definition transaction {A : Type} (body : Tx A) (db : Store) : Js A * Store :=
  match body db with
  | Ok (a, db') => (Ok a, db')
  | Throw e => (Throw e, db)
  end.

End Prisma.

Declare Scope tx_scope.
Delimit Scope tx_scope with tx.
Notation "x <- m ;; k" := (Prisma.bindTx m (fun x => k))
  (at level 61, m at next level, right associativity) : tx_scope.

(** A date of the request body, a string as the type of the body
    says: a missing property or the empty string, a string that
    [new Date] does not parse, or the epoch milliseconds it parses
    to. *)
Inductive DateString : Type :=
| NoDate
| InvalidDate
| DateAt (time : Z).

(** [new Date(s).getTime()]; [None] is [NaN]. *)
Definition getTime (s : DateString) : option Z :=
  match s with
  | DateAt time => Some time
  | _ => None
  end.

(** A velocity of the request body, which is not checked against its
    type: a number, [null], or a value of another type (a string, a
    boolean, an array, an object), of which its truthiness matters. *)
Inductive Velocity : Type :=
| Number (value : Q)
| Null
| NotNumber (truthy : bool).

(** The number a velocity is. *)
Definition number (v : option Velocity) : option Q :=
  match v with
  | Some (Number value) => Some value
  | _ => None
  end.

(** A batch entry, as the request body carries it; [None] is a missing
    property.  The name is a string, as the type of the body says. *)
Record SprintData : Type := mkSprintData {
  name : option string;
  startDate : DateString;
  endDate : DateString;
  plannedVelocity : option Velocity;
  actualVelocity : option Velocity
}.

(** ** Batch sprint route, with the cooldown guard
    (POST /api/sprints/batch in the sprints route) *)

Module Sprints.
Import Prisma.
Local Open Scope tx_scope.

Definition REGENERATION_COOLDOWN : Z := 5000.

Definition nameOrUnnamed (sprintData : SprintData) : string :=
  match name sprintData with
  | Some n => if JsString.truthy n then n else "unnamed"
  | None => "unnamed"
  end.

Definition missingFields (sprintData : SprintData) : string :=
  "Missing required fields for sprint: " ++ nameOrUnnamed sprintData.

(** The required-field test
    [!name || !startDate || !endDate || !plannedVelocity]. *)
Definition missing (sprintData : SprintData) : bool :=
  negb (match name sprintData with Some n => JsString.truthy n | None => false end)
  || match startDate sprintData with NoDate => true | _ => false end
  || match endDate sprintData with NoDate => true | _ => false end
  || match plannedVelocity sprintData with
     | Some (Number value) => Qeq_bool value 0
     | Some (NotNumber truthy) => negb truthy
     | Some Null | None => true
     end.

(** Both dates of the definition parse. *)
Definition parses (sprintData : SprintData) : bool :=
  match startDate sprintData, endDate sprintData with
  | DateAt _, DateAt _ => true
  | _, _ => false
  end.

(** The planned velocity is a number, and the actual velocity is a
    number, [null] or not there. *)
Definition numeric (sprintData : SprintData) : bool :=
  match plannedVelocity sprintData, actualVelocity sprintData with
  | Some (Number _), Some (NotNumber _) => false
  | Some (Number _), _ => true
  | _, _ => false
  end.

(** The store client takes the dates and the velocities of the
    definition. *)
Definition wellTyped (sprintData : SprintData) : bool :=
  parses sprintData && numeric sprintData.

(** The store client checks the arguments of a call before it reaches
    the store, and throws on a [Date] that is invalid and on a value
    that is no number for a [Float] column.  The message of its error
    describes the call; this is the name of the error. *)
Definition validationError : string := "PrismaClientValidationError".

(** [new Date(s)], as an argument of a call of the store client. *)
Definition newDate (s : DateString) : Tx Z :=
  match s with
  | DateAt time => ret time
  | _ => throw validationError
  end.

(** [plannedVelocity], as the value of the required [Float] column. *)
Definition requiredFloat (v : option Velocity) : Tx Q :=
  match v with
  | Some (Number value) => ret value
  | _ => throw validationError
  end.

(** [...(actualVelocity !== undefined && { actualVelocity })], for the
    optional [Float] column: [None] leaves the property out. *)
Definition optionalFloat (v : option Velocity) : Tx (option (option Q)) :=
  match v with
  | None => ret None
  | Some (Number value) => ret (Some (Some value))
  | Some Null => ret (Some None)
  | Some (NotNumber _) => throw validationError
  end.

(** What [optionalFloat] hands to the store client when it accepts. *)
Definition written (v : option Velocity) : option (option Q) :=
  match v with
  | Some (Number value) => Some (Some value)
  | Some Null => Some None
  | _ => None
  end.

(** [tx.sprint.create] on the dates and velocities of the body. *)
Definition createSprint (name : string) (startDate endDate : DateString)
    (plannedVelocity actualVelocity : option Velocity) : Tx Db.Sprint :=
  sd <- newDate startDate ;;
  ed <- newDate endDate ;;
  pv <- requiredFloat plannedVelocity ;;
  av <- optionalFloat actualVelocity ;;
  create name sd ed pv (match av with Some v => v | None => None end).

(** [tx.sprint.update] on the velocities of the body. *)
Definition updateSprint (id : nat)
    (plannedVelocity actualVelocity : option Velocity) : Tx Db.Sprint :=
  pv <- requiredFloat plannedVelocity ;;
  av <- optionalFloat actualVelocity ;;
  update id pv av.

Definition nonArchivedNamed (n : string) (r : Db.Sprint) : bool :=
  String.eqb (Db.name r) n && negb (Db.archived r).

(** How many non-archived sprints carry the name [n]. *)
Definition activeNamed (n : string) (db : Store) : nat :=
  List.length (filter (nonArchivedNamed n) (rows db)).

Definition active (db : Store) : list Db.Sprint :=
  filter (fun r => negb (Db.archived r)) (rows db).

Definition activeNames (db : Store) : list string := map Db.name (active db).

(** Name, planned and actual velocity of the non-archived sprints. *)
Definition activeVelocities (db : Store) : list (string * Q * option Q) :=
  map (fun r => (Db.name r, Db.plannedVelocity r, Db.actualVelocity r))
      (active db).

(** A row without its generated id. *)
Definition forgetId (r : Db.Sprint) : Db.Sprint :=
  Db.mkSprint 0 (Db.name r) (Db.startDate r) (Db.endDate r)
              (Db.plannedVelocity r) (Db.actualVelocity r) (Db.archived r).

(** One iteration of the loop over the batch; [None] is the
    [continue] that pushes nothing. *)
Definition processSprint (isRegeneration : bool) (sprintData : SprintData)
  : Tx (option Db.Sprint) :=
  match name sprintData with
  | Some n =>
      if missing sprintData
      then throw (missingFields sprintData)
      else if isRegeneration then
        existingDuplicate <- findFirst (nonArchivedNamed n) ;;
        match existingDuplicate with
        | Some existing => ret (Some existing)
        | None =>
            sprint <- createSprint n (startDate sprintData) (endDate sprintData)
                                   (plannedVelocity sprintData)
                                   (actualVelocity sprintData) ;;
            ret (Some sprint)
        end
      else
        byName <- findFirst (nonArchivedNamed n) ;;
        byNameAndDates <-
          match byName with
          | Some _ => ret byName
          | None =>
              sd <- newDate (startDate sprintData) ;;
              ed <- newDate (endDate sprintData) ;;
              findFirst (fun r => nonArchivedNamed n r
                                  && (Db.startDate r =? sd)%Z
                                  && (Db.endDate r =? ed)%Z)
          end ;;
        (* outer [None]: skipped; inner option: the row to update *)
        existingSprint <-
          match byNameAndDates with
          | Some _ => ret (Some byNameAndDates)
          | None =>
              similarSprints <-
                findMany (fun r => JsString.includes (Db.name r) n
                                   && negb (Db.archived r)) ;;
              match similarSprints with
              | [] => ret (Some None)
              | _ =>
                  match List.find (fun s => String.eqb (Db.name s) n)
                                  similarSprints with
                  | Some exact => ret (Some (Some exact))
                  | None => ret None
                  end
              end
          end ;;
        match existingSprint with
        | None => ret None
        | Some (Some existing) =>
            sprint <- updateSprint (Db.id existing) (plannedVelocity sprintData)
                                   (actualVelocity sprintData) ;;
            ret (Some sprint)
        | Some None =>
            sprint <- createSprint n (startDate sprintData) (endDate sprintData)
                                   (plannedVelocity sprintData)
                                   (actualVelocity sprintData) ;;
            ret (Some sprint)
        end
  | None => throw (missingFields sprintData)
  end.

(** What one iteration does to the store on a complete definition:
    nothing (an existing row reused, or the definition skipped), one
    velocity update, or one appended row. *)
Inductive effect (isRegeneration : bool) (d : SprintData) (db : Store)
  : option Db.Sprint -> Store -> Prop :=
| effect_reuse : forall existing,
    isRegeneration = true ->
    In existing (rows db) ->
    effect isRegeneration d db (Some existing) db
| effect_skip :
    isRegeneration = false ->
    effect isRegeneration d db None db
| effect_update : forall existing pv sprint,
    isRegeneration = false ->
    In existing (rows db) ->
    effect isRegeneration d db (Some sprint)
           (mkStore (map (fun r' => if (Db.id r' =? Db.id existing)%nat
                                    then setVelocities pv (written (actualVelocity d)) r'
                                    else r') (rows db))
                    (nextId db))
| effect_create : forall n sd ed pv,
    name d = Some n -> startDate d = DateAt sd -> endDate d = DateAt ed ->
    plannedVelocity d = Some (Number pv) ->
    (forall r, In r (rows db) -> nonArchivedNamed n r = false) ->
    effect isRegeneration d db
           (Some (Db.mkSprint (nextId db) n sd ed pv
                              (number (actualVelocity d)) false))
           (mkStore (rows db ++ [Db.mkSprint (nextId db) n sd ed pv
                                             (number (actualVelocity d)) false])
                    (S (nextId db))).

Definition push (updatedSprints : list Db.Sprint) (s : option Db.Sprint)
  : list Db.Sprint :=
  match s with
  | Some sprint => updatedSprints ++ [sprint]
  | None => updatedSprints
  end.

Fixpoint forEachSprint (isRegeneration : bool) (sprints : list SprintData)
    (updatedSprints : list Db.Sprint) : Tx (list Db.Sprint) :=
  match sprints with
  | [] => ret updatedSprints
  | sprintData :: rest =>
      pushed <- processSprint isRegeneration sprintData ;;
      forEachSprint isRegeneration rest (push updatedSprints pushed)
  end.

(** The regeneration step that opens the transaction. *)
Definition clearExisting (isRegeneration : bool) : Tx nat :=
  if isRegeneration
  then deleteMany (fun r => negb (Db.archived r))
  else ret 0%nat.

(** The body handed to [prisma.$transaction]. *)
Definition applyBatch (sprints : list SprintData) (isRegeneration : bool)
  : Tx (list Db.Sprint) :=
  _ <- clearExisting isRegeneration ;;
  forEachSprint isRegeneration sprints [].

(** Two stores whose rows agree up to the generated ids. *)
Definition sameRows (db1 db2 : Store) : Prop :=
  map forgetId (rows db1) = map forgetId (rows db2).

(** *** The handler and its in-memory guard *)

Record Guard : Type := mkGuard {
  regenerationInProgress : bool;
  lastRegenerationTime : Z
}.

Record Request : Type := mkRequest {
  sprints : option (list SprintData);   (* [None]: not an array *)
  isRegeneration : bool
}.

Inductive Response : Type :=
| Json (results : list Db.Sprint)       (* 200 *)
| Status400
| Status409
| Status429
| Status500 (message : string).

Definition lock (req : Request) (g : Guard) : Guard :=
  if isRegeneration req then mkGuard true (lastRegenerationTime g) else g.

(** The [finally] block. *)
Definition release (req : Request) (g : Guard) : Guard :=
  if isRegeneration req then mkGuard false (lastRegenerationTime g) else g.

(** The batch of a request that passes the array check. *)
Definition batchOf (req : Request) : option (list SprintData) :=
  match sprints req with
  | Some (d :: ds) => Some (d :: ds)
  | _ => None
  end.

(** The handler up to its first suspension.  [Some r]: it answered
    [r] without reaching the transaction; [None]: it awaits the
    transaction, the lock taken when it regenerates. *)
Definition enter (now : Z) (req : Request) (g : Guard) : Guard * option Response :=
  let proceed (g1 : Guard) :=
    match batchOf req with
    | None => (release req (lock req g1), Some Status400)
    | Some _ => (lock req g1, None)
    end in
  if isRegeneration req then
    if regenerationInProgress g then (g, Some Status409)
    else if (now - lastRegenerationTime g <? REGENERATION_COOLDOWN)%Z
         then (g, Some Status429)
         else proceed (mkGuard (regenerationInProgress g) now)
  else proceed g.

(** The rest of the handler, from the transaction to the [finally]. *)
Definition settle (req : Request) (g : Guard) (db : Store)
  : Response * Guard * Store :=
  match batchOf req with
  | Some batch =>
      let '(outcome, db') := transaction (applyBatch batch (isRegeneration req)) db in
      (match outcome with
       | Ok results => Json results
       | Throw message => Status500 message
       end, release req g, db')
  | None => (Status400, release req g, db)
  end.

(** A request served without any other request in between. *)
Definition handle (now : Z) (req : Request) (g : Guard) (db : Store)
  : Response * Guard * Store :=
  match enter now req g with
  | (g', Some r) => (r, g', db)
  | (g', None) => settle req g' db
  end.

(** *** Interleaved requests

    The process holds the guard, the store and the handlers that are
    suspended at their transaction.  A request arrives and runs to its
    first suspension; a suspended handler resumes and runs to its end. *)

Record Server : Type := mkServer {
  guard : Guard;
  store : Store;
  suspended : list Request
}.

Inductive Event : Type :=
| Arrived (now : Z) (req : Request) (answer : option Response)
| Settled (req : Request) (answer : Response).

Inductive step : Server -> Event -> Server -> Prop :=
| step_answer : forall now req s g' r,
    enter now req (guard s) = (g', Some r) ->
    step s (Arrived now req (Some r)) (mkServer g' (store s) (suspended s))
| step_suspend : forall now req s g',
    enter now req (guard s) = (g', None) ->
    step s (Arrived now req None) (mkServer g' (store s) (suspended s ++ [req]))
| step_settle : forall req s before after r g' db',
    suspended s = before ++ req :: after ->
    settle req (guard s) (store s) = (r, g', db') ->
    step s (Settled req r) (mkServer g' db' (before ++ after)).

Inductive run : Server -> list Event -> Server -> Prop :=
| run_nil : forall s, run s [] s
| run_cons : forall s e s' es s'',
    step s e s' -> run s' es s'' -> run s (e :: es) s''.

(** The process start: no regeneration seen, nothing suspended. *)
Definition boot (db : Store) : Server := mkServer (mkGuard false 0) db [].

(** The regenerations in flight: the suspended handlers that hold
    the lock. *)
Definition regenerating (s : Server) : nat :=
  List.length (filter isRegeneration (suspended s)).

(** The guard agrees with what is in flight: the flag is set exactly
    when one regeneration is suspended, and there is never more than
    one. *)
Definition guarded (s : Server) : Prop :=
  regenerationInProgress (guard s) = (regenerating s =? 1)%nat
  /\ (regenerating s <= 1)%nat.

(** *** Example data *)

Definition sprintDef (n : string) (sd ed : Z) (pv : Q) : SprintData :=
  mkSprintData (Some n) (DateAt sd) (DateAt ed) (Some (Number pv)) None.

(** Three complete definitions and one without [plannedVelocity]. *)
Definition threeValidOneMissing : list SprintData :=
  [sprintDef "Q3 Sprint 1" 1000 1999 20;
   sprintDef "Q3 Sprint 2" 2000 2999 21;
   sprintDef "Q3 Sprint 3" 3000 3999 22;
   mkSprintData (Some "Q3 Sprint 4") (DateAt 4000) (DateAt 4999) None None].

(** A definition whose start date does not parse, then one without
    [plannedVelocity]. *)
Definition unparseableThenMissing : list SprintData :=
  [mkSprintData (Some "Q3 Sprint 1") InvalidDate (DateAt 1999)
                (Some (Number 20)) None;
   mkSprintData (Some "Q3 Sprint 2") (DateAt 2000) (DateAt 2999) None None].

(** A definition whose planned velocity is a non-empty string, then
    one without [plannedVelocity]. *)
Definition notANumberThenMissing : list SprintData :=
  [mkSprintData (Some "Q3 Sprint 1") (DateAt 1000) (DateAt 1999)
                (Some (NotNumber true)) None;
   mkSprintData (Some "Q3 Sprint 2") (DateAt 2000) (DateAt 2999) None None].

(** A store with one earlier sprint, outside the window and the
    names of the batches above and below. *)
Definition earlierStore : Store :=
  mkStore [Db.mkSprint 0 "Q1 Sprint 1" 0 99 18 (Some 17%Q) false] 1.

Definition q3Batch : list SprintData :=
  [sprintDef "Q3 Sprint 1" 1000 1999 20;
   sprintDef "Q3 Sprint 2" 2000 2999 21].

End Sprints.

(** ** Batch sprint route, lock-only variant
    (the sprints route without the cooldown: its regeneration step) *)

Module SprintsLockOnly.
Import Prisma.
Local Open Scope tx_scope.

(** [s.map(f)] of timestamps; [None] when one of them is [NaN]. *)
Fixpoint times (f : SprintData -> option Z) (sprints : list SprintData)
  : option (list Z) :=
  match sprints with
  | [] => Some []
  | s :: rest =>
      match f s, times f rest with
      | Some t, Some ts => Some (t :: ts)
      | _, _ => None
      end
  end.

(** The window [min(start), max(end)] of a non-empty batch. *)
Definition sprintDateRange (sprints : list SprintData) : option (Z * Z) :=
  match times (fun s => getTime (startDate s)) sprints,
        times (fun s => getTime (endDate s)) sprints with
  | Some (s :: ss), Some (e :: es) =>
      Some (fold_right Z.min s ss, fold_right Z.max e es)
  | _, _ => None
  end.

Definition nameIn (sprintNames : list (option string)) (r : Db.Sprint) : bool :=
  existsb (fun n => match n with
                    | Some n' => String.eqb (Db.name r) n'
                    | None => false
                    end) sprintNames.

(** The [where] clause of the regeneration [deleteMany]. *)
Definition conflicting (sprintNames : list (option string)) (range : Z * Z)
    (r : Db.Sprint) : bool :=
  (nameIn sprintNames r
   || ((Db.startDate r <=? snd range)%Z && (fst range <=? Db.endDate r)%Z))
  && negb (Db.archived r).

(** [Date.prototype.toISOString] on an invalid date. *)
Definition invalidTime : string := "RangeError: Invalid time value".

(** The regeneration step that opens the transaction; the line that
    logs the window throws on an invalid date, before [deleteMany]. *)
Definition clearExisting (isRegeneration : bool) (sprints : list SprintData)
  : Tx nat :=
  match sprints with
  | _ :: _ =>
      if isRegeneration then
        match sprintDateRange sprints with
        | Some range => deleteMany (conflicting (map name sprints) range)
        | None => throw invalidTime
        end
      else ret 0%nat
  | [] => ret 0%nat
  end.

(** One iteration of the loop over the batch: the same required-field
    test, then in regeneration mode a [create] without any lookup, and
    else an update of the sprint of the same name and dates or a
    [create]. *)
Definition processSprint (isRegeneration : bool) (sprintData : SprintData)
  : Tx Db.Sprint :=
  match name sprintData with
  | Some n =>
      if Sprints.missing sprintData
      then throw (Sprints.missingFields sprintData)
      else if isRegeneration then
        Sprints.createSprint n (startDate sprintData) (endDate sprintData)
                             (plannedVelocity sprintData)
                             (actualVelocity sprintData)
      else
        sd <- Sprints.newDate (startDate sprintData) ;;
        ed <- Sprints.newDate (endDate sprintData) ;;
        existingSprint <-
          findFirst (fun r => Sprints.nonArchivedNamed n r
                              && (Db.startDate r =? sd)%Z
                              && (Db.endDate r =? ed)%Z) ;;
        match existingSprint with
        | Some existing =>
            Sprints.updateSprint (Db.id existing) (plannedVelocity sprintData)
                                 (actualVelocity sprintData)
        | None =>
            Sprints.createSprint n (startDate sprintData) (endDate sprintData)
                                 (plannedVelocity sprintData)
                                 (actualVelocity sprintData)
        end
  | None => throw (Sprints.missingFields sprintData)
  end.

Fixpoint forEachSprint (isRegeneration : bool) (sprints : list SprintData)
    (updatedSprints : list Db.Sprint) : Tx (list Db.Sprint) :=
  match sprints with
  | [] => ret updatedSprints
  | sprintData :: rest =>
      sprint <- processSprint isRegeneration sprintData ;;
      forEachSprint isRegeneration rest (updatedSprints ++ [sprint])
  end.

(** The body handed to [prisma.$transaction]. *)
Definition applyBatch (sprints : list SprintData) (isRegeneration : bool)
  : Tx (list Db.Sprint) :=
  _ <- clearExisting isRegeneration sprints ;;
  forEachSprint isRegeneration sprints [].

(** The row a regeneration creates from a complete definition that
    the store client takes, under the id [id]. *)
Definition createdRow (id : nat) (sprintData : SprintData) : Db.Sprint :=
  Db.mkSprint id
              (match name sprintData with Some n => n | None => "" end)
              (match getTime (startDate sprintData) with Some t => t | None => 0%Z end)
              (match getTime (endDate sprintData) with Some t => t | None => 0%Z end)
              (match number (plannedVelocity sprintData) with
               | Some v => v
               | None => 0%Q
               end)
              (number (actualVelocity sprintData)) false.

(** The rows of a batch, under the ids from [id] on. *)
Fixpoint createdRows (id : nat) (sprints : list SprintData) : list Db.Sprint :=
  match sprints with
  | [] => []
  | sprintData :: rest => createdRow id sprintData :: createdRows (S id) rest
  end.

(** A batch that names one sprint twice. *)
Definition repeatedName : list SprintData :=
  [Sprints.sprintDef "Q3 Sprint 1" 1000 1999 20;
   Sprints.sprintDef "Q3 Sprint 1" 1000 1999 20].

End SprintsLockOnly.

(** ** What one iteration of the batch loop changes, in detail *)

Module BatchEffects.
Import Prisma Sprints.

(** The row-wise update of [tx.sprint.update] by id. *)
Definition updateRow (id : nat) (plannedVelocity : Q)
    (actualVelocity : option (option Q)) (r : Db.Sprint) : Db.Sprint :=
  if (Db.id r =? id)%nat then setVelocities plannedVelocity actualVelocity r else r.

(** The outcome of one iteration on a complete definition, with the
    row it found: a reused or updated row is a non-archived row of the
    definition's name. *)
Inductive change (isRegeneration : bool) (d : SprintData) (db : Store)
  : option Db.Sprint -> Store -> Prop :=
| change_reuse : forall n existing,
    isRegeneration = true -> name d = Some n ->
    In existing (rows db) -> nonArchivedNamed n existing = true ->
    change isRegeneration d db (Some existing) db
| change_skip : forall n,
    isRegeneration = false -> name d = Some n ->
    (forall r, In r (rows db) -> nonArchivedNamed n r = false) ->
    change isRegeneration d db None db
| change_update : forall n pv existing first,
    isRegeneration = false -> name d = Some n ->
    plannedVelocity d = Some (Number pv) ->
    In existing (rows db) -> nonArchivedNamed n existing = true ->
    List.find (fun r => Db.id r =? Db.id existing)%nat (rows db) = Some first ->
    change isRegeneration d db
           (Some (setVelocities pv (written (actualVelocity d)) first))
           (mkStore (map (updateRow (Db.id existing) pv
                                    (written (actualVelocity d))) (rows db))
                    (nextId db))
| change_create : forall n sd ed pv,
    name d = Some n -> startDate d = DateAt sd -> endDate d = DateAt ed ->
    plannedVelocity d = Some (Number pv) ->
    (forall r, In r (rows db) -> nonArchivedNamed n r = false) ->
    change isRegeneration d db
           (Some (Db.mkSprint (nextId db) n sd ed pv
                              (number (actualVelocity d)) false))
           (mkStore (rows db ++ [Db.mkSprint (nextId db) n sd ed pv
                                             (number (actualVelocity d)) false])
                    (S (nextId db))).

(** Ids are unique and were all handed out by the id source. *)
Definition wellFormed (db : Store) : Prop :=
  NoDup (map Db.id (rows db))
  /\ Forall (fun r => (Db.id r < nextId db)%nat) (rows db).

(** What the batch route never changes of a row it found. *)
Definition frozen (r : Db.Sprint) : nat * string * Z * Z * bool :=
  (Db.id r, Db.name r, Db.startDate r, Db.endDate r, Db.archived r).

End BatchEffects.

(** ** The order of the epic records of one external id *)

Module EpicOrder.
Import WorkItems.

(** [v] is the first record of the external id [k], in the order
    processed, that no record of that id is younger than. *)
Definition firstLatest (processed : list WorkItem) (k : option string)
    (v : WorkItem) : Prop :=
  exists before after,
    processed = before ++ v :: after
    /\ jiraId v = k
    /\ (forall e, In e before -> jiraId e = k -> (createdAt e < createdAt v)%Z)
    /\ (forall e, In e after -> jiraId e = k -> (createdAt e <= createdAt v)%Z).

End EpicOrder.

(** ** The semi-structured sprint string *)

Module SprintFormat.

(** The character [c] occurs in [s]. *)
Fixpoint mentions (c : ascii) (s : string) : bool :=
  match s with
  | EmptyString => false
  | String a r => Ascii.eqb a c || mentions c r
  end.

(** The sprint string [name=N,rest], the format the helper's comment
    documents. *)
Definition sprintString (n rest : string) : string :=
  ("name=" ++ n ++ "," ++ rest)%string.

(** A string that does not start with white space. *)
Definition headKept (s : string) : Prop :=
  match s with
  | EmptyString => True
  | String c _ => JsString.isWhiteSpace c = false
  end.

End SprintFormat.

(** ** The guard of the lock-only variant of the batch route
    (its test sits inside the [try] whose [finally] frees the lock) *)

Module LockOnlyGuard.
Import Sprints.

(** The [finally] block. *)
Definition release (req : Request) (regenerationLock : bool) : bool :=
  if isRegeneration req then false else regenerationLock.

(** The handler up to its first suspension: the lock afterwards, and
    the answer when it did not reach the transaction. *)
Definition enter (req : Request) (regenerationLock : bool) : bool * option Response :=
  if isRegeneration req && regenerationLock
  then (release req regenerationLock, Some Status409)
  else
    match batchOf req with
    | None => (release req regenerationLock, Some Status400)
    | Some _ => (if isRegeneration req then true else regenerationLock, None)
    end.

(** The lock and the handlers suspended at their transaction, after a
    request arrived. *)
Definition arrive (req : Request) (state : bool * list Request)
  : bool * list Request :=
  match enter req (fst state) with
  | (lock', Some _) => (lock', snd state)
  | (lock', None) => (lock', snd state ++ [req])
  end.

End LockOnlyGuard.

(** ** Epics with their children
    ([convertJiraStatusToWorkItemStatus] and POST /epics-with-children,
     src/routes/jiraIntegration.ts) *)

Module EpicsImport.
Import StoryPoints.

Definition convertJiraStatusToWorkItemStatus (jiraStatus : string) : string :=
  let status := JsString.toLowerCase jiraStatus in
  if String.eqb status "done" || String.eqb status "closed"
     || String.eqb status "resolved"
  then "Completed"
  else if String.eqb status "in progress" || String.eqb status "in development"
          || String.eqb status "in review"
  then "In Progress"
  else "Not Started".

(** An issue of a search response, with the fields the route reads. *)
Record Issue : Type := mkIssue {
  key : string;
  summary : string;
  issueDescription : Adf.ADF;
  statusName : string;            (* fields.status.name *)
  rawStoryPoints : JsValue        (* fields[storyPointsField] *)
}.

(** A child of an epic aggregate.  Its [requiredCompletionDate], read
    off the clock for each child, is left out. *)
Record ChildData : Type := mkChildData {
  childId : string;
  childJiraId : string;
  childTitle : string;
  childDescription : string;
  estimateStoryPoints : JsNumber;
  requiredSkills : list string;
  dependencies : list string;
  childStatus : string;
  childJiraStatus : string;
  assignedSprints : list string;
  epicId : string
}.

Record EpicWithChildren : Type := mkEpic {
  id : string;
  jiraId : string;
  title : string;
  description : string;
  status : string;
  jiraStatus : string;
  children : list ChildData;
  totalStoryPoints : JsNumber;
  completedStoryPoints : JsNumber
}.

Record Pagination : Type := mkPagination {
  limit : nat;
  startAt : nat;
  total : nat;
  hasMore : bool
}.

Record PaginatedEpicsResponse : Type := mkResponse {
  epics : list EpicWithChildren;
  pagination : Pagination
}.

(** The test that counts a child as completed. *)
Definition countsAsCompleted (childStatus : string) : bool :=
  String.eqb childStatus "Done" || String.eqb childStatus "Closed"
  || String.eqb childStatus "Resolved".

Section Remote.

(** The addition of two numbers, and the search for the children of
    an epic: the issues of the response ([None] when it carries none),
    or the failure of the call. *)
Variable plus : JsNumber -> JsNumber -> JsNumber.
Variable searchChildren : string -> Js (option (list Issue)).

(** The room on the call stack where the description of an epic is
    extracted, and where that of a child is, after the search has been
    awaited. *)
Variable epicRoom childRoom : nat.

(** The loop over the children: the children pushed so far, and the
    two totals unless a child made the loop throw. *)
Fixpoint forEachChild (epicKey : string) (issues : list Issue)
    (pushed : list ChildData) (totalPoints completedPoints : JsNumber)
  : list ChildData * Js (JsNumber * JsNumber) :=
  match issues with
  | [] => (pushed, Ok (totalPoints, completedPoints))
  | child :: rest =>
      let storyPoints := validateStoryPoints (rawStoryPoints child) in
      let childStatus := statusName child in
      let completedPoints' :=
        if countsAsCompleted childStatus
        then plus completedPoints storyPoints else completedPoints in
      let totalPoints' := plus totalPoints storyPoints in
      match Adf.extractTextFromADF childRoom (issueDescription child) with
      | Throw e => (pushed, Throw e)
      | Ok text =>
          forEachChild epicKey rest
            (pushed ++ [mkChildData (key child) (key child) (summary child) text
                                    storyPoints ["backend"] []
                                    (convertJiraStatusToWorkItemStatus childStatus)
                                    childStatus [] epicKey])
            totalPoints' completedPoints'
      end
  end.

Definition processEpicWithChildren (epic : Issue) : Js EpicWithChildren :=
  text <- Adf.extractTextFromADF epicRoom (issueDescription epic) ;;
  let epicData (children : list ChildData) (totals : JsNumber * JsNumber) :=
    mkEpic (key epic) (key epic) (summary epic) text
           (convertJiraStatusToWorkItemStatus (statusName epic))
           (statusName epic) children (fst totals) (snd totals) in
  match searchChildren (key epic) with
  | Throw _ => Ok (epicData [] (Fin 0, Fin 0))
  | Ok childrenData =>
      let issues := match childrenData with Some l => l | None => [] end in
      match forEachChild (key epic) issues [] (Fin 0) (Fin 0) with
      | (children, Ok totals) => Ok (epicData children totals)
      | (children, Throw _) => Ok (epicData children (Fin 0, Fin 0))
      end
  end.

(** [Promise.all(batch.map(processEpicWithChildren))]. *)
Fixpoint promiseAll (batch : list Issue) : Js (list EpicWithChildren) :=
  match batch with
  | [] => Ok []
  | epic :: rest =>
      e <- processEpicWithChildren epic ;;
      es <- promiseAll rest ;;
      Ok (e :: es)
  end.

Definition batchSize : nat := 10.

(** The loop [for (i = 0; i < epics.length; i += batchSize)]; [None]
    when the fuel does not reach its end. *)
Fixpoint forEachBatch (fuel i : nat) (epics : list Issue)
    (epicsWithChildren : list EpicWithChildren)
  : option (Js (list EpicWithChildren)) :=
  if (i <? List.length epics)%nat then
    match fuel with
    | O => None
    | S fuel' =>
        let batch := firstn batchSize (skipn i epics) in
        match promiseAll batch with
        | Throw e => Some (Throw e)
        | Ok batchResults =>
            forEachBatch fuel' (i + batchSize) epics
                         (epicsWithChildren ++ batchResults)
        end
    end
  else Some (Ok epicsWithChildren).

(** The response of one page, from the answer to the epic search: its
    issues ([None] when the answer carries none) and its total. *)
Definition processEpics (fuel : nat) (issues : option (list Issue))
    (total limit startAt : nat) : option (Js PaginatedEpicsResponse) :=
  let allEpics := match issues with Some l => l | None => [] end in
  let epics := firstn limit allEpics in
  match forEachBatch fuel 0 epics [] with
  | None => None
  | Some (Throw e) => Some (Throw e)
  | Some (Ok epicsWithChildren) =>
      Some (Ok (mkResponse epicsWithChildren
                  (mkPagination limit startAt total
                     (startAt + List.length epicsWithChildren <? total)%nat)))
  end.

End Remote.

(** How a child of the response relates to the issue it was made
    from, under the epic [epicKey]. *)
Definition childOf (childRoom : nat) (epicKey : string) (issue : Issue)
    (kid : ChildData) : Prop :=
  childId kid = key issue /\ childJiraId kid = key issue
  /\ childTitle kid = summary issue
  /\ Adf.extractTextFromADF childRoom (issueDescription issue)
     = Ok (childDescription kid)
  /\ estimateStoryPoints kid = validateStoryPoints (rawStoryPoints issue)
  /\ childJiraStatus kid = statusName issue
  /\ childStatus kid = convertJiraStatusToWorkItemStatus (statusName issue)
  /\ epicId kid = epicKey.

(** The sum of a list of numbers from 0, as the loop adds them. *)
Definition sumWith (plus : JsNumber -> JsNumber -> JsNumber)
    (points : list JsNumber) : JsNumber :=
  fold_left plus points (Fin 0).

(** *** Example data: an epic with two stories, and a remote service
    that knows the children of that epic only *)

Definition exactPlus (a b : JsNumber) : JsNumber :=
  match a, b with
  | Fin x, Fin y => Fin (Qred (x + y))
  | _, _ => NaN
  end.

Definition checkoutEpic : Issue :=
  mkIssue "REF-10" "Checkout" (Adf.Str "Pay at the end") "In Progress" VNull.

Definition checkoutStories : list Issue :=
  [mkIssue "REF-11" "Pay by card" Adf.Nullish "Done" (VNumber (Fin 3));
   mkIssue "REF-12" "Pay by invoice" Adf.Nullish "done" (VString "5")].

Definition checkoutService (epicKey : string) : Js (option (list Issue)) :=
  if String.eqb epicKey "REF-10" then Ok (Some checkoutStories)
  else Throw "Jira API error: 502".

End EpicsImport.

(** ** Persisting a completed ticket
    (the rest of [syncCompletedTicketToSprint] and the loop of
     POST /sync-past-sprints, src/routes/jiraIntegration.ts) *)

Module TicketSync.
Import StoryPoints SprintMatcher.

(** The story-point field of a completed issue: a boolean, or any
    other value ([VOther] is then an array or an object). *)
Inductive Points : Type :=
| PBoolean (b : bool)
| PValue (v : JsValue).

Definition truthyPoints (p : Points) : bool :=
  match p with
  | PBoolean b => b
  | PValue VNull | PValue VUndefined => false
  | PValue (VString s) => JsString.truthy s
  | PValue (VNumber NaN) => false
  | PValue (VNumber (Fin q)) => negb (Qeq_bool q 0)
  | PValue (VNumber _) => true
  | PValue VOther => true
  end.

Record CompletedIssue : Type := mkCompleted {
  ticket : Ticket;                (* key, sprint field and update time *)
  summary : string;
  issueDescription : Adf.ADF;
  labels : option (list string);
  storyPointsField : Points
}.

(** A row of the work-item table (model WorkItem). *)
Record WorkItemRow : Type := mkRow {
  rowId : nat;                    (* the generated cuid *)
  jiraId : option string;
  title : string;
  description : option string;
  estimateStoryPoints : JsNumber;
  requiredCompletionDate : Z;
  requiredSkills : list string;
  status : string;
  jiraStatus : option string;
  epicId : option string;
  isEpic : bool
}.

Record SyncDb : Type := mkSyncDb {
  workItems : list WorkItemRow;
  sprintWorkItems : list (nat * nat);   (* sprint id, work item id *)
  nextWorkItemId : nat
}.

Inductive SyncResult : Type :=
| NoSprintFound (ticketKey : string)
| Synced (ticketKey sprintName : string) (sprintId workItemId : nat)
         (storyPoints : Points)
| SyncError (ticketKey message : string).

Definition ticketKeyOf (r : SyncResult) : string :=
  match r with
  | NoSprintFound k | Synced k _ _ _ _ | SyncError k _ => k
  end.

Definition knownSkills : list string :=
  ["frontend"; "backend"; "devops"; "design"; "qa"].

Definition detectedSkills (labels : option (list string)) : list string :=
  let skills :=
    filter (fun label => existsb (String.eqb (JsString.toLowerCase label)) knownSkills)
           (match labels with Some l => l | None => [] end) in
  match skills with
  | [] => ["backend"]
  | _ => skills
  end.

Definition hasJiraId (ticketKey : string) (w : WorkItemRow) : bool :=
  match jiraId w with
  | Some j => String.eqb j ticketKey
  | None => false
  end.

Definition markCompleted (w : WorkItemRow) : WorkItemRow :=
  mkRow (rowId w) (jiraId w) (title w) (description w) (estimateStoryPoints w)
        (requiredCompletionDate w) (requiredSkills w) "Completed" (Some "Done")
        (epicId w) (isEpic w).

Definition assigned (sprintId workItemId : nat) (a : nat * nat) : bool :=
  (fst a =? sprintId)%nat && (snd a =? workItemId)%nat.

(** [prisma.workItem.findFirst] is called without [orderBy]: which of
    the rows that match it returns is the store's choice, and may be
    another row once a row was updated. *)
Record FindFirst : Type := mkFindFirst {
  pick : (WorkItemRow -> bool) -> list WorkItemRow -> option WorkItemRow;
  pick_some : forall where_ rows w,
      pick where_ rows = Some w -> In w rows /\ where_ w = true;
  pick_none : forall where_ rows,
      pick where_ rows = None -> forall w, In w rows -> where_ w = false
}.

Section Store.

(** Which numbers the store takes for the estimate column, the room
    on the call stack where the description is extracted, and the
    choice of [findFirst]. *)
Variable accepts : JsNumber -> bool.
Variable stack : nat.
Variable findFirst : FindFirst.

(** [prisma.workItem.create] for a synced ticket: the store refuses an
    estimate that is not a number it takes and an invalid date. *)
Definition createWorkItem (jiraIssue : CompletedIssue) (points : Points)
    (text : string) (db : SyncDb) : Js (WorkItemRow * SyncDb) :=
  match points, updated (ticket jiraIssue) with
  | PValue (VNumber n), Some updatedDate =>
      if accepts n then
        let ticketKey := key (ticket jiraIssue) in
        let workItem :=
          mkRow (nextWorkItemId db) (Some ticketKey) (summary jiraIssue)
                (Some (if JsString.truthy text then text
                       else ("Work item synced from completed Jira ticket "
                             ++ ticketKey)%string))
                n updatedDate (detectedSkills (labels jiraIssue))
                "Completed" (Some "Done") None false in
        Ok (workItem,
            mkSyncDb (workItems db ++ [workItem]) (sprintWorkItems db)
                     (S (nextWorkItemId db)))
      else Throw "Invalid value for argument estimateStoryPoints"
  | PValue (VNumber _), None => Throw "Invalid value for argument requiredCompletionDate"
  | _, _ => Throw "Invalid value for argument estimateStoryPoints"
  end.

(** The function from the work-item lookup on, for the target sprint
    the matcher chose. *)
Definition persist (jiraIssue : CompletedIssue) (targetSprint : Db.Sprint)
    (db : SyncDb) : Js (SyncResult * SyncDb) :=
  let ticketKey := key (ticket jiraIssue) in
  let points := if truthyPoints (storyPointsField jiraIssue)
                then storyPointsField jiraIssue
                else PValue (VNumber (Fin 1)) in
  found <-
    match pick findFirst (hasJiraId ticketKey) (workItems db) with
    | None =>
        text <- Adf.extractTextFromADF stack (issueDescription jiraIssue) ;;
        createWorkItem jiraIssue points text db
    | Some workItem =>
        if String.eqb (status workItem) "Completed" then Ok (workItem, db)
        else
          Ok (workItem,
              mkSyncDb (map (fun w => if (rowId w =? rowId workItem)%nat
                                      then markCompleted w else w) (workItems db))
                       (sprintWorkItems db) (nextWorkItemId db))
    end ;;
  let '(workItem, db1) := found in
  let db2 :=
    match List.find (assigned (Db.id targetSprint) (rowId workItem))
                    (sprintWorkItems db1) with
    | Some _ => db1
    | None =>
        mkSyncDb (workItems db1)
                 (sprintWorkItems db1 ++ [(Db.id targetSprint, rowId workItem)])
                 (nextWorkItemId db1)
    end in
  Ok (Synced ticketKey (Db.name targetSprint) (Db.id targetSprint)
             (rowId workItem) points,
      db2).

(** [syncCompletedTicketToSprint], with its effect on the store. *)
Definition syncTicket (jiraIssue : CompletedIssue) (pastSprints : list Db.Sprint)
    (db : SyncDb) : Js (SyncResult * SyncDb) :=
  match syncCompletedTicketToSprint (ticket jiraIssue) pastSprints with
  | no_sprint_found => Ok (NoSprintFound (key (ticket jiraIssue)), db)
  | target targetSprint => persist jiraIssue targetSprint db
  end.

(** The loop of the route over the completed issues. *)
Fixpoint forEachIssue (issues : list CompletedIssue) (pastSprints : list Db.Sprint)
    (processedTickets : list string) (syncResults : list SyncResult) (db : SyncDb)
  : list SyncResult * SyncDb :=
  match issues with
  | [] => (syncResults, db)
  | issue :: rest =>
      let ticketKey := key (ticket issue) in
      if existsb (String.eqb ticketKey) processedTickets
      then forEachIssue rest pastSprints processedTickets syncResults db
      else
        match syncTicket issue pastSprints db with
        | Ok (result, db') =>
            forEachIssue rest pastSprints (processedTickets ++ [ticketKey])
                         (syncResults ++ [result]) db'
        | Throw message =>
            forEachIssue rest pastSprints (processedTickets ++ [ticketKey])
                         (syncResults ++ [SyncError ticketKey message]) db
        end
  end.

End Store.

(** The keys of a list in the order of their first occurrence. *)
Fixpoint firstOccurrences (seen keys : list string) : list string :=
  match keys with
  | [] => []
  | k :: rest =>
      if existsb (String.eqb k) seen then firstOccurrences seen rest
      else k :: firstOccurrences (seen ++ [k]) rest
  end.

(** The work items the store holds for a ticket key. *)
Definition ticketRows (ticketKey : string) (db : SyncDb) : list WorkItemRow :=
  filter (hasJiraId ticketKey) (workItems db).

(** A [synced] result is backed by the store: the work item it names
    is there, carries the ticket key, is completed, and is assigned to
    the sprint it names. *)
Definition backed (db : SyncDb) (r : SyncResult) : Prop :=
  match r with
  | Synced ticketKey _ sprintId workItemId _ =>
      In (sprintId, workItemId) (sprintWorkItems db)
      /\ exists w, In w (workItems db) /\ rowId w = workItemId
                   /\ jiraId w = Some ticketKey /\ status w = "Completed"
  | _ => True
  end.

(** *** Example data: a store that takes finite estimates, and tickets *)

Definition storesFinite (n : JsNumber) : bool :=
  match n with Fin _ => true | _ => false end.

(** The store that returns the matching row inserted first. *)
Definition inInsertionOrder : FindFirst :=
  mkFindFirst (@List.find WorkItemRow)
              (fun where_ rows w H => find_some where_ rows H)
              (fun where_ rows H w => find_none where_ rows H w).

Definition emptyDb : SyncDb := mkSyncDb [] [] 0.

Definition loginFix : CompletedIssue :=
  mkCompleted (mkTicket "REF-7" (FArray [SAObject (Some "Sprint 12") None]) (Some 7%Z))
              "Fix login" Adf.Nullish (Some ["Backend"; "urgent"])
              (PValue (VNumber (Fin 3))).

(** The store after [loginFix] is synced into the empty one. *)
Definition afterLoginFix : SyncDb :=
  mkSyncDb [mkRow 0 (Some "REF-7") "Fix login"
                  (Some "Work item synced from completed Jira ticket REF-7")
                  (Fin 3) 7 ["Backend"] "Completed" (Some "Done") None false]
           [(1, 0)%nat] 1.

End TicketSync.

(** ** Writing work items
    (POST /api/work-items, PUT and DELETE /api/work-items/:id,
     src/routes/workItems.ts) *)

Module WorkItemRoutes.
Import StoryPoints.

(** The request body; [None] is a property that is undefined, the
    inner [None] of the Jira columns is [null]. *)
Record WorkItemData : Type := mkData {
  title : option string;
  description : option string;
  estimateStoryPoints : option JsNumber;
  requiredCompletionDate : option string;
  requiredSkills : option (list string);
  dependencies : option (list nat);
  status : option string;
  jiraId : option (option string);
  jiraStatus : option (option string);
  epicId : option (option string);
  isEpic : option bool
}.

(** The work items and the table of their dependencies
    (model WorkItemDependency: work item, depends on). *)
Record ItemDb : Type := mkItemDb {
  workItems : list TicketSync.WorkItemRow;
  workItemDependencies : list (nat * nat);
  nextWorkItemId : nat
}.

Inductive Reply : Type :=
| Status201 (workItem : TicketSync.WorkItemRow) (dependencies : list nat)
| Status200 (workItem : TicketSync.WorkItemRow) (dependencies : list nat)
| Status200Deleted (id : nat)
| Status400 (error message : string)
| Status404
| Status409 (existingEpic : nat)
| Status500 (message : string).

Definition truthyNumber (n : JsNumber) : bool :=
  match n with
  | NaN => false
  | Fin q => negb (Qeq_bool q 0)
  | _ => true
  end.

(** [n <= 0]. *)
Definition atMostZero (n : JsNumber) : bool :=
  match n with
  | Fin q => Qle_bool q 0
  | NegInf => true
  | _ => false
  end.

Definition truthyString (o : option string) : bool :=
  match o with Some s => JsString.truthy s | None => false end.

Definition orNull {A : Type} (o : option (option A)) : option A :=
  match o with Some v => v | None => None end.

Definition orKeep {A : Type} (o : option A) (old : A) : A :=
  match o with Some v => v | None => old end.

Definition hasId (id : nat) (w : TicketSync.WorkItemRow) : bool :=
  (TicketSync.rowId w =? id)%nat.

(** [findUnique({ where: { id } })]. *)
Definition findUnique (id : nat) (db : ItemDb) : option TicketSync.WorkItemRow :=
  List.find (hasId id) (workItems db).

(** [findMany({ where: { id: { in: ids } } })]. *)
Definition findManyIn (ids : list nat) (db : ItemDb) : list TicketSync.WorkItemRow :=
  filter (fun w => existsb (Nat.eqb (TicketSync.rowId w)) ids) (workItems db).

(** The filter [{ jiraId, isEpic: true }]. *)
Definition isEpicOf (jiraId : string) (w : TicketSync.WorkItemRow) : bool :=
  TicketSync.isEpic w && TicketSync.hasJiraId jiraId w.

Definition samePair (a b : nat * nat) : bool :=
  (fst a =? fst b)%nat && (snd a =? snd b)%nat.

Fixpoint distinctPairs (rows : list (nat * nat)) : bool :=
  match rows with
  | [] => true
  | a :: rest => negb (existsb (samePair a) rest) && distinctPairs rest
  end.

(** [workItemDependency.createMany]: the composite key admits a pair
    once, and both sides reference work items. *)
Definition createMany (rows : list (nat * nat)) (db : ItemDb) : Js ItemDb :=
  if negb (distinctPairs (workItemDependencies db ++ rows))
  then Throw "Unique constraint failed on the fields: (work_item_id, depends_on_id)"
  else if negb (forallb (fun r => existsb (hasId (fst r)) (workItems db)
                                  && existsb (hasId (snd r)) (workItems db)) rows)
  then Throw "Foreign key constraint failed"
  else Ok (mkItemDb (workItems db) (workItemDependencies db ++ rows)
                    (nextWorkItemId db)).

(** [workItemDependency.deleteMany({ where: { workItemId: id } })]. *)
Definition deleteMany (id : nat) (db : ItemDb) : ItemDb :=
  mkItemDb (workItems db)
           (filter (fun r => negb (fst r =? id)%nat) (workItemDependencies db))
           (nextWorkItemId db).

Section Store.

(** Which numbers the estimate column takes, and [new Date(s)]
    ([None]: an invalid date). *)
Variable accepts : JsNumber -> bool.
Variable parseDate : string -> option Z.

Definition checked (n : JsNumber) : Js JsNumber :=
  if accepts n then Ok n
  else Throw "Invalid value for argument estimateStoryPoints".

Definition newDate (s : string) : Js Z :=
  match parseDate s with
  | Some t => Ok t
  | None => Throw "Invalid value for argument requiredCompletionDate"
  end.

(** The transaction of POST. *)
Definition postTransaction (body : WorkItemData) (dependencies0 : list nat)
    (status0 : string) (isEpic0 : bool) (db : ItemDb)
  : Js (TicketSync.WorkItemRow * ItemDb) :=
  match title body, estimateStoryPoints body,
        requiredCompletionDate body, requiredSkills body with
  | Some title0, Some estimate, Some date, Some skills =>
      n <- checked estimate ;;
      t <- newDate date ;;
      let workItem :=
        TicketSync.mkRow (nextWorkItemId db) (orNull (jiraId body)) title0
                         (description body) n t skills status0
                         (orNull (jiraStatus body)) (orNull (epicId body)) isEpic0 in
      let db1 := mkItemDb (workItems db ++ [workItem]) (workItemDependencies db)
                          (S (nextWorkItemId db)) in
      db2 <- (if (0 <? List.length dependencies0)%nat
              then createMany (map (fun depId => (TicketSync.rowId workItem, depId))
                                   dependencies0) db1
              else Ok db1) ;;
      Ok (workItem, db2)
  | _, _, _, _ => Throw "Argument missing"
  end.

(** POST /api/work-items. *)
Definition post (body : WorkItemData) (db : ItemDb) : Reply * ItemDb :=
  let dependencies0 := orKeep (dependencies body) [] in
  let status0 := orKeep (status body) "Not Started" in
  let isEpic0 := orKeep (isEpic body) false in
  if negb (truthyString (title body))
     || negb (match estimateStoryPoints body with
              | Some n => truthyNumber n | None => false end)
     || negb (truthyString (requiredCompletionDate body))
     || match requiredSkills body with
        | None | Some [] => true
        | Some _ => false
        end
  then (Status400 "Missing required fields"
          "title, estimateStoryPoints, requiredCompletionDate, and requiredSkills are required",
        db)
  else if match estimateStoryPoints body with
          | Some n => atMostZero n | None => false end
  then (Status400 "Invalid story points" "Story points must be greater than 0", db)
  else if (0 <? List.length dependencies0)%nat
          && negb (List.length (findManyIn dependencies0 db)
                   =? List.length dependencies0)%nat
  then (Status400 "Invalid dependencies" "Some dependency work items do not exist", db)
  else
    match (if isEpic0 && truthyString (orNull (jiraId body))
           then List.find (isEpicOf (orKeep (orNull (jiraId body)) "")) (workItems db)
           else None) with
    | Some existingEpic => (Status409 (TicketSync.rowId existingEpic), db)
    | None =>
        match postTransaction body dependencies0 status0 isEpic0 db with
        | Ok (result, db') => (Status201 result dependencies0, db')
        | Throw message => (Status500 message, db)
        end
    end.

(** The row [workItem.update] writes: only the columns the body
    provides change. *)
Definition updated (body : WorkItemData) (old : TicketSync.WorkItemRow)
  : Js TicketSync.WorkItemRow :=
  n <- match estimateStoryPoints body with
       | Some n => checked n
       | None => Ok (TicketSync.estimateStoryPoints old)
       end ;;
  t <- match requiredCompletionDate body with
       | Some date => if JsString.truthy date then newDate date
                      else Ok (TicketSync.requiredCompletionDate old)
       | None => Ok (TicketSync.requiredCompletionDate old)
       end ;;
  Ok (TicketSync.mkRow
        (TicketSync.rowId old)
        (orKeep (jiraId body) (TicketSync.jiraId old))
        (if truthyString (title body) then orKeep (title body) "" else TicketSync.title old)
        (match description body with
         | Some d => Some d | None => TicketSync.description old end)
        n t
        (orKeep (requiredSkills body) (TicketSync.requiredSkills old))
        (if truthyString (status body) then orKeep (status body) ""
         else TicketSync.status old)
        (orKeep (jiraStatus body) (TicketSync.jiraStatus old))
        (orKeep (epicId body) (TicketSync.epicId old))
        (orKeep (isEpic body) (TicketSync.isEpic old))).

(** The transaction of PUT. *)
Definition putTransaction (id : nat) (body : WorkItemData) (db : ItemDb)
  : Js (TicketSync.WorkItemRow * ItemDb) :=
  match findUnique id db with
  | None => Throw "Record to update not found"
  | Some old =>
      workItem <- updated body old ;;
      let db1 := mkItemDb (map (fun w => if hasId id w then workItem else w)
                               (workItems db))
                          (workItemDependencies db) (nextWorkItemId db) in
      db2 <- match dependencies body with
             | Some dependencies0 =>
                 if (0 <? List.length dependencies0)%nat
                 then createMany (map (fun depId => (id, depId)) dependencies0)
                                 (deleteMany id db1)
                 else Ok (deleteMany id db1)
             | None => Ok db1
             end ;;
      Ok (workItem, db2)
  end.

(** PUT /api/work-items/:id. *)
Definition put (id : nat) (body : WorkItemData) (db : ItemDb) : Reply * ItemDb :=
  match findUnique id db with
  | None => (Status404, db)
  | Some existingWorkItem =>
      if match estimateStoryPoints body with
         | Some n => atMostZero n | None => false end
      then (Status400 "Invalid story points" "Story points must be greater than 0", db)
      else if match dependencies body with
              | Some dependencies0 => existsb (Nat.eqb id) dependencies0
              | None => false
              end
      then (Status400 "Invalid dependencies" "Work item cannot depend on itself", db)
      else if match dependencies body with
              | Some dependencies0 =>
                  negb (List.length (findManyIn dependencies0 db)
                        =? List.length dependencies0)%nat
              | None => false
              end
      then (Status400 "Invalid dependencies" "Some dependency work items do not exist", db)
      else
        match putTransaction id body db with
        | Ok (result, db') => (Status200 result (orKeep (dependencies body) []), db')
        | Throw message => (Status500 message, db)
        end
  end.

(** DELETE /api/work-items/:id; the dependency rows of either side go
    with the work item (onDelete: Cascade). *)
Definition delete (id : nat) (db : ItemDb) : Reply * ItemDb :=
  match findUnique id db with
  | None => (Status404, db)
  | Some existingWorkItem =>
      (Status200Deleted id,
       mkItemDb (filter (fun w => negb (hasId id w)) (workItems db))
                (filter (fun r => negb (fst r =? id)%nat && negb (snd r =? id)%nat)
                        (workItemDependencies db))
                (nextWorkItemId db))
  end.

Inductive Request : Type :=
| POST (body : WorkItemData)
| PUT (id : nat) (body : WorkItemData)
| DELETE (id : nat).

Definition handle (request : Request) (db : ItemDb) : Reply * ItemDb :=
  match request with
  | POST body => post body db
  | PUT id body => put id body db
  | DELETE id => delete id db
  end.

(** The store after a sequence of requests, handled one after the other. *)
Fixpoint serve (requests : list Request) (db : ItemDb) : ItemDb :=
  match requests with
  | [] => db
  | request :: rest => serve rest (snd (handle request db))
  end.

End Store.

Definition ids (db : ItemDb) : list nat := map TicketSync.rowId (workItems db).

(** What the tables keep between requests: generated ids are below
    the next one and name one row each, a dependency pair is stored
    once, joins two existing work items, and never a work item with
    itself. *)
Definition sound (db : ItemDb) : Prop :=
  (forall id, In id (ids db) -> (id < nextWorkItemId db)%nat)
  /\ NoDup (ids db)
  /\ NoDup (workItemDependencies db)
  /\ forall a b, In (a, b) (workItemDependencies db) ->
                 a <> b /\ In a (ids db) /\ In b (ids db).

(** The epics the store holds for a Jira key. *)
Definition epicRows (jiraId : string) (db : ItemDb) : list TicketSync.WorkItemRow :=
  filter (isEpicOf jiraId) (workItems db).

(** A body that provides the dependencies only. *)
Definition onlyDependencies (dependencies0 : list nat) : WorkItemData :=
  mkData None None None None None (Some dependencies0) None None None None None.

(** *** Example data *)

Definition anyDate (s : string) : option Z := Some 0%Z.

Definition story (id : nat) : TicketSync.WorkItemRow :=
  TicketSync.mkRow id None "Story" None (Fin 3) 0 ["backend"] "Not Started"
                   None None false.

(** Two stories, the first depending on the second. *)
Definition twoStories : ItemDb := mkItemDb [story 0; story 1] [(0, 1)%nat] 2.

Definition newStory (dependencies0 : list nat) : WorkItemData :=
  mkData (Some "Story") None (Some (Fin 3)) (Some "2025-07-01") (Some ["backend"])
         (Some dependencies0) None None None None None.

Definition newEpic (jiraId0 : string) : WorkItemData :=
  mkData (Some "Epic") None (Some (Fin 1)) (Some "2025-07-01") (Some ["backend"])
         None None (Some (Some jiraId0)) None None (Some true).

End WorkItemRoutes.

(* ################################################################# *)
(** * Part II: properties *)

(** ** Rich-document text extraction *)

Section AdfProperties.
Import Adf.

(** Induction over documents, with the hypothesis on every child of
    a content array. *)
Lemma ADF_nested_ind (P : ADF -> Prop) :
  P Nullish -> P FalsyPrim -> P Prim -> (forall s, P (Str s)) ->
  (forall type text, P (Node type text None)) ->
  (forall type text nodes, Forall P nodes -> P (Node type text (Some nodes))) ->
  forall v, P v.
Proof.
  intros HN HF HP HS HL HC.
  refine (fix IH (v : ADF) : P v :=
            match v with
            | Nullish => HN
            | FalsyPrim => HF
            | Prim => HP
            | Str s => HS s
            | Node type text None => HL type text
            | Node type text (Some nodes) =>
                HC type text nodes
                   ((fix children (l : list ADF) : Forall P l :=
                       match l with
                       | [] => Forall_nil P
                       | n :: r => Forall_cons n (IH n) (children r)
                       end) nodes)
            end).
Qed.

Lemma map_append_empty (parts : list string) :
  map (String.append "") parts = parts.
Proof.
  induction parts as [|p r IH]; cbn [map]; [reflexivity|].
  now rewrite IH.
Qed.

(** A node that has a content array is answered by the first test of
    the walker, whatever its type: its children joined by newlines. *)
Lemma extract_content_array (room : nat) (type text : option string)
    (nodes : list ADF) :
  extractTextFromADF (S room) (Node type text (Some nodes)) =
  (parts <- mapExtract room nodes ;; Ok (JsString.join JsString.nl parts)).
Proof.
  cbn [extractTextFromADF truthy negb orElse].
  match goal with
  | |- bind ?m _ = _ => replace m with (mapExtract room nodes)
  end.
  - destruct (mapExtract room nodes) as [parts|e]; simpl; [|reflexivity].
    now rewrite map_append_empty.
  - induction nodes as [|n r IH]; simpl; [reflexivity|].
    now rewrite IH.
Qed.

Lemma depth_content_array (type text : option string) (nodes : list ADF) :
  depth (Node type text (Some nodes)) = S (deepest nodes).
Proof.
  reflexivity.
Qed.

Lemma depth_positive (adfContent : ADF) : (1 <= depth adfContent)%nat.
Proof.
  destruct adfContent as [ | | | s | type text [nodes|]]; cbn [depth]; lia.
Qed.

(** The children of a content array, each answered when it is within
    the room and refused with [RangeError] when it is not. *)
Lemma mapExtract_room (room : nat) (nodes : list ADF) :
  Forall (fun n =>
            ((depth n <= room)%nat -> exists s, extractTextFromADF room n = Ok s)
            /\ ((room < depth n)%nat -> extractTextFromADF room n = Throw rangeError))
         nodes ->
  ((deepest nodes <= room)%nat -> exists parts, mapExtract room nodes = Ok parts)
  /\ ((room < deepest nodes)%nat -> mapExtract room nodes = Throw rangeError).
Proof.
  induction 1 as [|n r [Hin Hout] _ [IHin IHout]]; cbn [deepest mapExtract].
  - split; [eauto|lia].
  - split.
    + intros Hle. destruct Hin as [s ->]; [lia|].
      destruct IHin as [parts ->]; [lia|]. cbn [bind]. eauto.
    + intros Hlt. destruct (Nat.le_gt_cases (depth n) room) as [Hn|Hn].
      * destruct (Hin Hn) as [s ->]. cbn [bind]. rewrite IHout by lia.
        reflexivity.
      * now rewrite (Hout Hn).
Qed.

(** The walker answers exactly the documents that are within the
    room on the stack; on the others it raises [RangeError]. *)
Lemma extract_room (adfContent : ADF) :
  forall stack,
    ((depth adfContent <= stack)%nat ->
     exists s, extractTextFromADF stack adfContent = Ok s)
    /\ ((stack < depth adfContent)%nat ->
        extractTextFromADF stack adfContent = Throw rangeError).
Proof.
  induction adfContent as [ | | | s | type text | type text nodes IH]
    using ADF_nested_ind; intros [|room];
    try (split; [cbn [depth]; lia|reflexivity]);
    try (split; [intros _|cbn [depth]; lia]).
  - now exists "".
  - now exists "".
  - now exists "".
  - exists s. destruct s; reflexivity.
  - cbn [extractTextFromADF truthy negb orElse].
    destruct (typeIs type "paragraph" || typeIs type "listItem");
      destruct (typeIs type "text");
      destruct (typeIs type "bulletList" || typeIs type "orderedList");
      cbn [orElse]; eauto.
  - rewrite extract_content_array, depth_content_array.
    assert (Hkids : Forall (fun n =>
              ((depth n <= room)%nat -> exists s, extractTextFromADF room n = Ok s)
              /\ ((room < depth n)%nat ->
                  extractTextFromADF room n = Throw rangeError)) nodes).
    { eapply Forall_impl; [|exact IH]. intros n Hn. exact (Hn room). }
    destruct (mapExtract_room room nodes Hkids) as [Hin Hout]. split.
    + intros Hle. destruct Hin as [parts ->]; [lia|]. cbn [bind]. eauto.
    + intros Hlt. rewrite Hout by lia. reflexivity.
Qed.

Lemma extracted (stack : nat) (document : ADF) :
  (depth document <= stack)%nat ->
  exists text, extractTextFromADF stack document = Ok text.
Proof. intros H. now apply extract_room. Qed.

Lemma extract_throws (stack : nat) (document : ADF) (e : string) :
  extractTextFromADF stack document = Throw e ->
  (stack < depth document)%nat /\ e = rangeError.
Proof.
  intros H. destruct (Nat.le_gt_cases (depth document) stack) as [Hle|Hgt].
  - destruct (extracted stack document Hle) as [text Ht]. congruence.
  - split; [assumption|]. rewrite (proj2 (extract_room document stack) Hgt) in H.
    congruence.
Qed.

Lemma depth_nested (n : nat) : depth (nested n) = S n.
Proof.
  induction n as [|m IH]; [reflexivity|].
  cbn [nested]. rewrite depth_content_array. cbn [deepest]. rewrite IH. lia.
Qed.

(** C3 (code at the failing inputs).  The walker answers every node
    that has a content array by joining its children with newlines,
    before it looks at the node type: a paragraph of the text nodes
    "a" and "b" gives "a", newline, "b" and not "ab"; a bullet list
    gives its items without the bullet marker; a generic container is
    joined by newlines and not by spaces.  Text nodes, bare strings
    and falsy values behave as stated.  This holds whatever the room
    on the stack, as soon as it holds the call and, for the three
    containers, the calls on their children. *)
Theorem extractTextFromADF_ignores_node_type :
  forall room : nat,
    extractTextFromADF (S (S room))
      (Node (Some "paragraph") None (Some [textNode "a"; textNode "b"]))
      = Ok ("a" ++ JsString.nl ++ "b")%string
    /\ extractTextFromADF (S (S room))
      (Node (Some "paragraph") None (Some [textNode "a"; textNode "b"]))
      <> Ok "ab"
    /\ extractTextFromADF (S (S room))
      (Node (Some "bulletList") None (Some [textNode "a"; textNode "b"]))
      = Ok ("a" ++ JsString.nl ++ "b")%string
    /\ extractTextFromADF (S (S room))
      (Node (Some "bulletList") None (Some [textNode "a"; textNode "b"]))
      <> Ok (bullet ++ "a" ++ JsString.nl ++ bullet ++ "b")%string
    /\ extractTextFromADF (S (S room))
      (Node (Some "doc") None (Some [textNode "a"; textNode "b"]))
      = Ok ("a" ++ JsString.nl ++ "b")%string
    /\ extractTextFromADF (S (S room))
      (Node (Some "doc") None (Some [textNode "a"; textNode "b"]))
      <> Ok "a b"
    /\ (forall t, extractTextFromADF (S room) (textNode t) = Ok t)
    /\ (forall s, extractTextFromADF (S room) (Str s) = Ok s)
    /\ extractTextFromADF (S room) Nullish = Ok ""
    /\ extractTextFromADF (S room) FalsyPrim = Ok "".
Proof.
  intros room. repeat split; try reflexivity; try discriminate.
  - intros t. destruct t; reflexivity.
  - intros s. destruct s; reflexivity.
Qed.

(** C10 (counterexample).  Whatever the room on the call stack, a
    finite document nested one level deeper than the room makes the
    walker throw: the chain of [stack] containers around a text node
    raises [RangeError] with room for [stack] calls, for instance the
    chain of three with room for three. *)
Lemma extractTextFromADF_deep_document_throws :
  extractTextFromADF 3 (nested 3) = Throw rangeError
  /\ forall stack, extractTextFromADF stack (nested stack) = Throw rangeError.
Proof.
  split; [reflexivity|]. intros stack.
  apply extract_room. rewrite depth_nested. lia.
Qed.

(** C10 (amended).  Every call of the walker ends.  It returns a
    string exactly on the documents whose nesting is within the room
    on the call stack, among them bare strings, falsy values and
    nodes with empty content arrays as soon as there is room for one
    call; on a document nested deeper it raises [RangeError], and it
    throws nothing else. *)
Theorem extractTextFromADF_within_stack :
  forall (stack : nat) (adfContent : ADF),
    ((depth adfContent <= stack)%nat ->
     exists s, extractTextFromADF stack adfContent = Ok s)
    /\ ((stack < depth adfContent)%nat ->
        extractTextFromADF stack adfContent = Throw rangeError)
    /\ (forall e, extractTextFromADF stack adfContent = Throw e ->
                  (stack < depth adfContent)%nat /\ e = rangeError)
    /\ rangeError = "RangeError: Maximum call stack size exceeded"
    /\ (forall s, depth (Str s) = 1%nat)
    /\ depth Nullish = 1%nat /\ depth FalsyPrim = 1%nat
    /\ (forall type text, depth (Node type text (Some [])) = 1%nat).
Proof.
  intros stack adfContent.
  split; [apply extract_room|]. split; [apply extract_room|].
  split; [intros e; apply extract_throws|]. repeat split.
Qed.

Lemma extractTextFromADF_within_stack_witness :
  exists s, extractTextFromADF 3 (nested 2) = Ok s.
Proof.
  refine (proj1 (extractTextFromADF_within_stack 3 (nested 2)) _).
  vm_compute. lia.
Defined.

End AdfProperties.

(** ** Story-point validation *)

Section StoryPointsProperties.
Import StoryPoints.

Lemma inRange_one : inRange (Fin 1).
Proof. exists 1%Q. repeat split; discriminate. Qed.

(** The clamp of a number that is not [NaN] and not above 100. *)
Lemma clamp_inRange (points : JsNumber) :
  points <> NaN ->
  inRange (if gt points (Fin 100) then Fin 1
           else max (Fin (1 # 2)) (min points (Fin 20))).
Proof.
  intros Hnan. destruct points as [ | | | q]; [congruence | | | ].
  - apply inRange_one.
  - exists (1 # 2)%Q. repeat split; discriminate.
  - cbn [gt]. destruct (Qle_bool q 100) eqn:H100; cbn [negb].
    2:{ apply inRange_one. }
    cbn [min]. destruct (Qle_bool q 20) eqn:H20; cbn [max].
    + destruct (Qle_bool (1 # 2) q) eqn:Hhalf.
      * exists q. apply Qle_bool_iff in Hhalf, H20. auto.
      * exists (1 # 2)%Q. repeat split; discriminate.
    + exists 20%Q. repeat split; discriminate.
Qed.

(** Away from the number [NaN], the validator answers inside
    [0.5, 20]. *)
Lemma validateStoryPoints_inRange (value : JsValue) :
  value <> VNumber NaN -> inRange (validateStoryPoints value).
Proof.
  intros Hv. unfold validateStoryPoints.
  destruct (isNullish value || isString value "None" || isString value "");
    [apply inRange_one|].
  destruct value as [ | | s | n | ]; try apply inRange_one.
  - destruct (parseFloat (JsString.trim s)) as [ | | | q] eqn:Hp; cbn [isNaN].
    + apply inRange_one.
    + now apply clamp_inRange.
    + now apply clamp_inRange.
    + now apply clamp_inRange.
  - apply clamp_inRange. congruence.
Qed.

(** The values the specification lists. *)
Lemma validateStoryPoints_examples :
  validateStoryPoints VNull = Fin 1
  /\ validateStoryPoints VUndefined = Fin 1
  /\ validateStoryPoints (VString "None") = Fin 1
  /\ validateStoryPoints (VString "") = Fin 1
  /\ validateStoryPoints (VString "n/a") = Fin 1
  /\ validateStoryPoints (VNumber (Fin 150)) = Fin 1
  /\ validateStoryPoints (VNumber (Fin 7)) = Fin 7
  /\ validateStoryPoints (VString "3.5") = Fin (7 # 2)
  /\ validateStoryPoints (VNumber (Fin (1 # 10))) = Fin (1 # 2).
Proof. repeat split; vm_compute; reflexivity. Qed.

(** Handed the number [NaN], which no field of a parsed JSON document
    holds, the validator returns [NaN]: the test against 100 is false,
    and [Math.min] and [Math.max] hand [NaN] through. *)
Lemma validateStoryPoints_NaN :
  validateStoryPoints (VNumber NaN) = NaN
  /\ ~ inRange (validateStoryPoints (VNumber NaN)).
Proof.
  split; [reflexivity|].
  intros [q [H _]]. discriminate H.
Qed.

Lemma inRange_positive (n : JsNumber) :
  inRange n -> n <> NaN /\ gt n (Fin 0) = true.
Proof.
  intros (q & -> & Hlow & _). split; [discriminate|]. cbn [gt].
  destruct (Qle_bool q 0) eqn:E; [|reflexivity].
  apply Qle_bool_iff in E. exfalso.
  assert (H : (1 # 2 <= 0)%Q) by (eapply Qle_trans; eassumption).
  now apply H.
Qed.

(** C4.  On every value a field of a parsed JSON document can hold,
    the validator answers a number of [0.5, 20]: it is not [NaN] and
    it is above 0.  A string that does not parse gives 1, and so does
    a number above 100, as such or read from a string.  The values
    the specification lists come out as it says. *)
Theorem validateStoryPoints_total :
  forall value : JsValue,
    fromJson value ->
    inRange (validateStoryPoints value)
    /\ validateStoryPoints value <> NaN
    /\ gt (validateStoryPoints value) (Fin 0) = true
    /\ (forall s, value = VString s ->
                  isNaN (parseFloat (JsString.trim s)) = true ->
                  validateStoryPoints value = Fin 1)
    /\ (forall n, value = VNumber n -> gt n (Fin 100) = true ->
                  validateStoryPoints value = Fin 1)
    /\ (forall s, value = VString s ->
                  gt (parseFloat (JsString.trim s)) (Fin 100) = true ->
                  validateStoryPoints value = Fin 1)
    /\ validateStoryPoints VNull = Fin 1
    /\ validateStoryPoints (VString "None") = Fin 1
    /\ validateStoryPoints (VString "") = Fin 1
    /\ validateStoryPoints (VString "n/a") = Fin 1
    /\ validateStoryPoints (VNumber (Fin 150)) = Fin 1
    /\ validateStoryPoints (VNumber (Fin 7)) = Fin 7
    /\ validateStoryPoints (VString "3.5") = Fin (7 # 2)
    /\ validateStoryPoints (VNumber (Fin (1 # 10))) = Fin (1 # 2).
Proof.
  intros value Hjson.
  pose proof (validateStoryPoints_inRange value Hjson) as Hrange.
  destruct (inRange_positive _ Hrange) as [Hnan Hpos].
  split; [exact Hrange|]. split; [exact Hnan|]. split; [exact Hpos|].
  split; [|split; [|split]].
  - intros s -> Hs. unfold validateStoryPoints.
    destruct (isNullish (VString s) || isString (VString s) "None"
              || isString (VString s) ""); [reflexivity|].
    now rewrite Hs.
  - intros n -> Hn. unfold validateStoryPoints. cbn [isNullish isString orb].
    now rewrite Hn.
  - intros s -> Hs. unfold validateStoryPoints.
    destruct (isNullish (VString s) || isString (VString s) "None"
              || isString (VString s) ""); [reflexivity|].
    destruct (isNaN (parseFloat (JsString.trim s))); [reflexivity|].
    now rewrite Hs.
  - repeat split; vm_compute; reflexivity.
Qed.

Lemma validateStoryPoints_total_witness :
  inRange (validateStoryPoints (VString "3.5")).
Proof.
  refine (proj1 (validateStoryPoints_total (VString "3.5") _)).
  unfold fromJson. discriminate.
Defined.

End StoryPointsProperties.

(** ** Sprint matching *)

Section SprintMatcherProperties.
Import SprintMatcher.

Lemma find_firstSuch {A : Type} (P : A -> bool) (l : list A) (s : A) :
  List.find P l = Some s <-> firstSuch P l s.
Proof.
  split.
  - induction l as [|x r IH]; simpl; [discriminate|].
    destruct (P x) eqn:Hx.
    + intros [= <-]. exists [], r. repeat split; auto. intros ? [].
    + intros H. destruct (IH H) as (b & a & -> & Hs & Hb).
      exists (x :: b), a. repeat split; auto.
      intros y [<-|Hy]; auto.
  - intros (b & a & -> & Hs & Hb).
    induction b as [|x b IH]; simpl.
    + now rewrite Hs.
    + rewrite (Hb x (or_introl eq_refl)). apply IH.
      intros y Hy. apply Hb. now right.
Qed.

Lemma find_none_iff {A : Type} (P : A -> bool) (l : list A) :
  List.find P l = None <-> forall x, In x l -> P x = false.
Proof.
  split; [apply find_none|].
  induction l as [|x r IH]; simpl; [reflexivity|].
  intros H. rewrite (H x (or_introl eq_refl)). apply IH. auto.
Qed.

Lemma last_snoc (rest : list Db.Sprint) (s : Db.Sprint) :
  List.last (map Some (rest ++ [s])) None = Some s.
Proof. rewrite map_app. simpl. apply last_last. Qed.

Lemma ascendingByStart_last (rest : list Db.Sprint) (s : Db.Sprint) :
  ascendingByStart (rest ++ [s]) ->
  forall c, In c (rest ++ [s]) -> (Db.startDate c <= Db.startDate s)%Z.
Proof.
  induction rest as [|x r IH]; simpl.
  - intros _ c [<-|[]]. lia.
  - intros [Hx Hr] c [<-|Hc].
    + apply Hx. apply in_or_app. right. now left.
    + now apply IH.
Qed.

(** The three strategies, in terms of the name strategy 1 uses. *)
Lemma targetSprint_cascade (jiraIssue : Ticket) (pastSprints : list Db.Sprint) :
  targetSprint jiraIssue pastSprints =
  orFind (orFind (match sprintNameOf jiraIssue with
                  | Some n => List.find (nameMatches n) pastSprints
                  | None => None
                  end)
                 (List.find (dateMatches (updated jiraIssue)) pastSprints))
         (List.last (map Some pastSprints) None).
Proof.
  unfold targetSprint, sprintNameOf.
  destruct (lastSprint (customfield_10020 jiraIssue)) as [l|]; [|reflexivity].
  destruct (extractSprintName l) as [n|]; [|reflexivity].
  destruct (JsString.truthy n); reflexivity.
Qed.




End SprintMatcherProperties.

(** ** De-duplication of imported epics *)

Section WorkItemsProperties.
Import WorkItems.

Lemma optEqb_eq (a b : option string) : optEqb a b = true <-> a = b.
Proof.
  destruct a as [x|], b as [y|]; simpl; try (split; congruence).
  rewrite String.eqb_eq. split; congruence.
Qed.

Lemma optEq_dec (a b : option string) : {a = b} + {a <> b}.
Proof. decide equality. apply string_dec. Qed.

Lemma optEqb_refl (a : option string) : optEqb a a = true.
Proof. now apply optEqb_eq. Qed.

Lemma optEqb_neq (a b : option string) : a <> b -> optEqb a b = false.
Proof.
  intros H. destruct (optEqb a b) eqn:E; [|reflexivity].
  apply optEqb_eq in E. contradiction.
Qed.

Section EpicMap.
Context {V : Type}.
Implicit Types (m : list (option string * V)) (k : option string).

Lemma mapGet_mapSet_same k (v : V) m :
  mapGet optEqb k (mapSet optEqb k v m) = Some v.
Proof.
  induction m as [|[k' v'] r IH]; simpl.
  - now rewrite optEqb_refl.
  - destruct (optEqb k' k) eqn:E; simpl; rewrite E; auto.
Qed.

Lemma mapGet_mapSet_other k k' (v : V) m :
  k <> k' -> mapGet optEqb k' (mapSet optEqb k v m) = mapGet optEqb k' m.
Proof.
  intros Hne. induction m as [|[k0 v0] r IH]; simpl.
  - now rewrite (optEqb_neq k k').
  - destruct (optEqb k0 k) eqn:E; simpl.
    + apply optEqb_eq in E. subst k0. now rewrite (optEqb_neq k k').
    + now rewrite IH.
Qed.

Lemma mapSet_keys k (v : V) m :
  NoDup (map fst m) -> NoDup (map fst (mapSet optEqb k v m))
  /\ forall k', In k' (map fst (mapSet optEqb k v m)) ->
                k' = k \/ In k' (map fst m).
Proof.
  induction m as [|[k0 v0] r IH]; simpl; intros Hnd.
  - split; [constructor; [intros []|constructor]|]. intros k' [<-|[]]. now left.
  - inversion Hnd as [|? ? Hnotin Hr]; subst.
    destruct (optEqb k0 k) eqn:E; simpl.
    + split; [now constructor|]. intros k' [<-|H]; auto.
    + destruct (IH Hr) as [IH1 IH2]. split.
      * constructor; [|exact IH1]. intros Hin.
        destruct (IH2 _ Hin) as [->|H]; [|contradiction].
        rewrite optEqb_refl in E. discriminate.
      * intros k' [<-|H]; auto. destruct (IH2 _ H); auto.
Qed.

Lemma mapGet_In k (v : V) m :
  mapGet optEqb k m = Some v -> In (k, v) m.
Proof.
  induction m as [|[k0 v0] r IH]; simpl; [discriminate|].
  destruct (optEqb k0 k) eqn:E.
  - apply optEqb_eq in E. intros [= <-]. subst. now left.
  - intros H. right. now apply IH.
Qed.

Lemma In_mapGet k (v : V) m :
  NoDup (map fst m) -> In (k, v) m -> mapGet optEqb k m = Some v.
Proof.
  induction m as [|[k0 v0] r IH]; simpl; [intros _ []|].
  intros Hnd [H|H].
  - injection H as -> ->. now rewrite optEqb_refl.
  - inversion Hnd as [|? ? Hnotin Hr]; subst.
    destruct (optEqb k0 k) eqn:E.
    + apply optEqb_eq in E. subst k0. exfalso. apply Hnotin.
      change k with (fst (k, v)). now apply in_map.
    + now apply IH.
Qed.
End EpicMap.

(** What the loop over the epics leaves in the map: entries of
    unique keys; every entry is an old one or one of the epics, filed
    under its external id; every epic and every old entry is
    dominated by the entry of its key. *)
Lemma fillEpicMap_spec (epics : list WorkItem) :
  forall epicMap,
    NoDup (map fst epicMap) ->
    let final := fillEpicMap epics epicMap in
    NoDup (map fst final)
    /\ (forall k v, mapGet optEqb k final = Some v ->
                    mapGet optEqb k epicMap = Some v
                    \/ (In v epics /\ jiraId v = k))
    /\ (forall e, In e epics ->
                  exists v, mapGet optEqb (jiraId e) final = Some v
                            /\ (createdAt e <= createdAt v)%Z)
    /\ (forall k v, mapGet optEqb k epicMap = Some v ->
                    exists v', mapGet optEqb k final = Some v'
                               /\ (createdAt v <= createdAt v')%Z).
Proof.
  induction epics as [|epic rest IH]; intros epicMap Hnd; cbn zeta.
  - simpl. repeat split; auto.
    + intros e [].
    + intros k v H. exists v. split; [exact H|lia].
  - cbn [fillEpicMap].
    set (next := if match mapGet optEqb (jiraId epic) epicMap with
                    | Some e => (createdAt e <? createdAt epic)%Z
                    | None => true
                    end
                 then mapSet optEqb (jiraId epic) epic epicMap
                 else epicMap).
    assert (Hnext_nd : NoDup (map fst next)).
    { subst next. destruct (match mapGet optEqb (jiraId epic) epicMap with
                            | Some e => _ | None => _ end); auto.
      now apply mapSet_keys. }
    assert (Hnext_from : forall k v, mapGet optEqb k next = Some v ->
               mapGet optEqb k epicMap = Some v \/ (v = epic /\ jiraId v = k)).
    { subst next. intros k v.
      destruct (match mapGet optEqb (jiraId epic) epicMap with
                | Some e => _ | None => _ end); auto.
      destruct (optEq_dec (jiraId epic) k) as [<-|Hne].
      - rewrite mapGet_mapSet_same. intros [= <-]. now right.
      - rewrite mapGet_mapSet_other by exact Hne. now left. }
    assert (Hnext_epic : exists v, mapGet optEqb (jiraId epic) next = Some v
                                   /\ (createdAt epic <= createdAt v)%Z).
    { subst next. destruct (mapGet optEqb (jiraId epic) epicMap) as [e|] eqn:He.
      - destruct (createdAt e <? createdAt epic)%Z eqn:Hlt.
        + rewrite mapGet_mapSet_same. exists epic. split; [reflexivity|lia].
        + exists e. split; [exact He|]. apply Z.ltb_ge in Hlt. exact Hlt.
      - rewrite mapGet_mapSet_same. exists epic. split; [reflexivity|lia]. }
    assert (Hnext_old : forall k v, mapGet optEqb k epicMap = Some v ->
               exists v', mapGet optEqb k next = Some v'
                          /\ (createdAt v <= createdAt v')%Z).
    { subst next. intros k v Hk.
      destruct (mapGet optEqb (jiraId epic) epicMap) as [e|] eqn:He.
      - destruct (createdAt e <? createdAt epic)%Z eqn:Hlt.
        + destruct (optEq_dec (jiraId epic) k) as [<-|Hne].
          * rewrite mapGet_mapSet_same. exists epic. split; [reflexivity|].
            rewrite He in Hk. injection Hk as <-. apply Z.ltb_lt in Hlt. lia.
          * rewrite mapGet_mapSet_other by exact Hne.
            exists v. split; [exact Hk|lia].
        + exists v. split; [exact Hk|lia].
      - destruct (optEq_dec (jiraId epic) k) as [<-|Hne].
        + congruence.
        + rewrite mapGet_mapSet_other by exact Hne.
          exists v. split; [exact Hk|lia]. }
    destruct (IH next Hnext_nd) as (IH1 & IH2 & IH3 & IH4).
    repeat split.
    + exact IH1.
    + intros k v H. destruct (IH2 k v H) as [H'|[Hin Hk]].
      * destruct (Hnext_from k v H') as [?|[-> ?]]; auto.
        right. split; [now left|assumption].
      * right. split; [now right|assumption].
    + intros e [<-|Hin].
      * destruct Hnext_epic as (v & Hv & Hle).
        destruct (IH4 _ _ Hv) as (v' & Hv' & Hle').
        exists v'. split; [exact Hv'|lia].
      * now apply IH3.
    + intros k v Hk. destruct (Hnext_old k v Hk) as (v1 & Hv1 & Hle1).
      destruct (IH4 _ _ Hv1) as (v2 & Hv2 & Hle2).
      exists v2. split; [exact Hv2|lia].
Qed.

Lemma deduplicatedEpics_iff (items : list WorkItem) (s : WorkItem) :
  In s (deduplicatedEpics items) <->
  mapGet optEqb (jiraId s) (fillEpicMap (filter isEpic items) []) = Some s
  /\ In s items /\ isEpic s = true.
Proof.
  destruct (fillEpicMap_spec (filter isEpic items) [] (NoDup_nil _))
    as (Hnd & Hfrom & _ & _).
  unfold deduplicatedEpics, mapValues. split.
  - intros H. apply in_map_iff in H. destruct H as ([k v] & Hv & Hin).
    simpl in Hv. subst v.
    apply (In_mapGet _ _ _ Hnd) in Hin.
    destruct (Hfrom _ _ Hin) as [H|[Hs Hk]]; [discriminate H|].
    apply filter_In in Hs. subst k. tauto.
  - intros (H & _ & _). apply mapGet_In in H.
    apply in_map_iff. exists (jiraId s, s). auto.
Qed.

Lemma item_withChildren (items : list WorkItem) (l : list WorkItem) :
  map item (map (withChildren items) l) = l.
Proof.
  induction l as [|x r IH]; simpl; [reflexivity|].
  rewrite IH. f_equal. unfold withChildren. now destruct (isEpic x).
Qed.

Lemma hasId_In (ids : list string) (i : string) : hasId ids i = true <-> In i ids.
Proof.
  unfold hasId. rewrite existsb_exists. split.
  - intros (x & Hx & E). apply String.eqb_eq in E. now subst.
  - intros H. exists i. split; [exact H|apply String.eqb_refl].
Qed.

Lemma isChildOf_iff (epic child : WorkItem) :
  isChildOf epic child = true <->
  epicId child = Some (id epic) \/ epicId child = jiraId epic.
Proof.
  unfold isChildOf. rewrite orb_true_iff, !optEqb_eq. tauto.
Qed.




End WorkItemsProperties.

(** ** The calls of the store client in sequence *)

Section StoreSteps.
Import Prisma Sprints.
Local Open Scope tx_scope.

(** The calls that never throw. *)
Lemma bind_findFirst {A : Type} (where_ : Db.Sprint -> bool)
    (k : option Db.Sprint -> Tx A) (db : Store) :
  (found <- findFirst where_ ;; k found) db = k (List.find where_ (rows db)) db.
Proof. reflexivity. Qed.

Lemma bind_findMany {A : Type} (where_ : Db.Sprint -> bool)
    (k : list Db.Sprint -> Tx A) (db : Store) :
  (found <- findMany where_ ;; k found) db = k (filter where_ (rows db)) db.
Proof. reflexivity. Qed.

Lemma bind_ret {A B : Type} (a : A) (k : A -> Tx B) (db : Store) :
  (x <- ret a ;; k x) db = k a db.
Proof. reflexivity. Qed.

Lemma bind_newDate {A : Type} (time : Z) (k : Z -> Tx A) (db : Store) :
  (t <- newDate (DateAt time) ;; k t) db = k time db.
Proof. reflexivity. Qed.

Lemma bind_bind {A B C : Type} (m : Tx A) (f : A -> Tx B) (k : B -> Tx C)
    (db : Store) :
  (y <- (x <- m ;; f x) ;; k y) db = (x <- m ;; y <- f x ;; k y) db.
Proof. unfold bindTx. destruct (m db) as [[a db']|e]; reflexivity. Qed.

End StoreSteps.

Ltac tx_step :=
  first [rewrite bind_bind | rewrite bind_findFirst | rewrite bind_findMany
        | rewrite bind_ret | rewrite bind_newDate];
  cbn beta iota.

(** ** Batch sprint route *)

Section SprintsProperties.
Import Prisma Sprints.
Local Open Scope tx_scope.

(** *** Validation *)

Lemma processSprint_missing (isRegeneration : bool) (d : SprintData) (db : Store) :
  missing d = true ->
  processSprint isRegeneration d db = Throw (missingFields d).
Proof.
  intros Hd. unfold processSprint. rewrite Hd.
  destruct (name d) as [n|]; reflexivity.
Qed.

(** What the required-field test lets through. *)
Lemma missing_false (d : SprintData) :
  missing d = false ->
  exists n,
    name d = Some n /\ JsString.truthy n = true
    /\ startDate d <> NoDate /\ endDate d <> NoDate
    /\ plannedVelocity d <> None /\ plannedVelocity d <> Some Null.
Proof.
  unfold missing. intros H.
  apply orb_false_iff in H. destruct H as [H Hpv].
  apply orb_false_iff in H. destruct H as [H Hed].
  apply orb_false_iff in H. destruct H as [Hn Hsd].
  destruct (name d) as [n|]; [|discriminate].
  exists n. apply negb_false_iff in Hn.
  repeat split; try assumption.
  - intros E. now rewrite E in Hsd.
  - intros E. now rewrite E in Hed.
  - intros E. now rewrite E in Hpv.
  - intros E. now rewrite E in Hpv.
Qed.

(** What the store client takes. *)
Lemma wellTyped_fields (d : SprintData) :
  wellTyped d = true ->
  exists sd ed pv,
    startDate d = DateAt sd /\ endDate d = DateAt ed
    /\ plannedVelocity d = Some (Number pv)
    /\ optionalFloat (actualVelocity d) = ret (written (actualVelocity d)).
Proof.
  unfold wellTyped, parses, numeric.
  destruct (startDate d) as [| |sd]; try discriminate.
  destruct (endDate d) as [| |ed]; try discriminate.
  destruct (plannedVelocity d) as [[pv| |t]|]; try discriminate.
  destruct (actualVelocity d) as [[av| |t]|]; try discriminate;
    intros _; exists sd, ed, pv; repeat split.
Qed.

Lemma parses_dates (d : SprintData) :
  parses d = true ->
  exists sd ed, startDate d = DateAt sd /\ endDate d = DateAt ed.
Proof.
  unfold parses. destruct (startDate d) as [| |sd]; try discriminate.
  destruct (endDate d) as [| |ed]; try discriminate. eauto.
Qed.

(** [tx.sprint.create] on the fields of a definition: the row is
    created from the dates and numbers read, or the call is refused. *)
Lemma createSprint_cases (n : string) (d : SprintData) (db : Store) :
  (exists sd ed pv,
      wellTyped d = true
      /\ startDate d = DateAt sd /\ endDate d = DateAt ed
      /\ plannedVelocity d = Some (Number pv)
      /\ createSprint n (startDate d) (endDate d) (plannedVelocity d)
                      (actualVelocity d) db
         = create n sd ed pv (number (actualVelocity d)) db)
  \/ (wellTyped d = false
      /\ createSprint n (startDate d) (endDate d) (plannedVelocity d)
                      (actualVelocity d) db
         = Throw validationError).
Proof.
  unfold wellTyped, parses, numeric, createSprint.
  destruct (startDate d) as [| |sd]; try (right; split; reflexivity).
  destruct (endDate d) as [| |ed]; try (right; split; reflexivity).
  destruct (plannedVelocity d) as [[pv| |t]|]; try (right; split; reflexivity).
  destruct (actualVelocity d) as [[av| |t]|]; try (right; split; reflexivity);
    left; exists sd, ed, pv; repeat split.
Qed.

(** [tx.sprint.update] on the velocities of a definition. *)
Lemma updateSprint_cases (id : nat) (d : SprintData) (db : Store) :
  (exists pv,
      plannedVelocity d = Some (Number pv)
      /\ updateSprint id (plannedVelocity d) (actualVelocity d) db
         = update id pv (written (actualVelocity d)) db)
  \/ (wellTyped d = false
      /\ updateSprint id (plannedVelocity d) (actualVelocity d) db
         = Throw validationError).
Proof.
  unfold wellTyped, numeric, updateSprint.
  destruct (plannedVelocity d) as [[pv| |t]|].
  2-4: right; split; [apply andb_false_r|reflexivity].
  destruct (actualVelocity d) as [[av| |t]|].
  1,2,4: left; exists pv; split; reflexivity.
  right; split; [apply andb_false_r|reflexivity].
Qed.

(** The dates handed to the dated lookup. *)
Lemma newDate_cases (d : SprintData) :
  (exists sd ed, startDate d = DateAt sd /\ endDate d = DateAt ed)
  \/ (wellTyped d = false
      /\ forall (A : Type) (k : Z -> Z -> Tx A) db,
           (sd <- newDate (startDate d) ;; ed <- newDate (endDate d) ;; k sd ed) db
           = Throw validationError).
Proof.
  unfold wellTyped, parses.
  destruct (startDate d) as [| |sd]; try (right; split; reflexivity).
  destruct (endDate d) as [| |ed]; try (right; split; reflexivity).
  left. eauto.
Qed.

Lemma find_In {A : Type} (P : A -> bool) (l : list A) (x : A) :
  List.find P l = Some x -> In x l /\ P x = true.
Proof. apply find_some. Qed.

Lemma update_found (existing : Db.Sprint) (pv : Q) (av : option (option Q))
    (db : Store) :
  In existing (rows db) ->
  exists sprint,
    update (Db.id existing) pv av db =
    Ok (sprint,
        mkStore (map (fun r' => if (Db.id r' =? Db.id existing)%nat
                                then setVelocities pv av r' else r') (rows db))
                (nextId db)).
Proof.
  intros Hin. unfold update.
  destruct (List.find (fun r => (Db.id r =? Db.id existing)%nat) (rows db))
    as [r|] eqn:E.
  - eauto.
  - apply find_none with (x := existing) in E; [|exact Hin].
    rewrite Nat.eqb_refl in E. discriminate.
Qed.

Lemma includes_refl (s : string) : JsString.includes s s = true.
Proof.
  assert (H : forall t, String.prefix t t = true).
  { induction t as [|a t IH]; simpl; [reflexivity|].
    destruct (ascii_dec a a); [exact IH|congruence]. }
  destruct s as [|c r]; cbn [JsString.includes]; now rewrite H.
Qed.

(** One iteration on a definition that passes the required-field
    test: it is carried out, or the store client refuses a date that
    does not parse or a velocity that is no number. *)
Lemma processSprint_cases (isRegeneration : bool) (d : SprintData) (db : Store) :
  missing d = false ->
  (exists pushed db',
      processSprint isRegeneration d db = Ok (pushed, db')
      /\ effect isRegeneration d db pushed db')
  \/ (wellTyped d = false
      /\ processSprint isRegeneration d db = Throw validationError).
Proof.
  intros Hvalid.
  destruct (missing_false d Hvalid) as (n & En & _).
  unfold processSprint. rewrite Hvalid, En.
  assert (Hupdate : forall e,
             In e (rows db) ->
             (exists pushed db',
                 (sprint <- updateSprint (Db.id e) (plannedVelocity d)
                                         (actualVelocity d) ;;
                  ret (Some sprint)) db = Ok (pushed, db')
                 /\ effect false d db pushed db')
             \/ (wellTyped d = false
                 /\ (sprint <- updateSprint (Db.id e) (plannedVelocity d)
                                            (actualVelocity d) ;;
                     ret (Some sprint)) db = Throw validationError)).
  { intros e He. unfold bindTx.
    destruct (updateSprint_cases (Db.id e) d db) as [(pv & _ & ->)|[Hill ->]];
      [left|right; split; [exact Hill|reflexivity]].
    destruct (update_found e pv (written (actualVelocity d)) db He)
      as [sprint ->].
    do 2 eexists. split; [reflexivity|]. now apply effect_update. }
  assert (Hcreate : (forall r, In r (rows db) -> nonArchivedNamed n r = false) ->
             (exists pushed db',
                 (sprint <- createSprint n (startDate d) (endDate d)
                                         (plannedVelocity d) (actualVelocity d) ;;
                  ret (Some sprint)) db = Ok (pushed, db')
                 /\ effect isRegeneration d db pushed db')
             \/ (wellTyped d = false
                 /\ (sprint <- createSprint n (startDate d) (endDate d)
                                            (plannedVelocity d) (actualVelocity d) ;;
                     ret (Some sprint)) db = Throw validationError)).
  { intros Hnone. unfold bindTx.
    destruct (createSprint_cases n d db)
      as [(sd & ed & pv & _ & Esd & Eed & Epv & ->)|[Hill ->]];
      [left|right; split; [exact Hill|reflexivity]].
    do 2 eexists. split; [reflexivity|].
    now apply (effect_create _ _ _ n sd ed pv). }
  destruct (List.find (nonArchivedNamed n) (rows db)) as [e|] eqn:Ename.
  - (* a sprint of the name exists: reused, or its velocities updated *)
    pose proof (find_In _ _ _ Ename) as [He _].
    destruct isRegeneration; tx_step; rewrite Ename; cbn beta iota.
    + left. do 2 eexists. split; [reflexivity|]. now apply effect_reuse.
    + repeat tx_step. exact (Hupdate e He).
  - assert (Hnone : forall r, In r (rows db) -> nonArchivedNamed n r = false).
    { now apply find_none. }
    destruct isRegeneration; tx_step; rewrite Ename; cbn beta iota.
    + exact (Hcreate Hnone).
    + destruct (newDate_cases d) as [(sd & ed & Esd & Eed)|[Hill Hthrow]].
      2:{ right. split; [exact Hill|]. unfold bindTx at 1. now rewrite Hthrow. }
      revert Hupdate Hcreate. rewrite Esd, Eed. intros Hupdate Hcreate.
      repeat tx_step.
      match goal with
      | |- context [List.find ?P (rows db)] =>
          destruct (List.find P (rows db)) as [e|] eqn:Edates
      end; cbn beta iota.
      * apply find_In in Edates. destruct Edates as [He _].
        repeat tx_step. exact (Hupdate e He).
      * repeat tx_step.
        match goal with
        | |- context [filter ?P (rows db)] =>
            destruct (filter P (rows db)) as [|s0 similar] eqn:Esim
        end; cbn beta iota.
        -- repeat tx_step. exact (Hcreate Hnone).
        -- match goal with
           | |- context [List.find ?P (s0 :: similar)] =>
               destruct (List.find P (s0 :: similar)) as [exact|] eqn:Eexact
           end; cbn beta iota.
           ++ apply find_In in Eexact. destruct Eexact as [He _].
              rewrite <- Esim in He. apply filter_In in He.
              destruct He as [He _]. repeat tx_step. exact (Hupdate exact He).
           ++ repeat tx_step. left. do 2 eexists. split; [reflexivity|].
              now apply effect_skip.
Qed.

(** A definition that passes the required-field test and that the
    store client takes is carried out. *)
Lemma processSprint_effect (isRegeneration : bool) (d : SprintData) (db : Store) :
  missing d = false -> wellTyped d = true ->
  exists pushed db',
    processSprint isRegeneration d db = Ok (pushed, db')
    /\ effect isRegeneration d db pushed db'.
Proof.
  intros Hvalid Htyped.
  destruct (processSprint_cases isRegeneration d db Hvalid) as [H|[H _]];
    [exact H|congruence].
Qed.

(** An iteration that returns did what [effect] says. *)
Lemma processSprint_effect_inv (isRegeneration : bool) (d : SprintData)
    (db db' : Store) (pushed : option Db.Sprint) :
  processSprint isRegeneration d db = Ok (pushed, db') ->
  missing d = false /\ effect isRegeneration d db pushed db'.
Proof.
  intros Hrun. destruct (missing d) eqn:Hd.
  - rewrite processSprint_missing in Hrun by exact Hd. discriminate Hrun.
  - split; [reflexivity|].
    destruct (processSprint_cases isRegeneration d db Hd)
      as [(o & db1 & Hp & Heff)|(_ & Hp)]; rewrite Hp in Hrun;
      [|discriminate Hrun].
    injection Hrun as <- <-. exact Heff.
Qed.

(** *** Atomic validation *)

Lemma forEachSprint_missing (isRegeneration : bool)
    (valid : list SprintData) (d : SprintData) (rest : list SprintData) :
  Forall (fun v => missing v = false /\ wellTyped v = true) valid ->
  missing d = true ->
  forall updatedSprints db,
    forEachSprint isRegeneration (valid ++ d :: rest) updatedSprints db
    = Throw (missingFields d).
Proof.
  intros Hvalid Hd. induction Hvalid as [|v vs [Hv Hp] _ IH]; intros acc db.
  - cbn [app forEachSprint]. unfold bindTx.
    now rewrite processSprint_missing.
  - cbn [app forEachSprint]. unfold bindTx.
    destruct (processSprint_effect isRegeneration v db Hv Hp)
      as (o & db' & -> & _).
    apply IH.
Qed.

(** A batch with a definition that lacks a required field never runs
    to its end. *)
Lemma forEachSprint_throws (isRegeneration : bool) (batch : list SprintData) :
  (exists d, In d batch /\ missing d = true) ->
  forall updatedSprints db,
    exists e, forEachSprint isRegeneration batch updatedSprints db = Throw e.
Proof.
  induction batch as [|x rest IH]; intros (d & Hin & Hd) acc db;
    [destruct Hin|].
  cbn [forEachSprint]. unfold bindTx.
  destruct (processSprint isRegeneration x db) as [[pushed db1]|e] eqn:Hx;
    [|eauto].
  apply processSprint_effect_inv in Hx. destruct Hx as [Hx _].
  destruct Hin as [<-|Hin]; [congruence|]. apply IH. eauto.
Qed.

Lemma transaction_throws (isRegeneration : bool) (batch : list SprintData)
    (db : Store) :
  (exists d, In d batch /\ missing d = true) ->
  exists e, transaction (applyBatch batch isRegeneration) db = (Throw e, db).
Proof.
  intros Hsome. unfold transaction, applyBatch, bindTx.
  destruct (clearExisting isRegeneration db) as [[k db1]|e] eqn:Ec.
  - destruct (forEachSprint_throws isRegeneration batch Hsome [] db1) as [e ->].
    eauto.
  - unfold clearExisting in Ec. destruct isRegeneration; discriminate Ec.
Qed.

Lemma transaction_first_missing (isRegeneration : bool)
    (valid : list SprintData) (d : SprintData) (rest : list SprintData)
    (db : Store) :
  Forall (fun v => missing v = false /\ wellTyped v = true) valid ->
  missing d = true ->
  transaction (applyBatch (valid ++ d :: rest) isRegeneration) db
  = (Throw (missingFields d), db).
Proof.
  intros Hvalid Hd. unfold transaction, applyBatch, bindTx.
  destruct (clearExisting isRegeneration db) as [[k db1]|e] eqn:Ec.
  - now rewrite (forEachSprint_missing isRegeneration valid d rest Hvalid Hd).
  - unfold clearExisting in Ec. destruct isRegeneration; discriminate Ec.
Qed.

(** What the handler answers, with a free guard, when its transaction
    throws. *)
Lemma handle_throw (batch : list SprintData) (isRegeneration : bool)
    (db : Store) (e : string) :
  batch <> [] ->
  transaction (applyBatch batch isRegeneration) db = (Throw e, db) ->
  (forall now g,
      snd (handle now (mkRequest (Some batch) isRegeneration) g db) = db)
  /\ (forall now g,
        regenerationInProgress g = false ->
        (REGENERATION_COOLDOWN <= now - lastRegenerationTime g)%Z ->
        fst (fst (handle now (mkRequest (Some batch) isRegeneration) g db))
        = Status500 e).
Proof.
  intros Hne Htx.
  assert (Hbatch : batchOf (mkRequest (Some batch) isRegeneration) = Some batch).
  { unfold batchOf. cbn [sprints]. destruct batch; [contradiction|reflexivity]. }
  split.
  - intros now g. unfold handle, enter. rewrite Hbatch. cbn [Sprints.isRegeneration].
    destruct isRegeneration.
    + destruct (regenerationInProgress g); [reflexivity|].
      destruct (now - lastRegenerationTime g <? REGENERATION_COOLDOWN)%Z;
        [reflexivity|].
      unfold settle. rewrite Hbatch. cbn [Sprints.isRegeneration].
      now rewrite Htx.
    + unfold settle. rewrite Hbatch. cbn [Sprints.isRegeneration].
      now rewrite Htx.
  - intros now g Hfree Hcool. unfold handle, enter. rewrite Hbatch.
    cbn [Sprints.isRegeneration]. rewrite Hfree.
    apply Z.ltb_ge in Hcool. rewrite Hcool.
    destruct isRegeneration; unfold settle; rewrite Hbatch;
      cbn [Sprints.isRegeneration]; now rewrite Htx.
Qed.




(** The batch of three complete definitions and one without
    [plannedVelocity], in either mode: the error names "Q3 Sprint 4"
    and the store is unchanged. *)
Lemma threeValidOneMissing_unchanged :
  transaction (applyBatch threeValidOneMissing true) earlierStore
    = (Throw "Missing required fields for sprint: Q3 Sprint 4", earlierStore)
  /\ transaction (applyBatch threeValidOneMissing false) earlierStore
    = (Throw "Missing required fields for sprint: Q3 Sprint 4", earlierStore).
Proof. split; reflexivity. Qed.

(** *** Invariants of the loop over the batch *)

Lemma forEachSprint_invariant (isRegeneration : bool) (I : Store -> Prop) :
  (forall d db pushed db',
      effect isRegeneration d db pushed db' -> I db -> I db') ->
  forall batch updatedSprints db results db',
    forEachSprint isRegeneration batch updatedSprints db = Ok (results, db') ->
    I db -> I db'.
Proof.
  intros Hstep. induction batch as [|d rest IH]; intros acc db results db' Hrun HI.
  - cbn in Hrun. injection Hrun as _ <-. exact HI.
  - cbn [forEachSprint] in Hrun. unfold bindTx in Hrun.
    destruct (processSprint isRegeneration d db) as [[pushed db1]|e] eqn:Hp;
      [|discriminate Hrun].
    apply processSprint_effect_inv in Hp. destruct Hp as [_ Heff].
    eapply IH; [exact Hrun|]. eapply Hstep; eassumption.
Qed.

Lemma nonArchivedNamed_setVelocities (n : string) (pv : Q) (av : option (option Q))
    (r : Db.Sprint) :
  nonArchivedNamed n (setVelocities pv av r) = nonArchivedNamed n r.
Proof. reflexivity. Qed.

Lemma length_filter_map {A : Type} (P : A -> bool) (f : A -> A) (l : list A) :
  (forall x, P (f x) = P x) ->
  List.length (filter P (map f l)) = List.length (filter P l).
Proof.
  intros H. induction l as [|x r IH]; simpl; [reflexivity|].
  rewrite H. destruct (P x); simpl; now rewrite IH.
Qed.

Lemma filter_nothing {A : Type} (P : A -> bool) (l : list A) :
  (forall x, In x l -> P x = false) -> filter P l = [].
Proof.
  induction l as [|x r IH]; simpl; intros H; [reflexivity|].
  rewrite (H x (or_introl eq_refl)). apply IH. auto.
Qed.

(** One iteration adds no second non-archived sprint of a name. *)
Lemma effect_activeNamed (isRegeneration : bool) (d : SprintData)
    (db db' : Store) (pushed : option Db.Sprint) :
  effect isRegeneration d db pushed db' ->
  forall n, (activeNamed n db' <= Nat.max 1 (activeNamed n db))%nat.
Proof.
  intros Heff n'. unfold activeNamed.
  destruct Heff as [existing _ _ | _ | existing pv sprint _ _
                    | n sd ed pv _ _ _ _ Hfree]; cbn [rows]; try lia.
  - rewrite length_filter_map; [lia|].
    intros x. destruct (Db.id x =? Db.id existing)%nat; reflexivity.
  - rewrite filter_app, length_app. cbn [filter].
    destruct (nonArchivedNamed n' _) eqn:E; cbn [List.length]; [|lia].
    unfold nonArchivedNamed in E. cbn in E. rewrite andb_true_r in E.
    apply String.eqb_eq in E. subst n'.
    rewrite (filter_nothing _ _ Hfree). simpl. lia.
Qed.

Lemma forEachSprint_activeNamed (isRegeneration : bool) (batch : list SprintData)
    (updatedSprints results : list Db.Sprint) (db db' : Store) :
  forEachSprint isRegeneration batch updatedSprints db = Ok (results, db') ->
  forall n, (activeNamed n db' <= Nat.max 1 (activeNamed n db))%nat.
Proof.
  intros Hrun.
  apply (forEachSprint_invariant isRegeneration
           (fun cur => forall n,
                (activeNamed n cur <= Nat.max 1 (activeNamed n db))%nat)
           ) with (1 := fun d cur pushed cur' Heff HI n =>
                          Nat.le_trans _ _ _ (effect_activeNamed _ _ _ _ _ Heff n)
                            (Nat.max_lub _ _ _ (Nat.le_max_l _ _) (HI n)))
                  (2 := Hrun).
  intros n. apply Nat.le_max_r.
Qed.

Lemma clearExisting_regeneration (db : Store) :
  clearExisting true db =
  Ok (List.length (active db),
      mkStore (filter Db.archived (rows db)) (nextId db)).
Proof.
  unfold clearExisting, deleteMany, active. do 3 f_equal.
  apply filter_ext. intros r. apply negb_involutive.
Qed.

(** C7.  A batch that completes leaves, for every name, at most one
    non-archived sprint of that name or no more of them than before:
    the invocation introduces no second one.  After a regeneration no
    two non-archived sprints share a name at all.  In regeneration mode
    a definition whose name a non-archived sprint carries creates
    nothing and returns that sprint; in merge mode a definition with
    dates that parse whose name no non-archived sprint carries, while
    some contain it, creates nothing and returns nothing. *)
Theorem applyBatch_no_new_duplicate_names :
  forall (batch : list SprintData) (isRegeneration : bool) (db : Store),
    (forall results db',
        applyBatch batch isRegeneration db = Ok (results, db') ->
        (forall n, (activeNamed n db' <= Nat.max 1 (activeNamed n db))%nat)
        /\ (isRegeneration = true -> forall n, (activeNamed n db' <= 1)%nat))
    /\ (forall d n existing,
          missing d = false -> name d = Some n ->
          List.find (nonArchivedNamed n) (rows db) = Some existing ->
          processSprint true d db = Ok (Some existing, db))
    /\ (forall d n,
          missing d = false -> parses d = true -> name d = Some n ->
          (forall r, In r (rows db) -> nonArchivedNamed n r = false) ->
          (exists r, In r (rows db)
                     /\ JsString.includes (Db.name r) n = true
                     /\ Db.archived r = false) ->
          processSprint false d db = Ok (None, db)).
Proof.
  intros batch isRegeneration db. split; [|split].
  - intros results db' Hrun. unfold applyBatch, bindTx in Hrun.
    destruct isRegeneration.
    + rewrite clearExisting_regeneration in Hrun.
      pose proof (forEachSprint_activeNamed _ _ _ _ _ _ Hrun) as Hle.
      assert (Hzero : forall n,
                 activeNamed n (mkStore (filter Db.archived (rows db)) (nextId db))
                 = 0%nat).
      { intros n. unfold activeNamed. cbn [rows].
        rewrite filter_nothing; [reflexivity|].
        intros x Hx. apply filter_In in Hx. destruct Hx as [_ Hx].
        unfold nonArchivedNamed. rewrite Hx. apply andb_false_r. }
      split.
      * intros n. specialize (Hle n). rewrite Hzero in Hle. lia.
      * intros _ n. specialize (Hle n). rewrite Hzero in Hle. simpl in Hle. lia.
    + cbn in Hrun. split; [|discriminate].
      exact (forEachSprint_activeNamed _ _ _ _ _ _ Hrun).
  - intros d n existing Hd Hn Hfind.
    unfold processSprint. rewrite Hd, Hn.
    unfold bindTx, findFirst, ret. now rewrite Hfind.
  - intros d n Hd Hp Hn Hfree (r & Hr & Hinc & Harch).
    destruct (parses_dates d Hp) as (sd & ed & Esd & Eed).
    unfold processSprint. rewrite Hd, Hn, Esd, Eed.
    unfold bindTx, findFirst, findMany, newDate, ret.
    assert (H1 : List.find (nonArchivedNamed n) (rows db) = None).
    { now apply find_none_iff. }
    rewrite H1. cbn beta iota.
    assert (H2 : List.find (fun r0 => nonArchivedNamed n r0
                                      && (Db.startDate r0 =? sd)%Z
                                      && (Db.endDate r0 =? ed)%Z) (rows db)
                 = None).
    { apply find_none_iff. intros x Hx. now rewrite (Hfree x Hx). }
    rewrite H2. cbn beta iota.
    destruct (filter (fun r0 => JsString.includes (Db.name r0) n
                                && negb (Db.archived r0)) (rows db))
      as [|s0 similar] eqn:Esim.
    + exfalso. assert (Hin : In r []).
      { rewrite <- Esim. apply filter_In. split; [exact Hr|].
        now rewrite Hinc, Harch. }
      destruct Hin.
    + assert (H3 : List.find (fun s1 => String.eqb (Db.name s1) n) (s0 :: similar)
                   = None).
      { apply find_none_iff. intros x Hx. rewrite <- Esim in Hx.
        apply filter_In in Hx. destruct Hx as [Hx Hp'].
        apply andb_true_iff in Hp'. destruct Hp' as [_ Hp'].
        specialize (Hfree x Hx). unfold nonArchivedNamed in Hfree.
        rewrite Hp', andb_true_r in Hfree. exact Hfree. }
      cbn beta iota. rewrite H3. reflexivity.
Qed.

(** The batch of the example, regenerated over the earlier store. *)
Lemma applyBatch_no_new_duplicate_names_witness :
  exists results db',
    applyBatch q3Batch true earlierStore = Ok (results, db')
    /\ (forall n, (activeNamed n db' <= Nat.max 1 (activeNamed n earlierStore))%nat).
Proof.
  do 2 eexists. split; [reflexivity|].
  apply (proj1 (applyBatch_no_new_duplicate_names q3Batch true earlierStore)
               _ _ eq_refl).
Defined.

(** *** Regeneration twice *)

Lemma cons_eq_inv {A : Type} (a b : A) (l l' : list A) :
  a :: l = b :: l' -> a = b /\ l = l'.
Proof. intros [= -> ->]. auto. Qed.

Lemma find_forgetId (P : Db.Sprint -> bool) (l1 l2 : list Db.Sprint) :
  (forall r, P (forgetId r) = P r) ->
  map forgetId l1 = map forgetId l2 ->
  option_map forgetId (List.find P l1) = option_map forgetId (List.find P l2).
Proof.
  intros HP. revert l2. induction l1 as [|x r IH]; intros [|y r2] H;
    try discriminate H; [reflexivity|].
  cbn [map] in H. apply cons_eq_inv in H. destruct H as [Hxy Hr]. cbn [List.find].
  rewrite <- (HP x), <- (HP y), Hxy.
  destruct (P (forgetId y)); [simpl; now rewrite Hxy|]. now apply IH.
Qed.

Lemma processSprint_regeneration_sameRows (d : SprintData) (db1 db2 : Store) :
  sameRows db1 db2 ->
  forall pushed1 db1',
    processSprint true d db1 = Ok (pushed1, db1') ->
    exists pushed2 db2',
      processSprint true d db2 = Ok (pushed2, db2') /\ sameRows db1' db2'.
Proof.
  intros Hsame pushed1 db1'. unfold processSprint.
  destruct (name d) as [n|]; [|discriminate].
  destruct (missing d); [discriminate|].
  unfold bindTx, findFirst, createSprint, newDate, requiredFloat,
    optionalFloat, create, throw, ret.
  cbn beta iota.
  pose proof (find_forgetId (nonArchivedNamed n) (rows db1) (rows db2)
                            (fun r => eq_refl) Hsame) as Hfind.
  destruct (List.find (nonArchivedNamed n) (rows db1)) as [e1|],
           (List.find (nonArchivedNamed n) (rows db2)) as [e2|];
    try discriminate Hfind; cbn beta iota.
  - intros [= <- <-]. do 2 eexists. split; [reflexivity|exact Hsame].
  - destruct (startDate d) as [| |sd]; try discriminate.
    destruct (endDate d) as [| |ed]; try discriminate.
    destruct (plannedVelocity d) as [[pv| |t]|]; try discriminate.
    destruct (actualVelocity d) as [[av| |t]|]; try discriminate;
      intros [= <- <-]; (do 2 eexists; split; [reflexivity|]);
      unfold sameRows in *; cbn [rows]; rewrite !map_app, Hsame; reflexivity.
Qed.

Lemma forEachSprint_regeneration_sameRows (batch : list SprintData) :
  forall acc1 acc2 db1 db2 results1 db1',
    sameRows db1 db2 ->
    forEachSprint true batch acc1 db1 = Ok (results1, db1') ->
    exists results2 db2',
      forEachSprint true batch acc2 db2 = Ok (results2, db2')
      /\ sameRows db1' db2'.
Proof.
  induction batch as [|d rest IH]; intros acc1 acc2 db1 db2 results1 db1' Hsame Hrun.
  - cbn in Hrun. injection Hrun as _ <-. do 2 eexists. split; [reflexivity|exact Hsame].
  - cbn [forEachSprint] in *. unfold bindTx in *.
    destruct (processSprint true d db1) as [[pushed1 mid1]|e] eqn:Hp;
      [|discriminate Hrun].
    destruct (processSprint_regeneration_sameRows d db1 db2 Hsame _ _ Hp)
      as (pushed2 & mid2 & Hp2 & Hmid).
    rewrite Hp2. eapply IH; eassumption.
Qed.

Lemma activeVelocities_sameRows (db1 db2 : Store) :
  sameRows db1 db2 -> activeVelocities db1 = activeVelocities db2.
Proof.
  unfold sameRows, activeVelocities, active.
  generalize (rows db1) (rows db2).
  induction l as [|x r IH]; intros [|y r2] H; try discriminate H; [reflexivity|].
  cbn [map] in H. apply cons_eq_inv in H. destruct H as [Hxy Hr]. cbn [filter].
  assert (Ha : Db.archived x = Db.archived y).
  { change (Db.archived (forgetId x) = Db.archived (forgetId y)). now rewrite Hxy. }
  rewrite Ha. destruct (Db.archived y); cbn [negb map]; [now apply IH|].
  f_equal; [|now apply IH].
  change ((Db.name (forgetId x), Db.plannedVelocity (forgetId x),
           Db.actualVelocity (forgetId x))
          = (Db.name (forgetId y), Db.plannedVelocity (forgetId y),
             Db.actualVelocity (forgetId y))).
  now rewrite Hxy.
Qed.

(** A regeneration iteration keeps the non-archived names distinct and
    only appends non-archived rows. *)
Lemma effect_regeneration (d : SprintData) (db db' : Store)
    (pushed : option Db.Sprint) :
  effect true d db pushed db' ->
  (NoDup (activeNames db) -> NoDup (activeNames db'))
  /\ exists created, rows db' = rows db ++ created
                     /\ Forall (fun r => Db.archived r = false) created.
Proof.
  intros Heff.
  destruct Heff as [existing _ _ | Hm | existing pv sprint Hm _
                    | n sd ed pv _ _ _ _ Hfree]; try discriminate Hm.
  - split; [auto|]. exists []. now rewrite app_nil_r.
  - split.
    + unfold activeNames, active. cbn [rows]. rewrite filter_app, map_app.
      cbn. intros Hnd. apply NoDup_app; [exact Hnd|repeat constructor; intros []|].
      intros x Hx [<-|[]]. apply in_map_iff in Hx.
      destruct Hx as (r & Hname & Hr). apply filter_In in Hr.
      destruct Hr as [Hr Harch]. specialize (Hfree r Hr).
      unfold nonArchivedNamed in Hfree.
      rewrite Hname, String.eqb_refl, Harch in Hfree. discriminate Hfree.
    + eexists. split; [reflexivity|]. now repeat constructor.
Qed.

Lemma forEachSprint_regeneration (batch : list SprintData) :
  forall acc db results db',
    forEachSprint true batch acc db = Ok (results, db') ->
    (NoDup (activeNames db) -> NoDup (activeNames db'))
    /\ exists created, rows db' = rows db ++ created
                       /\ Forall (fun r => Db.archived r = false) created.
Proof.
  intros acc db results db' Hrun. split.
  - intros Hnd.
    apply (forEachSprint_invariant true (fun cur => NoDup (activeNames cur)))
      with (2 := Hrun); [|exact Hnd].
    intros d cur pushed cur' Heff. apply (effect_regeneration _ _ _ _ Heff).
  - apply (forEachSprint_invariant true
             (fun cur => exists created,
                  rows cur = rows db ++ created
                  /\ Forall (fun r => Db.archived r = false) created))
      with (2 := Hrun).
    + intros d cur pushed cur' Heff (c1 & Hc1 & Hf1).
      destruct (effect_regeneration _ _ _ _ Heff) as (_ & c2 & Hc2 & Hf2).
      exists (c1 ++ c2). split.
      * now rewrite Hc2, Hc1, app_assoc.
      * apply Forall_app. now split.
    + exists []. now rewrite app_nil_r.
Qed.

Lemma filter_archived_app (kept created : list Db.Sprint) :
  Forall (fun r => Db.archived r = false) created ->
  filter Db.archived (filter Db.archived kept ++ created)
  = filter Db.archived kept.
Proof.
  intros Hc. rewrite filter_app.
  rewrite (filter_nothing Db.archived created).
  - rewrite app_nil_r. induction kept as [|x r IH]; simpl; [reflexivity|].
    destruct (Db.archived x) eqn:E; simpl; [rewrite E; now f_equal|exact IH].
  - now apply Forall_forall.
Qed.

(** A regeneration that is answered with the created sprints ran its
    transaction to the end, from a free guard. *)
Lemma handle_regeneration_Json (batch : list SprintData) (now : Z) (g : Guard)
    (db : Store) (results : list Db.Sprint) (g' : Guard) (db' : Store) :
  handle now (mkRequest (Some batch) true) g db = (Json results, g', db') ->
  applyBatch batch true db = Ok (results, db')
  /\ g' = mkGuard false now
  /\ batchOf (mkRequest (Some batch) true) = Some batch.
Proof.
  unfold handle, enter, settle. cbn [isRegeneration].
  destruct (regenerationInProgress g); [discriminate|].
  destruct (now - lastRegenerationTime g <? REGENERATION_COOLDOWN)%Z;
    [discriminate|].
  assert (Hb : batchOf (mkRequest (Some batch) true)
               = match batch with [] => None | _ => Some batch end).
  { unfold batchOf. cbn [sprints]. now destruct batch. }
  rewrite Hb. destruct batch as [|d0 rest]; [discriminate|].
  unfold transaction.
  destruct (applyBatch (d0 :: rest) true db) as [[res db1]|e]; [|discriminate].
  intros [= <- <- <-]. auto.
Qed.

(** On the route with the cooldown, a regeneration that succeeds,
    followed after the cooldown by a regeneration with the same batch,
    succeeds again and leaves the same non-archived sprint names and
    velocities as the first one did; after each of the two calls the
    names of the non-archived sprints are pairwise distinct. *)
Lemma handle_regeneration_twice :
  forall (batch : list SprintData) (now1 now2 : Z) (g : Guard) (db : Store)
         (results1 : list Db.Sprint) (g1 : Guard) (db1 : Store),
    handle now1 (mkRequest (Some batch) true) g db = (Json results1, g1, db1) ->
    (REGENERATION_COOLDOWN <= now2 - now1)%Z ->
    exists results2 g2 db2,
      handle now2 (mkRequest (Some batch) true) g1 db1 = (Json results2, g2, db2)
      /\ activeVelocities db2 = activeVelocities db1
      /\ NoDup (activeNames db1)
      /\ NoDup (activeNames db2).
Proof.
  intros batch now1 now2 g db results1 g1 db1 Hfirst Hcool.
  apply handle_regeneration_Json in Hfirst.
  destruct Hfirst as (Hrun1 & -> & Hbatch).
  unfold applyBatch, bindTx in Hrun1.
  rewrite clearExisting_regeneration in Hrun1.
  destruct (forEachSprint_regeneration _ _ _ _ _ Hrun1)
    as (Hnd1 & created & Hrows1 & Hcreated).
  cbn [rows] in Hrows1.
  assert (Hempty : forall kept nid,
             activeNames (mkStore (filter Db.archived kept) nid) = []).
  { intros kept nid. unfold activeNames, active. cbn [rows].
    rewrite filter_nothing; [reflexivity|].
    intros x Hx. apply filter_In in Hx. destruct Hx as [_ ->]. reflexivity. }
  (* the second transaction starts from the same archived rows *)
  assert (Hclear2 : clearExisting true db1 =
                    Ok (List.length (active db1),
                        mkStore (filter Db.archived (rows db)) (nextId db1))).
  { rewrite clearExisting_regeneration, Hrows1.
    now rewrite filter_archived_app. }
  destruct (forEachSprint_regeneration_sameRows batch [] []
              (mkStore (filter Db.archived (rows db)) (nextId db))
              (mkStore (filter Db.archived (rows db)) (nextId db1))
              results1 db1 eq_refl Hrun1)
    as (results2 & db2 & Hrun2 & Hsame).
  exists results2, (mkGuard false now2), db2.
  split; [|split; [|split]].
  - unfold handle, enter, settle. cbn [isRegeneration regenerationInProgress
                                       lastRegenerationTime].
    apply Z.ltb_ge in Hcool. rewrite Hcool, Hbatch.
    unfold transaction, applyBatch, bindTx. cbn [isRegeneration].
    now rewrite Hclear2, Hrun2.
  - symmetry. now apply activeVelocities_sameRows.
  - apply Hnd1. rewrite Hempty. constructor.
  - destruct (forEachSprint_regeneration _ _ _ _ _ Hrun2) as (Hnd2 & _).
    apply Hnd2. rewrite Hempty. constructor.
Qed.

End SprintsProperties.

(** *** The regeneration step of the two variants of the route *)

Section RegenerationStep.
Import Prisma.

Lemma getTime_some (s : DateString) (t : Z) :
  getTime s = Some t -> s = DateAt t.
Proof. destruct s; cbn; congruence. Qed.

Lemma times_spec (f : SprintData -> option Z) (batch : list SprintData) :
  forall ts, SprintsLockOnly.times f batch = Some ts ->
    (forall d, In d batch -> exists t, f d = Some t /\ In t ts)
    /\ (forall t, In t ts -> exists d, In d batch /\ f d = Some t)
    /\ (batch = [] <-> ts = []).
Proof.
  induction batch as [|d rest IH]; intros ts H; cbn in H.
  - injection H as <-. repeat split; auto; intros ? [].
  - destruct (f d) as [t|] eqn:Ef; [|discriminate H].
    destruct (SprintsLockOnly.times f rest) as [ts'|]; [|discriminate H].
    injection H as <-. destruct (IH ts' eq_refl) as (H1 & H2 & _).
    repeat split; try discriminate.
    + intros d' [<-|Hd'].
      * exists t. split; [exact Ef|now left].
      * destruct (H1 d' Hd') as (t' & ? & ?). exists t'. split; [auto|now right].
    + intros t' [<-|Ht'].
      * exists d. split; [now left|exact Ef].
      * destruct (H2 t' Ht') as (d' & ? & ?). exists d'. split; [now right|auto].
Qed.

Lemma fold_min_spec (s : Z) (ss : list Z) :
  (forall t, In t (s :: ss) -> (fold_right Z.min s ss <= t)%Z)
  /\ In (fold_right Z.min s ss) (s :: ss).
Proof.
  induction ss as [|a r [IH1 IH2]]; cbn [fold_right].
  - split; [intros t [<-|[]]; lia|now left].
  - split.
    + intros t [<-|[<-|Ht]].
      * specialize (IH1 s (or_introl eq_refl)). lia.
      * lia.
      * specialize (IH1 t (or_intror Ht)). lia.
    + destruct (Z.min_spec a (fold_right Z.min s r)) as [[_ ->]|[_ ->]].
      * right. now left.
      * destruct IH2 as [<-|H]; [now left|right; now right].
Qed.

Lemma fold_max_spec (e : Z) (es : list Z) :
  (forall t, In t (e :: es) -> (t <= fold_right Z.max e es)%Z)
  /\ In (fold_right Z.max e es) (e :: es).
Proof.
  induction es as [|a r [IH1 IH2]]; cbn [fold_right].
  - split; [intros t [<-|[]]; lia|now left].
  - split.
    + intros t [<-|[<-|Ht]].
      * specialize (IH1 e (or_introl eq_refl)). lia.
      * lia.
      * specialize (IH1 t (or_intror Ht)). lia.
    + destruct (Z.max_spec a (fold_right Z.max e r)) as [[_ ->]|[_ ->]].
      * destruct IH2 as [<-|H]; [now left|right; now right].
      * right. now left.
Qed.

Lemma nameIn_iff (batch : list SprintData) (r : Db.Sprint) :
  SprintsLockOnly.nameIn (map name batch) r = true
  <-> In (Some (Db.name r)) (map name batch).
Proof.
  unfold SprintsLockOnly.nameIn. rewrite existsb_exists. split.
  - intros ([n|] & Hin & E); [|discriminate E].
    apply String.eqb_eq in E. now subst.
  - intros H. exists (Some (Db.name r)). split; [exact H|apply String.eqb_refl].
Qed.

Lemma conflicting_iff (batch : list SprintData) (lo hi : Z) (r : Db.Sprint) :
  SprintsLockOnly.conflicting (map name batch) (lo, hi) r = true
  <-> Db.archived r = false
      /\ (In (Some (Db.name r)) (map name batch)
          \/ ((Db.startDate r <= hi)%Z /\ (lo <= Db.endDate r)%Z)).
Proof.
  unfold SprintsLockOnly.conflicting. cbn [fst snd].
  rewrite andb_true_iff, orb_true_iff, andb_true_iff, negb_true_iff,
          nameIn_iff, !Z.leb_le.
  tauto.
Qed.

(** C1 (counterexample).  The route with the cooldown guard
    regenerates the Q3 sprints over a store that holds the non-archived
    sprint "Q1 Sprint 1": that sprint has none of the batch's names and
    ends before the batch's window starts, and the regeneration step
    deletes it. *)
Lemma clearExisting_deletes_outside_window :
  let q1 := Db.mkSprint 0 "Q1 Sprint 1" 0 99 18 (Some 17%Q) false in
  In q1 (rows Sprints.earlierStore)
  /\ Db.archived q1 = false
  /\ ~ In (Some (Db.name q1)) (map name Sprints.q3Batch)
  /\ SprintsLockOnly.sprintDateRange Sprints.q3Batch = Some (1000, 2999)%Z
  /\ (Db.endDate q1 < 1000)%Z
  /\ Sprints.clearExisting true Sprints.earlierStore = Ok (1%nat, mkStore [] 1)
  /\ ~ In q1 (rows (snd (Sprints.handle 10000
                            (Sprints.mkRequest (Some Sprints.q3Batch) true)
                            (Sprints.mkGuard false 0) Sprints.earlierStore))).
Proof.
  cbv zeta. repeat split; try reflexivity.
  - now left.
  - intros [H|[H|[]]]; discriminate H.
  - vm_compute. intros [H|[H|[]]]; discriminate H.
Qed.

(** C1 (amended).  In regeneration mode the batch operation first
    deletes non-archived sprints and never archived ones.  The route
    with the cooldown guard deletes every non-archived sprint, whatever
    its name and dates.  The lock-only route deletes exactly the
    non-archived sprints whose name is in the batch or whose
    [startDate, endDate] overlaps the window [lo, hi] of the batch,
    where [lo] is the least start date and [hi] the greatest end date
    of the batch. *)
Theorem regeneration_step_deletes :
  (forall db : Store,
      exists k db',
        Sprints.clearExisting true db = Ok (k, db')
        /\ forall r, In r (rows db') <-> In r (rows db) /\ Db.archived r = true)
  /\ (forall (batch : list SprintData) (lo hi : Z) (db : Store),
        SprintsLockOnly.sprintDateRange batch = Some (lo, hi) ->
        (forall d, In d batch ->
                   exists s e, startDate d = DateAt s /\ endDate d = DateAt e
                               /\ (lo <= s)%Z /\ (e <= hi)%Z)
        /\ (exists d, In d batch /\ startDate d = DateAt lo)
        /\ (exists d, In d batch /\ endDate d = DateAt hi)
        /\ exists k db',
            SprintsLockOnly.clearExisting true batch db = Ok (k, db')
            /\ forall r,
                In r (rows db') <->
                In r (rows db)
                /\ ~ (Db.archived r = false
                      /\ (In (Some (Db.name r)) (map name batch)
                          \/ ((Db.startDate r <= hi)%Z
                              /\ (lo <= Db.endDate r)%Z)))).
Proof.
  split.
  - intros db. rewrite clearExisting_regeneration. do 2 eexists.
    split; [reflexivity|]. intros r. cbn [rows]. apply filter_In.
  - intros batch lo hi db Hrange.
    unfold SprintsLockOnly.sprintDateRange in Hrange.
    destruct (SprintsLockOnly.times (fun s => getTime (startDate s)) batch)
      as [[|s ss]|] eqn:Es; try discriminate Hrange.
    destruct (SprintsLockOnly.times (fun s => getTime (endDate s)) batch)
      as [[|e es]|] eqn:Ee; try discriminate Hrange.
    injection Hrange as <- <-.
    destruct (times_spec _ _ _ Es) as (Hs1 & Hs2 & Hs3).
    destruct (times_spec _ _ _ Ee) as (He1 & He2 & _).
    destruct (fold_min_spec s ss) as [Hmin Hminin].
    destruct (fold_max_spec e es) as [Hmax Hmaxin].
    split; [|split; [|split]].
    + intros d Hd. destruct (Hs1 d Hd) as (t & Ht & Htin).
      destruct (He1 d Hd) as (u & Hu & Huin). exists t, u.
      apply getTime_some in Ht, Hu. auto.
    + destruct (Hs2 _ Hminin) as (d & ? & Ht). apply getTime_some in Ht. eauto.
    + destruct (He2 _ Hmaxin) as (d & ? & Ht). apply getTime_some in Ht. eauto.
    + unfold SprintsLockOnly.clearExisting.
      destruct batch as [|d0 rest]; [cbn in Es; discriminate Es|].
      unfold SprintsLockOnly.sprintDateRange. rewrite Es, Ee.
      unfold deleteMany. do 2 eexists. split; [reflexivity|].
      intros r. cbn [rows]. rewrite filter_In.
      rewrite negb_true_iff, <- not_true_iff_false, conflicting_iff.
      reflexivity.
Qed.

(** The lock-only step on the example keeps the earlier sprint. *)
Lemma regeneration_step_deletes_witness :
  exists k db',
    SprintsLockOnly.clearExisting true Sprints.q3Batch Sprints.earlierStore = Ok (k, db')
    /\ In (Db.mkSprint 0 "Q1 Sprint 1" 0 99 18 (Some 17%Q) false) (rows db').
Proof.
  destruct (proj2 regeneration_step_deletes Sprints.q3Batch 1000%Z 2999%Z
                  Sprints.earlierStore eq_refl)
    as (_ & _ & _ & k & db' & Hrun & Hrows).
  exists k, db'. split; [exact Hrun|].
  apply Hrows. split; [now left|].
  intros [_ [[H|[H|[]]]|[_ H]]]; [discriminate H|discriminate H|].
  cbn [Db.endDate] in H. lia.
Defined.

End RegenerationStep.

(** *** The regeneration guard *)

Section GuardProperties.
Import Prisma Sprints.

Lemma enter_regeneration (now : Z) (req : Request) (g : Guard) :
  isRegeneration req = true ->
  enter now req g =
  if regenerationInProgress g then (g, Some Status409)
  else if (now - lastRegenerationTime g <? REGENERATION_COOLDOWN)%Z
       then (g, Some Status429)
       else match batchOf req with
            | None => (mkGuard false now, Some Status400)
            | Some _ => (mkGuard true now, None)
            end.
Proof.
  intros Hreg. unfold enter, lock, release. rewrite Hreg.
  destruct (regenerationInProgress g); [reflexivity|].
  destruct (now - lastRegenerationTime g <? REGENERATION_COOLDOWN)%Z;
    [reflexivity|].
  now destruct (batchOf req).
Qed.

Lemma enter_merge (now : Z) (req : Request) (g : Guard) :
  isRegeneration req = false ->
  enter now req g =
  (g, match batchOf req with None => Some Status400 | Some _ => None end).
Proof.
  intros Hreg. unfold enter, lock, release. rewrite Hreg.
  now destruct (batchOf req).
Qed.

Lemma settle_guard (req : Request) (g : Guard) (db : Store) :
  snd (fst (settle req g db)) = release req g.
Proof.
  unfold settle. destruct (batchOf req); [|reflexivity].
  destruct (transaction _ db) as [outcome db']. reflexivity.
Qed.

Lemma regenerating_app (s : Server) (l : list Request) :
  List.length (filter isRegeneration (suspended s ++ l))
  = (regenerating s + List.length (filter isRegeneration l))%nat.
Proof. unfold regenerating. now rewrite filter_app, length_app. Qed.

Lemma step_guarded (s s' : Server) (e : Event) :
  step s e s' -> guarded s -> guarded s'.
Proof.
  intros Hstep [Hflag Hle]. unfold guarded, regenerating in *.
  destruct Hstep as [now req s g' r Henter | now req s g' Henter
                     | req s before after r g' db' Hsusp Hsettle];
    cbn [guard suspended].
  - (* answered at once: the flag and the suspended handlers stay *)
    destruct (isRegeneration req) eqn:Hreg.
    + rewrite enter_regeneration in Henter by exact Hreg.
      destruct (regenerationInProgress (guard s)) eqn:Hf.
      * injection Henter as <- _. now rewrite Hf.
      * destruct (now - lastRegenerationTime (guard s) <? REGENERATION_COOLDOWN)%Z.
        -- injection Henter as <- _. now rewrite Hf.
        -- destruct (batchOf req); [discriminate Henter|].
           injection Henter as <- _. cbn [regenerationInProgress].
           split; [congruence|exact Hle].
    + rewrite enter_merge in Henter by exact Hreg.
      injection Henter as <- _. split; assumption.
  - (* suspended at the transaction *)
    rewrite filter_app, length_app. cbn [filter].
    destruct (isRegeneration req) eqn:Hreg.
    + rewrite enter_regeneration in Henter by exact Hreg.
      destruct (regenerationInProgress (guard s)) eqn:Hf; [discriminate Henter|].
      destruct (now - lastRegenerationTime (guard s) <? REGENERATION_COOLDOWN)%Z;
        [discriminate Henter|].
      destruct (batchOf req); [|discriminate Henter].
      injection Henter as <-. cbn [regenerationInProgress List.length].
      symmetry in Hflag. apply Nat.eqb_neq in Hflag.
      assert (Hz : List.length (filter isRegeneration (suspended s)) = 0%nat)
        by lia.
      rewrite Hz. auto.
    + rewrite enter_merge in Henter by exact Hreg.
      destruct (batchOf req); [|discriminate Henter].
      injection Henter as <-. cbn [List.length]. rewrite Nat.add_0_r. auto.
  - (* a suspended handler runs to its end *)
    pose proof (settle_guard req (guard s) (store s)) as Hg.
    rewrite Hsettle in Hg. cbn in Hg. subst g'.
    rewrite Hsusp, filter_app, length_app in Hflag, Hle. cbn [filter] in Hflag, Hle.
    rewrite filter_app, length_app. unfold release.
    destruct (isRegeneration req) eqn:Hreg; cbn [List.length] in *.
    + cbn [regenerationInProgress].
      assert (Hz : (List.length (filter isRegeneration before)
                    + List.length (filter isRegeneration after) = 0)%nat) by lia.
      rewrite Hz. auto.
    + auto.
Qed.

Lemma run_guarded (s s' : Server) (es : list Event) :
  run s es s' -> guarded s -> guarded s'.
Proof.
  induction 1 as [|s e s1 es s2 Hstep _ IH]; [auto|].
  intros Hg. apply IH. eapply step_guarded; eassumption.
Qed.

Lemma boot_guarded (db : Store) : guarded (boot db).
Proof. split; cbn; auto. Qed.

(** A batch of complete definitions that the store client takes runs
    to the end. *)
Lemma applyBatch_complete (batch : list SprintData) (isRegeneration : bool)
    (db : Store) :
  Forall (fun d => missing d = false /\ wellTyped d = true) batch ->
  exists results db', applyBatch batch isRegeneration db = Ok (results, db').
Proof.
  intros Hvalid. unfold applyBatch, bindTx.
  assert (Hloop : forall acc cur, exists results db',
               forEachSprint isRegeneration batch acc cur = Ok (results, db')).
  { induction Hvalid as [|d rest [Hd Hp] _ IH]; intros acc cur.
    - do 2 eexists. reflexivity.
    - cbn [forEachSprint]. unfold bindTx.
      destruct (processSprint_effect isRegeneration d cur Hd Hp)
        as (pushed & mid & -> & _).
      apply IH. }
  destruct isRegeneration.
  - rewrite clearExisting_regeneration. apply Hloop.
  - cbn. apply Hloop.
Qed.

Lemma step_arrived_inv (now : Z) (req : Request) (answer : option Response)
    (s s' : Server) :
  step s (Arrived now req answer) s' ->
  enter now req (guard s) = (guard s', answer)
  /\ store s' = store s
  /\ suspended s' = suspended s ++ match answer with
                                   | None => [req]
                                   | Some _ => []
                                   end.
Proof.
  intros H. inversion H; subst; cbn [guard store suspended].
  - rewrite app_nil_r. auto.
  - auto.
Qed.

Lemma step_settled_inv (req : Request) (resp : Response) (s s' : Server) :
  step s (Settled req resp) s' ->
  In req (suspended s)
  /\ settle req (guard s) (store s) = (resp, guard s', store s').
Proof.
  intros H. inversion H; subst; cbn [guard store suspended].
  split; [|assumption].
  match goal with E : suspended s = _ |- _ => rewrite E end.
  apply in_or_app. right. now left.
Qed.

Lemma server_eq (s s' : Server) :
  guard s' = guard s -> store s' = store s -> suspended s' = suspended s ->
  s' = s.
Proof. destruct s, s'. cbn. now intros -> -> ->. Qed.

Lemma guarded_idle (s : Server) :
  guarded s -> regenerating s = 0%nat ->
  regenerationInProgress (guard s) = false.
Proof. intros [Hflag _] Hz. now rewrite Hflag, Hz. Qed.

Lemma guarded_busy (s : Server) :
  guarded s -> regenerating s = 1%nat ->
  regenerationInProgress (guard s) = true.
Proof. intros [Hflag _] Hz. now rewrite Hflag, Hz. Qed.

(** C5.  In every state the process reaches, whatever the
    interleaving of arrivals and completions: at most one regeneration
    is in flight; a regeneration request that arrives while one is in
    flight is answered 409 at once and nothing is queued; one that
    arrives within the cooldown after the last admitted regeneration
    started is answered 429 at once and nothing is queued.  So of two
    regenerations that arrive one after the other before the first
    completes, the first is admitted (and answered with its sprints
    when its batch is complete and the store client takes its dates
    and velocities) and the second is rejected; a third
    that arrives after the first completed is rejected as long as less
    than the cooldown has passed since the first started, and admitted
    afterwards. *)
Theorem regeneration_guard :
  forall (db : Store) (events : list Event) (s : Server),
    run (boot db) events s ->
    (regenerating s <= 1)%nat
    /\ (forall now req answer s',
          isRegeneration req = true -> regenerating s = 1%nat ->
          step s (Arrived now req answer) s' ->
          answer = Some Status409 /\ s' = s)
    /\ (forall now req answer s',
          isRegeneration req = true -> regenerating s = 0%nat ->
          (now - lastRegenerationTime (guard s) < REGENERATION_COOLDOWN)%Z ->
          step s (Arrived now req answer) s' ->
          answer = Some Status429 /\ s' = s)
    /\ (forall t1 t2 t3 r1 r2 r3 a1 a2 a3 resp s1 s2 s3 s4,
          isRegeneration r1 = true -> isRegeneration r2 = true ->
          isRegeneration r3 = true ->
          batchOf r1 <> None ->
          regenerating s = 0%nat ->
          (REGENERATION_COOLDOWN <= t1 - lastRegenerationTime (guard s))%Z ->
          step s (Arrived t1 r1 a1) s1 ->
          step s1 (Arrived t2 r2 a2) s2 ->
          step s2 (Settled r1 resp) s3 ->
          step s3 (Arrived t3 r3 a3) s4 ->
          a1 = None
          /\ a2 = Some Status409
          /\ (forall b, batchOf r1 = Some b ->
                        Forall (fun d => missing d = false /\ wellTyped d = true) b ->
                        exists results, resp = Json results)
          /\ ((t3 - t1 < REGENERATION_COOLDOWN)%Z -> a3 = Some Status429)
          /\ ((REGENERATION_COOLDOWN <= t3 - t1)%Z -> batchOf r3 <> None ->
              a3 = None)).
Proof.
  intros db events s Hrun.
  assert (Hg : guarded s).
  { eapply run_guarded; [exact Hrun|apply boot_guarded]. }
  split; [exact (proj2 Hg)|]. split; [|split].
  - intros now req answer s' Hreg Hbusy Hstep.
    apply step_arrived_inv in Hstep. destruct Hstep as (Henter & Hstore & Hsusp).
    rewrite enter_regeneration in Henter by exact Hreg.
    rewrite (guarded_busy s Hg Hbusy) in Henter.
    injection Henter as Hguard <-. split; [reflexivity|].
    apply server_eq; auto. now rewrite Hsusp, app_nil_r.
  - intros now req answer s' Hreg Hidle Hcool Hstep.
    apply step_arrived_inv in Hstep. destruct Hstep as (Henter & Hstore & Hsusp).
    rewrite enter_regeneration in Henter by exact Hreg.
    rewrite (guarded_idle s Hg Hidle) in Henter.
    apply Z.ltb_lt in Hcool. rewrite Hcool in Henter.
    injection Henter as Hguard <-. split; [reflexivity|].
    apply server_eq; auto. now rewrite Hsusp, app_nil_r.
  - intros t1 t2 t3 r1 r2 r3 a1 a2 a3 resp s1 s2 s3 s4
           Hr1 Hr2 Hr3 Hb1 Hidle Hcool H1 H2 H3 H4.
    apply step_arrived_inv in H1. destruct H1 as (He1 & _ & _).
    rewrite enter_regeneration in He1 by exact Hr1.
    rewrite (guarded_idle s Hg Hidle) in He1.
    apply Z.ltb_ge in Hcool. rewrite Hcool in He1.
    destruct (batchOf r1) as [b1|] eqn:Eb1; [|contradiction].
    injection He1 as Hg1 <-.
    apply step_arrived_inv in H2. destruct H2 as (He2 & Hst2 & _).
    rewrite enter_regeneration in He2 by exact Hr2.
    rewrite <- Hg1 in He2. cbn [regenerationInProgress] in He2.
    injection He2 as Hg2 <-.
    apply step_settled_inv in H3. destruct H3 as (_ & Hsettle).
    pose proof (settle_guard r1 (guard s2) (store s2)) as Hg3.
    rewrite Hsettle in Hg3. cbn [fst snd] in Hg3.
    rewrite <- Hg2 in Hg3. unfold release in Hg3. rewrite Hr1 in Hg3.
    cbn [lastRegenerationTime] in Hg3.
    apply step_arrived_inv in H4. destruct H4 as (He4 & _ & _).
    rewrite enter_regeneration in He4 by exact Hr3.
    rewrite Hg3 in He4. cbn [regenerationInProgress lastRegenerationTime] in He4.
    split; [reflexivity|]. split; [reflexivity|]. split; [|split].
    + intros b [= <-] Hvalid. unfold settle in Hsettle. rewrite Eb1, Hr1 in Hsettle.
      destruct (applyBatch_complete b1 true (store s2) Hvalid)
        as (results & db' & Hok).
      unfold transaction in Hsettle. rewrite Hok in Hsettle.
      injection Hsettle as <- _ _. eauto.
    + intros Hlt. apply Z.ltb_lt in Hlt. rewrite Hlt in He4. congruence.
    + intros Hge Hb3. apply Z.ltb_ge in Hge. rewrite Hge in He4.
      destruct (batchOf r3); [congruence|contradiction].
Qed.

(** After the example regeneration was admitted at 10 s, one
    regeneration is in flight. *)
Lemma regeneration_guard_witness :
  (regenerating
     (mkServer (mkGuard true 10000) earlierStore
               [mkRequest (Some q3Batch) true]) <= 1)%nat.
Proof.
  apply (proj1 (regeneration_guard earlierStore
                  [Arrived 10000 (mkRequest (Some q3Batch) true) None]
                  _
                  (run_cons _ _ _ _ _
                     (step_suspend 10000 (mkRequest (Some q3Batch) true)
                                   (boot earlierStore) (mkGuard true 10000)
                                   eq_refl)
                     (run_nil _)))).
Defined.

End GuardProperties.

(** *** The batch loop, row by row *)

Section BatchEffectsProperties.
Import Prisma Sprints BatchEffects.

Lemma processSprint_change_complete (isRegeneration : bool) (d : SprintData)
    (db : Store) :
  missing d = false ->
  (exists pushed db',
      processSprint isRegeneration d db = Ok (pushed, db')
      /\ change isRegeneration d db pushed db')
  \/ processSprint isRegeneration d db = Throw validationError.
Proof.
  intros Hvalid.
  destruct (missing_false d Hvalid) as (n & En & _).
  unfold processSprint. rewrite Hvalid, En.
  assert (Hupdate : forall existing,
             In existing (rows db) -> nonArchivedNamed n existing = true ->
             (exists pushed db',
                 (sprint <- updateSprint (Db.id existing) (plannedVelocity d)
                                         (actualVelocity d) ;;
                  ret (Some sprint))%tx db = Ok (pushed, db')
                 /\ change false d db pushed db')
             \/ (sprint <- updateSprint (Db.id existing) (plannedVelocity d)
                                        (actualVelocity d) ;;
                 ret (Some sprint))%tx db = Throw validationError).
  { intros existing Hin Hnamed. unfold bindTx.
    destruct (updateSprint_cases (Db.id existing) d db)
      as [(pv & Epv & ->)|[_ ->]]; [left|now right].
    unfold update.
    destruct (List.find (fun r => (Db.id r =? Db.id existing)%nat) (rows db))
      as [first|] eqn:Efirst.
    - do 2 eexists. split; [reflexivity|].
      now apply (change_update false d db n pv existing first).
    - apply find_none with (x := existing) in Efirst; [|exact Hin].
      rewrite Nat.eqb_refl in Efirst. discriminate. }
  assert (Hcreate : (forall r, In r (rows db) -> nonArchivedNamed n r = false) ->
             (exists pushed db',
                 (sprint <- createSprint n (startDate d) (endDate d)
                                         (plannedVelocity d) (actualVelocity d) ;;
                  ret (Some sprint))%tx db = Ok (pushed, db')
                 /\ change isRegeneration d db pushed db')
             \/ (sprint <- createSprint n (startDate d) (endDate d)
                                        (plannedVelocity d) (actualVelocity d) ;;
                 ret (Some sprint))%tx db = Throw validationError).
  { intros Hnone. unfold bindTx.
    destruct (createSprint_cases n d db)
      as [(sd & ed & pv & _ & Esd & Eed & Epv & ->)|[_ ->]]; [left|now right].
    do 2 eexists. split; [reflexivity|].
    now apply (change_create _ _ _ n sd ed pv). }
  destruct (List.find (nonArchivedNamed n) (rows db)) as [e|] eqn:Ename.
  - pose proof (find_In _ _ _ Ename) as [He Hnamed].
    destruct isRegeneration; tx_step; rewrite Ename; cbn beta iota.
    + left. do 2 eexists. split; [reflexivity|]. now apply (change_reuse _ _ _ n).
    + repeat tx_step. exact (Hupdate e He Hnamed).
  - assert (Hnone : forall r, In r (rows db) -> nonArchivedNamed n r = false).
    { now apply find_none. }
    destruct isRegeneration; tx_step; rewrite Ename; cbn beta iota.
    + exact (Hcreate Hnone).
    + destruct (newDate_cases d) as [(sd & ed & Esd & Eed)|[_ Hthrow]].
      2:{ right. unfold bindTx at 1. now rewrite Hthrow. }
      revert Hupdate Hcreate. rewrite Esd, Eed. intros Hupdate Hcreate.
      repeat tx_step.
      match goal with
      | |- context [List.find ?P (rows db)] =>
          destruct (List.find P (rows db)) as [e|] eqn:Edates
      end; cbn beta iota.
      * apply find_In in Edates. destruct Edates as [He Hnamed].
        apply andb_true_iff in Hnamed. destruct Hnamed as [Hnamed _].
        apply andb_true_iff in Hnamed. destruct Hnamed as [Hnamed _].
        rewrite (Hnone e He) in Hnamed. discriminate Hnamed.
      * repeat tx_step.
        match goal with
        | |- context [filter ?P (rows db)] =>
            destruct (filter P (rows db)) as [|s0 similar] eqn:Esim
        end; cbn beta iota.
        -- repeat tx_step. exact (Hcreate Hnone).
        -- match goal with
           | |- context [List.find ?P (s0 :: similar)] =>
               destruct (List.find P (s0 :: similar)) as [exact|] eqn:Eexact
           end; cbn beta iota.
           ++ apply find_In in Eexact. destruct Eexact as [He Hname].
              rewrite <- Esim in He. apply filter_In in He.
              destruct He as [He Hp]. apply andb_true_iff in Hp.
              destruct Hp as [_ Harch].
              specialize (Hnone exact He). unfold nonArchivedNamed in Hnone.
              rewrite Hname, Harch in Hnone. discriminate Hnone.
           ++ repeat tx_step. left. do 2 eexists. split; [reflexivity|].
              now apply (change_skip _ _ _ n).
Qed.

Lemma processSprint_change (isRegeneration : bool) (d : SprintData)
    (db db' : Store) (pushed : option Db.Sprint) :
  processSprint isRegeneration d db = Ok (pushed, db') ->
  missing d = false /\ change isRegeneration d db pushed db'.
Proof.
  intros Hrun. destruct (missing d) eqn:Hd.
  - rewrite processSprint_missing in Hrun by exact Hd. discriminate Hrun.
  - destruct (processSprint_change_complete isRegeneration d db Hd)
      as [(o & db1 & Hp & Hc)|Hp]; rewrite Hp in Hrun; [|discriminate Hrun].
    injection Hrun as <- <-. auto.
Qed.

Lemma forEachSprint_change_invariant (isRegeneration : bool) (I : Store -> Prop) :
  (forall d db pushed db',
      change isRegeneration d db pushed db' -> I db -> I db') ->
  forall batch updatedSprints db results db',
    forEachSprint isRegeneration batch updatedSprints db = Ok (results, db') ->
    I db -> I db'.
Proof.
  intros Hstep. induction batch as [|d rest IH]; intros acc db results db' Hrun HI.
  - cbn in Hrun. injection Hrun as _ <-. exact HI.
  - cbn [forEachSprint] in Hrun. unfold bindTx in Hrun.
    destruct (processSprint isRegeneration d db) as [[pushed mid]|e] eqn:Hp;
      [|discriminate Hrun].
    apply processSprint_change in Hp. destruct Hp as [_ Hc].
    eapply IH; [exact Hrun|]. eapply Hstep; eassumption.
Qed.

Lemma updateRow_frozen (id : nat) (pv : Q) (av : option (option Q)) (r : Db.Sprint) :
  frozen (updateRow id pv av r) = frozen r.
Proof. unfold updateRow. now destruct (Db.id r =? id)%nat. Qed.

Lemma map_updateRow_ids (id : nat) (pv : Q) (av : option (option Q)) (l : list Db.Sprint) :
  map Db.id (map (updateRow id pv av) l) = map Db.id l.
Proof.
  rewrite map_map. apply map_ext. intros r. unfold updateRow.
  now destruct (Db.id r =? id)%nat.
Qed.

Lemma filtered_ids_unique (keep : Db.Sprint -> bool) (table : list Db.Sprint) :
  NoDup (map Db.id table) -> NoDup (map Db.id (filter keep table)).
Proof.
  intros Hnd. induction table as [|row others IH]; cbn; [constructor|].
  apply NoDup_cons_iff in Hnd. destruct Hnd as [Hfresh Hothers].
  destruct (keep row); cbn; [|now apply IH].
  apply NoDup_cons_iff. split; [|now apply IH].
  rewrite in_map_iff. intros (other & Hid & Hin). apply Hfresh.
  apply filter_In in Hin. rewrite <- Hid. apply in_map. tauto.
Qed.

Lemma unique_id (l : list Db.Sprint) (a b : Db.Sprint) :
  NoDup (map Db.id l) -> In a l -> In b l -> Db.id a = Db.id b -> a = b.
Proof.
  induction l as [|x r IH]; simpl; intros Hnd Ha Hb Hid; [destruct Ha|].
  inversion Hnd as [|? ? Hnotin Hr]; subst.
  destruct Ha as [<-|Ha], Hb as [<-|Hb]; auto.
  - exfalso. apply Hnotin. rewrite Hid. now apply in_map.
  - exfalso. apply Hnotin. rewrite <- Hid. now apply in_map.
Qed.

Lemma change_wellFormed (isRegeneration : bool) (d : SprintData) (db db' : Store)
    (pushed : option Db.Sprint) :
  change isRegeneration d db pushed db' ->
  wellFormed db ->
  wellFormed db' /\ (nextId db <= nextId db')%nat.
Proof.
  intros Hc [Hnd Hlt].
  destruct Hc as [n existing _ _ _ _ | n _ _ _
                  | n pv existing first _ _ _ _ _ _
                  | n sd ed pv _ _ _ _ _]; unfold wellFormed; cbn [rows nextId].
  - auto.
  - auto.
  - rewrite map_updateRow_ids. split; [split; [exact Hnd|]|lia].
    apply Forall_forall. intros r Hr. apply in_map_iff in Hr.
    destruct Hr as (r0 & <- & Hr0).
    rewrite Forall_forall in Hlt. specialize (Hlt r0 Hr0).
    unfold updateRow. now destruct (Db.id r0 =? Db.id existing)%nat.
  - split; [split|lia].
    + rewrite map_app. cbn [map Db.id]. apply NoDup_app; [exact Hnd| |].
      * constructor; [intros []|constructor].
      * intros i Hi [<-|[]]. apply in_map_iff in Hi.
        destruct Hi as (r & Hid & Hr). rewrite Forall_forall in Hlt.
        specialize (Hlt r Hr). lia.
    + apply Forall_app. split.
      * eapply Forall_impl; [|exact Hlt]. cbn. intros r Hr. lia.
      * constructor; [cbn; lia|constructor].
Qed.

Lemma change_archived (isRegeneration : bool) (d : SprintData) (db db' : Store)
    (pushed : option Db.Sprint) :
  change isRegeneration d db pushed db' ->
  wellFormed db ->
  filter Db.archived (rows db') = filter Db.archived (rows db).
Proof.
  intros Hc [Hnd _].
  destruct Hc as [n existing _ _ _ _ | n _ _ _
                  | n pv existing first _ _ _ Hin Hnamed _
                  | n sd ed pv _ _ _ _ _]; cbn [rows]; try reflexivity.
  - assert (Hsame : forall r, In r (rows db) -> Db.archived r = true ->
                              updateRow (Db.id existing) pv (written (actualVelocity d)) r = r).
    { intros r Hr Harch. unfold updateRow.
      destruct (Db.id r =? Db.id existing)%nat eqn:E; [|reflexivity].
      apply Nat.eqb_eq in E.
      rewrite (unique_id _ _ _ Hnd Hr Hin E) in Harch.
      unfold nonArchivedNamed in Hnamed. rewrite Harch, andb_false_r in Hnamed.
      discriminate Hnamed. }
    revert Hsame. generalize (rows db). induction l as [|x r IH]; intros Hsame;
      [reflexivity|].
    cbn [map filter].
    assert (Hx : Db.archived (updateRow (Db.id existing) pv (written (actualVelocity d)) x)
                 = Db.archived x).
    { unfold updateRow. now destruct (Db.id x =? Db.id existing)%nat. }
    rewrite Hx. destruct (Db.archived x) eqn:Ex.
    + rewrite (Hsame x (or_introl eq_refl) Ex). f_equal. apply IH.
      intros y Hy. apply Hsame. now right.
    + apply IH. intros y Hy. apply Hsame. now right.
  - rewrite filter_app. cbn. apply app_nil_r.
Qed.

Lemma filter_idem {A : Type} (p : A -> bool) (l : list A) :
  filter p (filter p l) = filter p l.
Proof.
  induction l as [|x r IH]; simpl; [reflexivity|].
  destruct (p x) eqn:E; simpl; [rewrite E; now f_equal|exact IH].
Qed.

Lemma clearExisting_wellFormed (isRegeneration : bool) (db db1 : Store) (k : nat) :
  clearExisting isRegeneration db = Ok (k, db1) ->
  wellFormed db ->
  wellFormed db1 /\ nextId db1 = nextId db
  /\ filter Db.archived (rows db1) = filter Db.archived (rows db).
Proof.
  intros Hc [Hnd Hlt]. destruct isRegeneration.
  - rewrite clearExisting_regeneration in Hc. injection Hc as _ <-.
    unfold wellFormed. cbn [rows nextId]. repeat split.
    + now apply filtered_ids_unique.
    + apply Forall_forall. intros r Hr. apply filter_In in Hr.
      rewrite Forall_forall in Hlt. now apply Hlt.
    + apply filter_idem.
  - cbn in Hc. injection Hc as _ <-. repeat split; auto.
Qed.

(** X1.  A batch that completes, in either mode, leaves the archived
    sprints exactly as they were: none is deleted, none is updated and
    none is added, in a store whose ids are unique. *)
Theorem applyBatch_archived_untouched :
  forall (batch : list SprintData) (isRegeneration : bool) (db db' : Store)
         (results : list Db.Sprint),
    wellFormed db ->
    applyBatch batch isRegeneration db = Ok (results, db') ->
    filter Db.archived (rows db') = filter Db.archived (rows db).
Proof.
  intros batch isRegeneration db db' results Hwf Hrun.
  unfold applyBatch, bindTx in Hrun.
  destruct (clearExisting isRegeneration db) as [[k db1]|e] eqn:Hc;
    [|discriminate Hrun].
  destruct (clearExisting_wellFormed _ _ _ _ Hc Hwf) as (Hwf1 & _ & Harch1).
  rewrite <- Harch1.
  apply (forEachSprint_change_invariant isRegeneration
           (fun cur => wellFormed cur
                       /\ filter Db.archived (rows cur)
                          = filter Db.archived (rows db1)))
    with (2 := Hrun); [|auto].
  intros d cur pushed cur' Hch [Hw Ha]. split.
  - now apply (change_wellFormed _ _ _ _ _ Hch).
  - rewrite <- Ha. now apply (change_archived _ _ _ _ _ Hch).
Qed.

Lemma applyBatch_archived_untouched_witness :
  exists results db',
    applyBatch q3Batch false
               (mkStore [Db.mkSprint 0 "Q3 Sprint 1" 1000 1999 5 None true;
                         Db.mkSprint 1 "Q3 Sprint 2" 2000 2999 6 None false] 2)
    = Ok (results, db')
    /\ filter Db.archived (rows db')
       = [Db.mkSprint 0 "Q3 Sprint 1" 1000 1999 5 None true].
Proof.
  assert (Hwf : wellFormed
                  (mkStore [Db.mkSprint 0 "Q3 Sprint 1" 1000 1999 5 None true;
                            Db.mkSprint 1 "Q3 Sprint 2" 2000 2999 6 None false] 2)).
  { split; cbn.
    - repeat constructor; cbn; intuition discriminate.
    - repeat constructor. }
  do 2 eexists. split; [reflexivity|].
  exact (applyBatch_archived_untouched q3Batch false _ _ _ Hwf eq_refl).
Defined.

(** The generated ids, which the counter of the store stands for: a
    batch that completes keeps the store well formed, and the counter
    never goes back.  This supports the hypothesis [wellFormed] of the
    properties around it; it says nothing of the generator itself. *)
Lemma applyBatch_wellFormed :
  forall (batch : list SprintData) (isRegeneration : bool) (db db' : Store)
         (results : list Db.Sprint),
    wellFormed db ->
    applyBatch batch isRegeneration db = Ok (results, db') ->
    wellFormed db' /\ (nextId db <= nextId db')%nat.
Proof.
  intros batch isRegeneration db db' results Hwf Hrun.
  unfold applyBatch, bindTx in Hrun.
  destruct (clearExisting isRegeneration db) as [[k db1]|e] eqn:Hc;
    [|discriminate Hrun].
  destruct (clearExisting_wellFormed _ _ _ _ Hc Hwf) as (Hwf1 & Hnext & _).
  rewrite <- Hnext.
  apply (forEachSprint_change_invariant isRegeneration
           (fun cur => wellFormed cur /\ (nextId db1 <= nextId cur)%nat))
    with (2 := Hrun); [|auto].
  intros d cur pushed cur' Hch [Hw Hle].
  destruct (change_wellFormed _ _ _ _ _ Hch Hw) as [Hw' Hle']. split; [auto|lia].
Qed.

Lemma applyBatch_wellFormed_witness :
  exists results db',
    applyBatch q3Batch true earlierStore = Ok (results, db')
    /\ wellFormed db' /\ (1 <= nextId db')%nat.
Proof.
  assert (Hwf : wellFormed earlierStore).
  { split; cbn; repeat constructor. intros []. }
  do 2 eexists. split; [reflexivity|].
  exact (applyBatch_wellFormed q3Batch true earlierStore _ _ Hwf eq_refl).
Defined.

(** X3.  In merge mode a batch that completes deletes no sprint and
    changes no id, name, start date, end date or archived flag of a
    sprint it found: the rows of the store before are, in order and up
    to their velocities, the first rows of the store after, and the
    rows after them are new non-archived sprints. *)
Theorem applyBatch_merge_immutable :
  forall (batch : list SprintData) (db db' : Store) (results : list Db.Sprint),
    applyBatch batch false db = Ok (results, db') ->
    exists created,
      map frozen (rows db') = map frozen (rows db) ++ map frozen created
      /\ Forall (fun r => Db.archived r = false) created.
Proof.
  intros batch db db' results Hrun. unfold applyBatch, bindTx in Hrun.
  cbn [clearExisting ret] in Hrun.
  apply (forEachSprint_change_invariant false
           (fun cur => exists created,
                map frozen (rows cur) = map frozen (rows db) ++ map frozen created
                /\ Forall (fun r => Db.archived r = false) created))
    with (2 := Hrun).
  - intros d cur pushed cur' Hch (created & Hrows & Hnew).
    destruct Hch as [n existing _ _ _ _ | n _ _ _
                     | n pv existing first _ _ _ _ _ _
                     | n sd ed pv _ _ _ _ _]; cbn [rows].
    + eauto.
    + eauto.
    + exists created. split; [|exact Hnew].
      rewrite map_map. rewrite <- Hrows. apply map_ext.
      intros r. apply updateRow_frozen.
    + eexists (created ++ [_]). split.
      * rewrite !map_app, Hrows, app_assoc. reflexivity.
      * apply Forall_app. split; [exact Hnew|]. now repeat constructor.
  - exists []. cbn. split; [now rewrite app_nil_r|constructor].
Qed.

Lemma applyBatch_merge_immutable_witness :
  exists results db' created,
    applyBatch q3Batch false earlierStore = Ok (results, db')
    /\ map frozen (rows db') = map frozen (rows earlierStore) ++ map frozen created.
Proof.
  destruct (applyBatch_merge_immutable q3Batch earlierStore _ _ eq_refl)
    as (created & H & _).
  do 3 eexists. split; [reflexivity|exact H].
Defined.

Lemma nonArchivedNamed_iff (n : string) (r : Db.Sprint) :
  nonArchivedNamed n r = true <-> Db.name r = n /\ Db.archived r = false.
Proof.
  unfold nonArchivedNamed.
  rewrite andb_true_iff, String.eqb_eq, negb_true_iff. tauto.
Qed.

Lemma activeNames_In (db : Store) (n : string) :
  In n (activeNames db) <->
  exists r, In r (rows db) /\ nonArchivedNamed n r = true.
Proof.
  unfold activeNames, active. rewrite in_map_iff. split.
  - intros (r & Hn & Hr). apply filter_In in Hr. destruct Hr as [Hr Ha].
    exists r. split; [exact Hr|]. apply nonArchivedNamed_iff.
    apply negb_true_iff in Ha. auto.
  - intros (r & Hr & Hnamed). apply nonArchivedNamed_iff in Hnamed.
    destruct Hnamed as [Hn Ha]. exists r. split; [exact Hn|].
    apply filter_In. split; [exact Hr|]. now rewrite Ha.
Qed.

Lemma forEachSprint_regeneration_results (batch : list SprintData) :
  forall acc db results db',
    forEachSprint true batch acc db = Ok (results, db') ->
    exists pushed,
      results = acc ++ pushed
      /\ map (fun r => Some (Db.name r)) pushed = map name batch
      /\ Forall (fun r => In r (rows db') /\ Db.archived r = false) pushed
      /\ (forall r, In r (rows db) -> In r (rows db'))
      /\ (forall n, In n (activeNames db') <->
                    In n (activeNames db) \/ In (Some n) (map name batch)).
Proof.
  induction batch as [|d rest IH]; intros acc db results db' Hrun.
  - cbn in Hrun. injection Hrun as <- <-. exists [].
    rewrite app_nil_r. repeat split; auto. cbn. tauto.
  - cbn [forEachSprint] in Hrun. unfold bindTx in Hrun.
    destruct (processSprint true d db) as [[o mid]|e] eqn:Hp; [|discriminate Hrun].
    apply processSprint_change in Hp. destruct Hp as [_ Hch].
    destruct (IH _ _ _ _ Hrun) as (pushed & Hres & Hnames & Hin & Hgrow & Hact).
    clear IH Hrun.
    destruct Hch as [n existing _ Hn Hex Hnamed | n Hm _ _
                     | n pv existing first Hm _ _ _ _ _
                     | n sd ed pv Hn _ _ _ Hfree]; try discriminate Hm.
    + (* the name is taken: the existing row is returned *)
      apply nonArchivedNamed_iff in Hnamed. destruct Hnamed as [Hname Harch].
      exists (existing :: pushed). cbn [push] in Hres. rewrite <- app_assoc in Hres.
      split; [exact Hres|]. split; [cbn; now rewrite Hname, Hn, Hnames|].
      split; [constructor; auto|]. split; [exact Hgrow|].
      intros m. rewrite Hact. cbn [map In]. rewrite Hn. split; [tauto|].
      intros [H|[H|H]]; auto. injection H as <-. left.
      apply activeNames_In. exists existing. split; [exact Hex|].
      apply nonArchivedNamed_iff. auto.
    + (* a new row is appended *)
      eexists (_ :: pushed). cbn [push] in Hres. rewrite <- app_assoc in Hres.
      split; [exact Hres|]. split; [cbn; now rewrite Hn, Hnames|].
      split; [constructor; [split; [|reflexivity]|exact Hin]|].
      { apply Hgrow. cbn [rows]. apply in_or_app. right. now left. }
      split.
      { intros r Hr. apply Hgrow. cbn [rows]. apply in_or_app. now left. }
      intros m. rewrite Hact. cbn [map]. rewrite Hn.
      unfold activeNames at 1, active. cbn [rows].
      rewrite filter_app, map_app, in_app_iff. cbn.
      fold (active db). fold (activeNames db). split.
      * intros [[H|[<-|[]]]|H]; auto.
      * intros [H|[[= <-]|H]]; auto.
Qed.

(** X4.  A regeneration that completes returns one sprint per
    definition, in order and under the definition's name; every
    returned sprint is a non-archived row of the store afterwards; and
    the names of the non-archived sprints afterwards are exactly the
    names of the batch. *)
Theorem applyBatch_regeneration_results :
  forall (batch : list SprintData) (db db' : Store) (results : list Db.Sprint),
    applyBatch batch true db = Ok (results, db') ->
    map (fun r => Some (Db.name r)) results = map name batch
    /\ Forall (fun r => In r (rows db') /\ Db.archived r = false) results
    /\ (forall n, In n (activeNames db') <-> In (Some n) (map name batch)).
Proof.
  intros batch db db' results Hrun. unfold applyBatch, bindTx in Hrun.
  rewrite clearExisting_regeneration in Hrun.
  destruct (forEachSprint_regeneration_results _ _ _ _ _ Hrun)
    as (pushed & -> & Hnames & Hin & _ & Hact).
  cbn [app]. split; [exact Hnames|]. split; [exact Hin|].
  intros n. rewrite Hact. split; [|auto]. intros [H|H]; [|exact H].
  apply activeNames_In in H. destruct H as (r & Hr & Hnamed). cbn [rows] in Hr.
  apply filter_In in Hr. destruct Hr as [_ Harch].
  apply nonArchivedNamed_iff in Hnamed. destruct Hnamed as [_ Hna]. congruence.
Qed.

Lemma applyBatch_regeneration_results_witness :
  exists results db',
    applyBatch q3Batch true earlierStore = Ok (results, db')
    /\ map (fun r => Some (Db.name r)) results = map name q3Batch.
Proof.
  do 2 eexists. split; [reflexivity|].
  exact (proj1 (applyBatch_regeneration_results q3Batch earlierStore _ _ eq_refl)).
Defined.

(** X5.  A regeneration that passes the guard starts the cooldown
    whatever becomes of it: whether it is answered with its sprints,
    with 400 for an empty batch or with 500 for a missing field, the
    lock is free afterwards and a regeneration request less than the
    cooldown later is answered 429 and leaves the store as it is. *)
Theorem regeneration_cooldown_after_any_outcome :
  forall (now now' : Z) (req req' : Request) (g g1 : Guard) (db db1 : Store)
         (r : Response),
    isRegeneration req = true -> isRegeneration req' = true ->
    regenerationInProgress g = false ->
    (REGENERATION_COOLDOWN <= now - lastRegenerationTime g)%Z ->
    (now' - now < REGENERATION_COOLDOWN)%Z ->
    handle now req g db = (r, g1, db1) ->
    g1 = mkGuard false now
    /\ handle now' req' g1 db1 = (Status429, g1, db1).
Proof.
  intros now now' req req' g g1 db db1 r Hreq Hreq' Hfree Hcool Hsoon Hrun.
  assert (Hg1 : g1 = mkGuard false now).
  { unfold handle in Hrun. rewrite enter_regeneration in Hrun by exact Hreq.
    rewrite Hfree in Hrun. apply Z.ltb_ge in Hcool. rewrite Hcool in Hrun.
    destruct (batchOf req) as [b|] eqn:Eb.
    - pose proof (settle_guard req (mkGuard true now) db) as Hs.
      rewrite Hrun in Hs. cbn [fst snd] in Hs. rewrite Hs.
      unfold release. now rewrite Hreq.
    - now injection Hrun as _ <- _. }
  split; [exact Hg1|]. subst g1.
  unfold handle. rewrite enter_regeneration by exact Hreq'.
  cbn [regenerationInProgress lastRegenerationTime].
  apply Z.ltb_lt in Hsoon. now rewrite Hsoon.
Qed.

Lemma regeneration_cooldown_after_any_outcome_witness :
  handle 10500 (mkRequest (Some q3Batch) true) (mkGuard false 10000) earlierStore
  = (Status429, mkGuard false 10000, earlierStore).
Proof.
  refine (proj2 (regeneration_cooldown_after_any_outcome
                   10000 10500 (mkRequest (Some threeValidOneMissing) true)
                   (mkRequest (Some q3Batch) true) (mkGuard false 0) _
                   earlierStore earlierStore
                   (Status500 "Missing required fields for sprint: Q3 Sprint 4")
                   eq_refl eq_refl eq_refl _ _ eq_refl)).
  - vm_compute. discriminate.
  - reflexivity.
Defined.

End BatchEffectsProperties.

(** *** Regeneration twice, on the two variants of the route *)

Section RegenerationTwice.
Import Prisma.

(** In regeneration mode the lock-only loop creates, whatever the
    store holds. *)
Lemma lockOnly_processSprint_regeneration (d : SprintData) (db db' : Store)
    (sprint : Db.Sprint) :
  SprintsLockOnly.processSprint true d db = Ok (sprint, db') ->
  sprint = SprintsLockOnly.createdRow (nextId db) d
  /\ db' = mkStore (rows db ++ [sprint]) (S (nextId db))
  /\ name d = Some (Db.name sprint)
  /\ forall cur,
       SprintsLockOnly.processSprint true d cur
       = Ok (SprintsLockOnly.createdRow (nextId cur) d,
             mkStore (rows cur ++ [SprintsLockOnly.createdRow (nextId cur) d])
                     (S (nextId cur))).
Proof.
  unfold SprintsLockOnly.processSprint, SprintsLockOnly.createdRow.
  destruct (name d) as [n|]; [|discriminate].
  destruct (Sprints.missing d); [discriminate|].
  unfold Sprints.createSprint, Sprints.newDate, Sprints.requiredFloat,
    Sprints.optionalFloat, bindTx, create, throw, ret.
  destruct (startDate d) as [| |sd]; try discriminate.
  destruct (endDate d) as [| |ed]; try discriminate.
  destruct (plannedVelocity d) as [[pv| |t]|]; try discriminate.
  destruct (actualVelocity d) as [[av| |t]|]; try discriminate;
    cbn [getTime number]; intros [= <- <-]; repeat split.
Qed.

Lemma lockOnly_forEachSprint_regeneration (batch : list SprintData) :
  forall acc db results db',
    SprintsLockOnly.forEachSprint true batch acc db = Ok (results, db') ->
    db' = mkStore (rows db ++ SprintsLockOnly.createdRows (nextId db) batch)
                  (nextId db + List.length batch)
    /\ (forall id, map name batch
                   = map (fun r => Some (Db.name r))
                         (SprintsLockOnly.createdRows id batch))
    /\ forall acc2 cur,
         exists results2,
           SprintsLockOnly.forEachSprint true batch acc2 cur
           = Ok (results2,
                 mkStore (rows cur ++ SprintsLockOnly.createdRows (nextId cur) batch)
                         (nextId cur + List.length batch)).
Proof.
  induction batch as [|d rest IH]; intros acc db results db' Hrun.
  - cbn in Hrun. injection Hrun as _ <-. cbn [SprintsLockOnly.createdRows
                                                List.length map].
    rewrite app_nil_r, Nat.add_0_r. split; [now destruct db|].
    split; [reflexivity|]. intros acc2 cur. exists acc2. cbn.
    rewrite app_nil_r, Nat.add_0_r. now destruct cur.
  - cbn [SprintsLockOnly.forEachSprint] in Hrun. unfold bindTx in Hrun.
    destruct (SprintsLockOnly.processSprint true d db) as [[sprint mid]|e] eqn:Hd;
      [|discriminate Hrun].
    destruct (lockOnly_processSprint_regeneration d db mid sprint Hd)
      as (-> & -> & Hname & Hany).
    destruct (IH _ _ _ _ Hrun) as (-> & Hnames & Hrest).
    cbn [rows nextId SprintsLockOnly.createdRows List.length map].
    split; [|split].
    + rewrite <- app_assoc. cbn [app]. f_equal. lia.
    + intros id. rewrite Hname. cbn [SprintsLockOnly.createdRow Db.name].
      f_equal. apply Hnames.
    + intros acc2 cur. cbn [SprintsLockOnly.forEachSprint]. unfold bindTx.
      rewrite Hany.
      destruct (Hrest (acc2 ++ [SprintsLockOnly.createdRow (nextId cur) d])
                      (mkStore (rows cur
                                ++ [SprintsLockOnly.createdRow (nextId cur) d])
                               (S (nextId cur)))) as [results2 ->].
      exists results2. cbn [rows nextId]. rewrite <- app_assoc. cbn [app].
      do 3 f_equal. lia.
Qed.

Lemma createdRows_active (id : nat) (batch : list SprintData) :
  filter (fun r => negb (Db.archived r)) (SprintsLockOnly.createdRows id batch)
  = SprintsLockOnly.createdRows id batch.
Proof.
  revert id. induction batch as [|d rest IH]; intros id; [reflexivity|].
  cbn [SprintsLockOnly.createdRows filter SprintsLockOnly.createdRow
       Db.archived negb]. now rewrite IH.
Qed.

Lemma createdRows_velocities (id1 id2 : nat) (batch : list SprintData) :
  map (fun r => (Db.name r, Db.plannedVelocity r, Db.actualVelocity r))
      (SprintsLockOnly.createdRows id1 batch)
  = map (fun r => (Db.name r, Db.plannedVelocity r, Db.actualVelocity r))
        (SprintsLockOnly.createdRows id2 batch).
Proof.
  revert id1 id2. induction batch as [|d rest IH]; intros id1 id2; [reflexivity|].
  cbn [SprintsLockOnly.createdRows map]. f_equal. apply IH.
Qed.

(** The rows a regeneration created are all in the way of the next
    regeneration with the same batch. *)
Lemma createdRows_conflicting (id : nat) (batch : list SprintData) (range : Z * Z) :
  map name batch
  = map (fun r => Some (Db.name r)) (SprintsLockOnly.createdRows id batch) ->
  forall r, In r (SprintsLockOnly.createdRows id batch) ->
            negb (SprintsLockOnly.conflicting (map name batch) range r) = false.
Proof.
  intros Hnames r Hr. apply negb_false_iff. destruct range as [lo hi].
  apply conflicting_iff. split.
  - rewrite <- (createdRows_active id batch) in Hr. apply filter_In in Hr.
    destruct Hr as [_ Hr]. now apply negb_true_iff in Hr.
  - left. rewrite Hnames.
    exact (in_map (fun r => Some (Db.name r)) _ _ Hr).
Qed.

(** The names of the non-archived sprints a deletion keeps stay
    pairwise distinct. *)
Lemma activeNames_kept (keep : Db.Sprint -> bool) (table : list Db.Sprint)
    (nid : nat) :
  NoDup (Sprints.activeNames (mkStore table nid)) ->
  NoDup (Sprints.activeNames (mkStore (filter keep table) nid)).
Proof.
  unfold Sprints.activeNames, Sprints.active. cbn [rows].
  induction table as [|row others IH]; cbn [filter map]; [trivial|].
  destruct (Db.archived row) eqn:Ea; cbn [negb map].
  - destruct (keep row); cbn [filter]; [rewrite Ea|]; cbn [negb]; exact IH.
  - intros Hnd. apply NoDup_cons_iff in Hnd. destruct Hnd as [Hfresh Hothers].
    destruct (keep row); cbn [filter]; [rewrite Ea|]; cbn [negb map];
      [|now apply IH].
    apply NoDup_cons_iff. split; [|now apply IH].
    rewrite in_map_iff. intros (other & Hname & Hin). apply Hfresh.
    rewrite <- Hname. apply in_map. apply filter_In in Hin. destruct Hin as [Hin Ho].
    apply filter_In in Hin. apply filter_In. tauto.
Qed.

Lemma activeNames_created (kept : list Db.Sprint) (id nid : nat)
    (batch : list SprintData) (range : Z * Z) :
  NoDup (map name batch) ->
  map name batch
  = map (fun r => Some (Db.name r)) (SprintsLockOnly.createdRows id batch) ->
  (forall r, In r kept ->
             SprintsLockOnly.conflicting (map name batch) range r = false) ->
  NoDup (Sprints.activeNames (mkStore kept nid)) ->
  NoDup (Sprints.activeNames
           (mkStore (kept ++ SprintsLockOnly.createdRows id batch) nid)).
Proof.
  intros Hbatch Hnames Hfree Hkept.
  unfold Sprints.activeNames, Sprints.active in *. cbn [rows] in *.
  rewrite filter_app, createdRows_active, map_app.
  apply NoDup_app; [exact Hkept| |].
  - rewrite Hnames, <- (map_map Db.name Some) in Hbatch.
    exact (NoDup_map_inv _ _ Hbatch).
  - intros n Hold Hnew. apply in_map_iff in Hold.
    destruct Hold as (r & <- & Hr). apply filter_In in Hr. destruct Hr as [Hr Ha].
    specialize (Hfree r Hr). destruct range as [lo hi].
    apply not_true_iff_false in Hfree. apply Hfree. apply conflicting_iff.
    split; [now apply negb_true_iff in Ha|]. left.
    rewrite Hnames, <- (map_map Db.name Some). now apply in_map.
Qed.

(** On the lock-only route, a regeneration that succeeds with a batch
    of pairwise distinct names, followed by a regeneration with the
    same batch, succeeds again and leaves the same non-archived names
    and velocities; names that were pairwise distinct before stay so
    after each call. *)
Lemma lockOnly_regeneration_twice (batch : list SprintData) (db : Store)
    (results1 : list Db.Sprint) (db1 : Store) :
  NoDup (map name batch) ->
  SprintsLockOnly.applyBatch batch true db = Ok (results1, db1) ->
  exists results2 db2,
    SprintsLockOnly.applyBatch batch true db1 = Ok (results2, db2)
    /\ Sprints.activeVelocities db2 = Sprints.activeVelocities db1
    /\ (NoDup (Sprints.activeNames db) ->
        NoDup (Sprints.activeNames db1) /\ NoDup (Sprints.activeNames db2)).
Proof.
  intros Hbatch Hrun. unfold SprintsLockOnly.applyBatch, bindTx in *.
  destruct batch as [|d0 rest].
  { cbn in Hrun. injection Hrun as <- <-. exists [], db. cbn. auto. }
  unfold SprintsLockOnly.clearExisting in *.
  destruct (SprintsLockOnly.sprintDateRange (d0 :: rest)) as [range|];
    [|discriminate Hrun].
  unfold deleteMany in *.
  set (keep := fun r => negb (SprintsLockOnly.conflicting
                                (map name (d0 :: rest)) range r)) in *.
  destruct (lockOnly_forEachSprint_regeneration _ _ _ _ _ Hrun)
    as (-> & Hnames & Hany).
  cbn [rows nextId] in *.
  assert (Hcleared :
    filter keep (filter keep (rows db)
                 ++ SprintsLockOnly.createdRows (nextId db) (d0 :: rest))
    = filter keep (rows db)).
  { rewrite filter_app, filter_idem.
    rewrite (filter_nothing keep
               (SprintsLockOnly.createdRows (nextId db) (d0 :: rest)));
      [apply app_nil_r|].
    intros r Hr. unfold keep.
    exact (createdRows_conflicting _ _ range (Hnames _) r Hr). }
  rewrite Hcleared.
  destruct (Hany [] (mkStore (filter keep (rows db))
                             (nextId db + List.length (d0 :: rest))))
    as [results2 Hrun2].
  rewrite Hrun2. cbn [rows nextId]. do 2 eexists. split; [reflexivity|].
  assert (Hfree : forall r, In r (filter keep (rows db)) ->
            SprintsLockOnly.conflicting (map name (d0 :: rest)) range r = false).
  { intros r Hr. apply filter_In in Hr. destruct Hr as [_ Hr].
    now apply negb_true_iff in Hr. }
  split.
  - unfold Sprints.activeVelocities, Sprints.active. cbn [rows].
    rewrite !filter_app, !createdRows_active, !map_app. f_equal.
    apply createdRows_velocities.
  - intros Hbefore.
    assert (Hkept : forall nid,
              NoDup (Sprints.activeNames (mkStore (filter keep (rows db)) nid))).
    { intros nid. apply activeNames_kept. now destruct db. }
    split; apply (activeNames_created _ _ _ _ range); auto.
Qed.




End RegenerationTwice.

(** *** More on the validator and the matcher *)

Section NormalizerProperties.
Import StoryPoints SprintMatcher.

(** X6.  Validating a validated estimate changes nothing: the
    validator is idempotent on every input. *)
Theorem validateStoryPoints_idempotent :
  forall value : JsValue,
    validateStoryPoints (VNumber (validateStoryPoints value))
    = validateStoryPoints value.
Proof.
  intros value.
  assert (Hcases : value = VNumber NaN \/ value <> VNumber NaN).
  { destruct value as [ | | s | [ | | | q] | ]; auto; right; discriminate. }
  destruct Hcases as [->|Hv]; [reflexivity|].
  destruct (validateStoryPoints_inRange value Hv) as (q & -> & Hlo & Hhi).
  unfold validateStoryPoints. cbn [isNullish isString orb gt min max].
  assert (H100 : Qle_bool q 100 = true).
  { apply Qle_bool_iff. eapply Qle_trans; [exact Hhi|]. discriminate. }
  apply Qle_bool_iff in Hlo, Hhi. now rewrite H100, Hhi, Hlo.
Qed.

(** X7.  A ticket is only ever attributed to one of the candidates,
    and to one that its sprint name matches, whose window holds its
    update time, or that is the last of the list. *)
Theorem syncCompletedTicketToSprint_target_is_candidate :
  forall (jiraIssue : Ticket) (pastSprints : list Db.Sprint) (s : Db.Sprint),
    syncCompletedTicketToSprint jiraIssue pastSprints = target s ->
    In s pastSprints
    /\ ((exists n, sprintNameOf jiraIssue = Some n /\ nameMatches n s = true)
        \/ dateMatches (updated jiraIssue) s = true
        \/ exists rest, pastSprints = rest ++ [s]).
Proof.
  intros jiraIssue pastSprints s. unfold syncCompletedTicketToSprint.
  rewrite targetSprint_cascade.
  destruct (sprintNameOf jiraIssue) as [n|] eqn:En.
  - destruct (List.find (nameMatches n) pastSprints) as [x|] eqn:Ef; cbn [orFind].
    + intros [= <-]. apply find_some in Ef. split; [tauto|]. left. exists n. tauto.
    + destruct (List.find (dateMatches (updated jiraIssue)) pastSprints)
        as [x|] eqn:Ed; cbn [orFind].
      * intros [= <-]. apply find_some in Ed. tauto.
      * destruct pastSprints as [|c cs]; [discriminate|].
        destruct (exists_last (l := c :: cs)) as (rest & z & Hl); [discriminate|].
        rewrite Hl, last_snoc. intros [= <-]. split; [|eauto].
        apply in_or_app. right. now left.
  - cbn [orFind].
    destruct (List.find (dateMatches (updated jiraIssue)) pastSprints)
      as [x|] eqn:Ed; cbn [orFind].
    + intros [= <-]. apply find_some in Ed. tauto.
    + destruct pastSprints as [|c cs]; [discriminate|].
      destruct (exists_last (l := c :: cs)) as (rest & z & Hl); [discriminate|].
      rewrite Hl, last_snoc. intros [= <-]. split; [|eauto].
      apply in_or_app. right. now left.
Qed.

Lemma syncCompletedTicketToSprint_target_is_candidate_witness :
  In sprint12Extended [sprint12Extended; sprint12].
Proof.
  exact (proj1 (syncCompletedTicketToSprint_target_is_candidate
                  sprint12Ticket [sprint12Extended; sprint12] sprint12Extended
                  eq_refl)).
Defined.

End NormalizerProperties.

(** *** More on the de-duplication pass *)

Section DeduplicationProperties.
Import WorkItems EpicOrder.

Lemma NoDup_map_inj {A B : Type} (f : A -> B) (l : list A) (a b : A) :
  NoDup (map f l) -> In a l -> In b l -> f a = f b -> a = b.
Proof.
  induction l as [|x r IH]; simpl; intros Hnd Ha Hb Hf; [destruct Ha|].
  inversion Hnd as [|? ? Hnotin Hr]; subst.
  destruct Ha as [<-|Ha], Hb as [<-|Hb]; auto.
  - exfalso. apply Hnotin. rewrite Hf. now apply in_map.
  - exfalso. apply Hnotin. rewrite <- Hf. now apply in_map.
Qed.

Lemma filter_all {A : Type} (p : A -> bool) (l : list A) :
  (forall x, In x l -> p x = true) -> filter p l = l.
Proof.
  induction l as [|x r IH]; simpl; intros H; [reflexivity|].
  rewrite (H x (or_introl eq_refl)). f_equal. apply IH. auto.
Qed.

(** X8.  When no two epic records share an external id, the pass
    discards nothing: the output holds every loaded record, in the
    order in which it was loaded. *)
Theorem finalWorkItems_nothing_discarded :
  forall items : list WorkItem,
    NoDup (map jiraId (filter isEpic items)) ->
    map item (finalWorkItems items) = items.
Proof.
  intros items Hnd. unfold finalWorkItems. rewrite item_withChildren.
  apply filter_all. intros it Hit. unfold keep.
  destruct (match epicId it with Some e => _ | None => false end); [reflexivity|].
  destruct (isEpic it) eqn:Hepic; [|reflexivity].
  assert (Hin : In it (filter isEpic items)) by now apply filter_In.
  destruct (fillEpicMap_spec (filter isEpic items) [] (NoDup_nil _))
    as (_ & Hfrom & Hdom & _).
  destruct (Hdom it Hin) as (s & Hs & _).
  destruct (Hfrom _ _ Hs) as [H|[Hsin Hk]]; [discriminate H|].
  assert (Heq : s = it) by exact (NoDup_map_inj jiraId _ s it Hnd Hsin Hin Hk).
  subst s.
  assert (Hid : hasId (epicWorkItemIds items) (id it) = true).
  { apply hasId_In. unfold epicWorkItemIds. apply in_map.
    apply deduplicatedEpics_iff. apply filter_In in Hin. tauto. }
  now rewrite Hid.
Qed.

Lemma finalWorkItems_nothing_discarded_witness :
  map item (finalWorkItems [epicNew; orphan]) = [epicNew; orphan].
Proof.
  apply finalWorkItems_nothing_discarded. cbn.
  constructor; [intros []|constructor].
Defined.

Lemma fillEpicMap_firstLatest (epics : list WorkItem) :
  forall processed epicMap,
    (forall k v, mapGet optEqb k epicMap = Some v -> firstLatest processed k v) ->
    (forall k, mapGet optEqb k epicMap = None ->
               forall e, In e processed -> jiraId e <> k) ->
    forall k v, mapGet optEqb k (fillEpicMap epics epicMap) = Some v ->
                firstLatest (processed ++ epics) k v.
Proof.
  induction epics as [|x rest IH]; intros processed epicMap Hsome Hnone k v Hget.
  - cbn in Hget. rewrite app_nil_r. now apply Hsome.
  - cbn [fillEpicMap] in Hget.
    replace (processed ++ x :: rest) with ((processed ++ [x]) ++ rest)
      by now rewrite <- app_assoc.
    revert Hget. apply IH; clear IH k v.
    + (* entries after [x] was processed *)
      intros k v Hget.
      destruct (mapGet optEqb (jiraId x) epicMap) as [v0|] eqn:E0.
      * destruct (createdAt v0 <? createdAt x)%Z eqn:Hlt.
        -- (* [x] replaces the entry of its id *)
           destruct (optEq_dec (jiraId x) k) as [<-|Hne].
           ++ rewrite mapGet_mapSet_same in Hget. injection Hget as <-.
              exists processed, []. repeat split; [|intros e []].
              intros e He Hk. apply Z.ltb_lt in Hlt.
              destruct (Hsome _ _ E0) as (b & a & Hp & _ & Hb & Ha).
              rewrite Hp in He. apply in_app_or in He.
              destruct He as [He|[<-|He]].
              ** specialize (Hb e He Hk). lia.
              ** exact Hlt.
              ** specialize (Ha e He Hk). lia.
           ++ rewrite mapGet_mapSet_other in Hget by exact Hne.
              destruct (Hsome _ _ Hget) as (b & a & Hp & Hk & Hb & Ha).
              exists b, (a ++ [x]). rewrite Hp, <- app_assoc. repeat split; auto.
              intros e He Hek. apply in_app_or in He.
              destruct He as [He|[<-|[]]]; [auto|contradiction].
        -- (* the entry stays *)
           destruct (Hsome _ _ Hget) as (b & a & Hp & Hk & Hb & Ha).
           exists b, (a ++ [x]). rewrite Hp, <- app_assoc. repeat split; auto.
           intros e He Hek. apply in_app_or in He.
           destruct He as [He|[<-|[]]]; [auto|].
           rewrite Hek in E0. rewrite E0 in Hget. injection Hget as <-.
           apply Z.ltb_ge in Hlt. exact Hlt.
      * (* the id of [x] is new *)
        destruct (optEq_dec (jiraId x) k) as [<-|Hne].
        -- rewrite mapGet_mapSet_same in Hget. injection Hget as <-.
           exists processed, []. repeat split; [|intros e []].
           intros e He Hk. exfalso. exact (Hnone _ E0 e He Hk).
        -- rewrite mapGet_mapSet_other in Hget by exact Hne.
           destruct (Hsome _ _ Hget) as (b & a & Hp & Hk & Hb & Ha).
           exists b, (a ++ [x]). rewrite Hp, <- app_assoc. repeat split; auto.
           intros e He Hek. apply in_app_or in He.
           destruct He as [He|[<-|[]]]; [auto|contradiction].
    + (* ids without an entry after [x] was processed *)
      intros k Hget e He.
      assert (Hk : jiraId x <> k /\ mapGet optEqb k epicMap = None).
      { destruct (mapGet optEqb (jiraId x) epicMap) as [v0|] eqn:E0.
        - destruct (createdAt v0 <? createdAt x)%Z.
          + destruct (optEq_dec (jiraId x) k) as [<-|Hne].
            * rewrite mapGet_mapSet_same in Hget. discriminate Hget.
            * rewrite mapGet_mapSet_other in Hget by exact Hne. auto.
          + split; [|exact Hget]. intros <-. congruence.
        - destruct (optEq_dec (jiraId x) k) as [<-|Hne].
          + rewrite mapGet_mapSet_same in Hget. discriminate Hget.
          + rewrite mapGet_mapSet_other in Hget by exact Hne. auto. }
      destruct Hk as [Hx Hold]. apply in_app_or in He.
      destruct He as [He|[<-|[]]]; [now apply (Hnone k Hold)|exact Hx].
Qed.

(** X9.  The record that survives for an external id is the first
    epic record of that id, in load order, with the latest creation
    time: every epic record of the id loaded before it is strictly
    older, and none loaded after it is younger. *)
Theorem deduplicatedEpics_first_latest :
  forall (items : list WorkItem) (s : WorkItem),
    In s (deduplicatedEpics items) ->
    firstLatest (filter isEpic items) (jiraId s) s.
Proof.
  intros items s Hs. apply deduplicatedEpics_iff in Hs. destruct Hs as (Hget & _).
  apply (fillEpicMap_firstLatest (filter isEpic items) [] []) with (3 := Hget).
  - intros k v H. discriminate H.
  - intros k _ e [].
Qed.

Lemma deduplicatedEpics_first_latest_witness :
  firstLatest [epicOld; epicNew] (Some "REF-10") epicNew.
Proof.
  apply (deduplicatedEpics_first_latest [epicOld; epicNew; orphan] epicNew).
  cbn. now left.
Defined.

End DeduplicationProperties.

(** *** The sprint name of the semi-structured format *)

Section SprintFormatProperties.
Import SprintMatcher SprintFormat.

Lemma substring_all (t : string) : String.substring 0 (String.length t) t = t.
Proof. induction t as [|c r IH]; cbn; [reflexivity|now rewrite IH]. Qed.

Lemma untilComma_app (n rest : string) :
  mentions "," n = false ->
  untilComma (n ++ String "," rest) = n.
Proof.
  induction n as [|c r IH]; cbn; intros H; [reflexivity|].
  apply orb_false_iff in H. destruct H as [Hc Hr].
  rewrite Hc. now rewrite IH.
Qed.

Lemma untilComma_whole (n : string) :
  mentions "," n = false -> untilComma n = n.
Proof.
  induction n as [|c r IH]; cbn; intros H; [reflexivity|].
  apply orb_false_iff in H. destruct H as [Hc Hr].
  rewrite Hc. now rewrite IH.
Qed.

Lemma trimStart_idem (s : string) :
  JsString.trimStart (JsString.trimStart s) = JsString.trimStart s.
Proof.
  induction s as [|c r IH]; cbn; [reflexivity|].
  destruct (JsString.isWhiteSpace c) eqn:E; [exact IH|].
  cbn. now rewrite E.
Qed.

Lemma headKept_trimStart (s : string) : headKept (JsString.trimStart s).
Proof.
  induction s as [|c r IH]; cbn; [exact I|].
  destruct (JsString.isWhiteSpace c) eqn:E; [exact IH|exact E].
Qed.

Lemma trimStart_headKept (s : string) :
  headKept s -> JsString.trimStart s = s.
Proof. destruct s as [|c r]; cbn; [reflexivity|]. now intros ->. Qed.

Lemma trimEnd_headKept (s : string) :
  headKept s -> headKept (JsString.trimEnd s).
Proof.
  destruct s as [|c r]; cbn; [auto|]. intros Hc.
  destruct (JsString.trimEnd r); [rewrite Hc|]; exact Hc.
Qed.

Lemma trimEnd_idem (s : string) :
  JsString.trimEnd (JsString.trimEnd s) = JsString.trimEnd s.
Proof.
  induction s as [|c r IH]; [reflexivity|]. cbn [JsString.trimEnd].
  destruct (JsString.trimEnd r) as [|a t] eqn:Et.
  - destruct (JsString.isWhiteSpace c) eqn:E; [reflexivity|].
    cbn. now rewrite E.
  - cbn [JsString.trimEnd] in *. now rewrite IH.
Qed.

Lemma trim_idem (s : string) : JsString.trim (JsString.trim s) = JsString.trim s.
Proof.
  unfold JsString.trim.
  rewrite (trimStart_headKept (JsString.trimEnd (JsString.trimStart s))).
  - apply trimEnd_idem.
  - apply trimEnd_headKept, headKept_trimStart.
Qed.

Lemma matchName_here (t : string) :
  JsString.truthy (untilComma t) = true ->
  matchName ("name=" ++ t) = Some (untilComma t).
Proof.
  intros H. cbn. rewrite Nat.sub_0_r, substring_all.
  assert (Hp : String.prefix "" t = true) by now destruct t.
  now rewrite Hp, H.
Qed.

(** X10.  A sprint string of the documented format [name=N,...],
    where [N] is not empty and holds no comma, yields [N] without its
    surrounding white space; so does [name=N] at the end of the
    string. *)
Theorem extractSprintName_of_sprintString :
  forall n rest : string,
    n <> EmptyString -> mentions "," n = false ->
    extractSprintName (SAString (sprintString n rest)) = Some (JsString.trim n)
    /\ extractSprintName (SAString ("name=" ++ n)) = Some (JsString.trim n).
Proof.
  intros n rest Hne Hcomma.
  assert (Htruthy : JsString.truthy n = true) by (destruct n; [congruence|reflexivity]).
  split; unfold extractSprintName, sprintString.
  - rewrite matchName_here.
    + change ("," ++ rest)%string with (String "," rest).
      rewrite untilComma_app by exact Hcomma. now rewrite Htruthy.
    + change ("," ++ rest)%string with (String "," rest).
      now rewrite untilComma_app.
  - rewrite matchName_here; rewrite untilComma_whole by exact Hcomma;
      [now rewrite Htruthy|exact Htruthy].
Qed.

Lemma extractSprintName_of_sprintString_witness :
  extractSprintName
    (SAString "name= REF Q3 2025 Sprint 2 ,startDate=2025-07-01,state=closed")
  = Some "REF Q3 2025 Sprint 2".
Proof.
  exact (proj1 (extractSprintName_of_sprintString
                  " REF Q3 2025 Sprint 2 " "startDate=2025-07-01,state=closed"
                  ltac:(discriminate) eq_refl)).
Defined.

(** X11.  Whatever the sprint association, an extracted name has no
    white space at its ends: trimming it again changes nothing. *)
Theorem extractSprintName_trimmed :
  forall (sprintData : SprintAssoc) (n : string),
    extractSprintName sprintData = Some n -> JsString.trim n = n.
Proof.
  intros sprintData n. unfold extractSprintName.
  destruct (match sprintData with
            | SAString s => matchName s
            | SAObject name sprintName => if truthyOpt name then name else sprintName
            | SAOther => None
            end) as [raw|]; [|discriminate].
  destruct (JsString.truthy raw); [|discriminate].
  intros [= <-]. apply trim_idem.
Qed.

Lemma extractSprintName_trimmed_witness :
  JsString.trim "Sprint 12" = "Sprint 12".
Proof.
  exact (extractSprintName_trimmed (SAObject (Some " Sprint 12 ") None) _ eq_refl).
Defined.

End SprintFormatProperties.

(** *** The guard of the lock-only variant *)

Section LockOnlyGuardProperties.
Import Sprints.

(** X12.  In the lock-only variant a rejected regeneration frees the
    lock of the regeneration that is running: of three regeneration
    requests that arrive while the first is still at its transaction,
    the second is answered 409 and the third is admitted, so that two
    regenerations are in flight. *)
Theorem lockOnly_rejection_frees_lock :
  forall (r1 r2 r3 : Request) (suspended : list Request),
    isRegeneration r1 = true -> isRegeneration r2 = true ->
    isRegeneration r3 = true ->
    batchOf r1 <> None -> batchOf r3 <> None ->
    LockOnlyGuard.enter r2 (fst (LockOnlyGuard.arrive r1 (false, suspended)))
      = (false, Some Status409)
    /\ LockOnlyGuard.arrive r3
         (LockOnlyGuard.arrive r2 (LockOnlyGuard.arrive r1 (false, suspended)))
       = (true, suspended ++ [r1; r3]).
Proof.
  intros r1 r2 r3 suspended H1 H2 H3 Hb1 Hb3.
  unfold LockOnlyGuard.arrive, LockOnlyGuard.enter, LockOnlyGuard.release.
  cbn [fst snd]. rewrite H1. cbn [andb].
  destruct (batchOf r1) as [b1|]; [|contradiction]. cbn [fst snd].
  rewrite H2. cbn [andb fst snd]. rewrite H3. cbn [andb].
  destruct (batchOf r3) as [b3|]; [|contradiction].
  split; [reflexivity|]. now rewrite <- app_assoc.
Qed.

Lemma lockOnly_rejection_frees_lock_witness :
  LockOnlyGuard.arrive (mkRequest (Some q3Batch) true)
    (LockOnlyGuard.arrive (mkRequest (Some q3Batch) true)
       (LockOnlyGuard.arrive (mkRequest (Some q3Batch) true) (false, [])))
  = (true, [mkRequest (Some q3Batch) true; mkRequest (Some q3Batch) true]).
Proof.
  refine (proj2 (lockOnly_rejection_frees_lock
                   (mkRequest (Some q3Batch) true) (mkRequest (Some q3Batch) true)
                   (mkRequest (Some q3Batch) true) [] eq_refl eq_refl eq_refl _ _));
    discriminate.
Defined.

End LockOnlyGuardProperties.

(** *** Epics with their children *)

Section EpicsImportProperties.
Import StoryPoints EpicsImport.

Variable plus : JsNumber -> JsNumber -> JsNumber.
Variable searchChildren : string -> Js (option (list Issue)).
Variable epicRoom childRoom : nat.

Lemma countsAsCompleted_convert (childStatus : string) :
  countsAsCompleted childStatus = true ->
  convertJiraStatusToWorkItemStatus childStatus = "Completed".
Proof.
  unfold countsAsCompleted. rewrite !orb_true_iff, !String.eqb_eq.
  intros [[->| ->]| ->]; reflexivity.
Qed.

(** The loop over children whose descriptions are within the room. *)
Lemma forEachChild_spec (epicKey : string) (issues : list Issue) :
  Forall (fun issue => (Adf.depth (issueDescription issue) <= childRoom)%nat)
         issues ->
  forall pushed totalPoints completedPoints,
  exists kids,
    forEachChild plus childRoom epicKey issues pushed totalPoints completedPoints
    = (pushed ++ kids,
       Ok (fold_left plus (map estimateStoryPoints kids) totalPoints,
           fold_left plus
             (map estimateStoryPoints
                  (filter (fun kid => countsAsCompleted (childJiraStatus kid)) kids))
             completedPoints))
    /\ Forall2 (childOf childRoom epicKey) issues kids.
Proof.
  induction 1 as [|child rest Hchild _ IH]; intros pushed t c.
  - exists []. cbn. rewrite app_nil_r. split; [reflexivity|constructor].
  - cbn [forEachChild].
    destruct (extracted childRoom (issueDescription child) Hchild)
      as (text & Htext).
    rewrite Htext.
    match goal with
    | |- context [forEachChild plus childRoom epicKey rest (pushed ++ [?kid]) ?t' ?c'] =>
        destruct (IH (pushed ++ [kid]) t' c') as (kids & Hrun & Hkids);
        exists (kid :: kids)
    end.
    rewrite Hrun, <- app_assoc. cbn [app map filter childJiraStatus fold_left
                                       estimateStoryPoints].
    split.
    + destruct (countsAsCompleted (statusName child)); reflexivity.
    + constructor; [|exact Hkids]. unfold childOf. cbn. auto 10.
Qed.

(** The loop up to the first child whose description is nested beyond
    the room: the children before it are pushed, and the loop throws. *)
Lemma forEachChild_overflow (epicKey : string) (before : list Issue)
    (deep : Issue) (after : list Issue) :
  Forall (fun issue => (Adf.depth (issueDescription issue) <= childRoom)%nat)
         before ->
  (childRoom < Adf.depth (issueDescription deep))%nat ->
  forall pushed totalPoints completedPoints,
  exists kids,
    forEachChild plus childRoom epicKey (before ++ deep :: after)
                 pushed totalPoints completedPoints
    = (pushed ++ kids, Throw Adf.rangeError)
    /\ Forall2 (childOf childRoom epicKey) before kids.
Proof.
  intros Hbefore Hdeep.
  induction Hbefore as [|child rest Hchild _ IH]; intros pushed t c.
  - exists []. cbn [app forEachChild].
    rewrite (proj2 (extract_room (issueDescription deep) childRoom) Hdeep).
    rewrite app_nil_r. split; [reflexivity|constructor].
  - cbn [app forEachChild].
    destruct (extracted childRoom (issueDescription child) Hchild)
      as (text & Htext).
    rewrite Htext.
    match goal with
    | |- context [forEachChild plus childRoom epicKey _ (pushed ++ [?kid]) ?t' ?c'] =>
        destruct (IH (pushed ++ [kid]) t' c') as (kids & Hrun & Hkids);
        exists (kid :: kids)
    end.
    rewrite Hrun, <- app_assoc. split; [reflexivity|].
    constructor; [|exact Hkids]. unfold childOf. cbn. auto 10.
Qed.

(** X13.  When the description of the epic and those of the children
    are within the room on the stack and the search for the children
    answers, the aggregate holds one child per issue of the answer, in
    order, each with its validated estimate and converted status; its
    total is the sum of the estimates of these children and its
    completed total the sum over those whose Jira status is exactly
    Done, Closed or Resolved; and each of the latter has the status
    Completed. *)
Theorem processEpicWithChildren_totals :
  forall (epic : Issue) (answer : option (list Issue)),
    (Adf.depth (issueDescription epic) <= epicRoom)%nat ->
    Forall (fun issue => (Adf.depth (issueDescription issue) <= childRoom)%nat)
           (match answer with Some l => l | None => [] end) ->
    searchChildren (key epic) = Ok answer ->
    exists e,
      processEpicWithChildren plus searchChildren epicRoom childRoom epic = Ok e
      /\ Forall2 (childOf childRoom (key epic))
                 (match answer with Some l => l | None => [] end) (children e)
      /\ totalStoryPoints e = sumWith plus (map estimateStoryPoints (children e))
      /\ completedStoryPoints e
         = sumWith plus
             (map estimateStoryPoints
                  (filter (fun kid => countsAsCompleted (childJiraStatus kid))
                          (children e)))
      /\ Forall (fun kid => countsAsCompleted (childJiraStatus kid) = true ->
                            childStatus kid = "Completed") (children e).
Proof.
  intros epic answer Hepic Hchildren Hsearch. unfold processEpicWithChildren.
  destruct (extracted epicRoom (issueDescription epic) Hepic) as (text & ->).
  cbn [bind]. rewrite Hsearch.
  destruct (forEachChild_spec (key epic)
              (match answer with Some l => l | None => [] end) Hchildren
              [] (Fin 0) (Fin 0))
    as (kids & -> & Hkids).
  cbn [app]. eexists. split; [reflexivity|]. cbn [children totalStoryPoints
                                                  completedStoryPoints fst snd].
  split; [exact Hkids|]. split; [reflexivity|]. split; [reflexivity|].
  clear -Hkids. induction Hkids as [|issue kid issues kids Hk _ IH]; constructor;
    [|exact IH].
  destruct Hk as (_ & _ & _ & _ & _ & Hjs & Hs & _). rewrite Hs, Hjs.
  apply countsAsCompleted_convert.
Qed.

(** X14.  A failing search for the children of an epic whose
    description is within the room on the stack does not fail the
    epic: its aggregate is returned under the epic's key, with its
    converted status, no children and both totals at zero. *)
Theorem processEpicWithChildren_isolates_failure :
  forall (epic : Issue) (message : string),
    (Adf.depth (issueDescription epic) <= epicRoom)%nat ->
    searchChildren (key epic) = Throw message ->
    exists e,
      processEpicWithChildren plus searchChildren epicRoom childRoom epic = Ok e
      /\ id e = key epic /\ jiraId e = key epic
      /\ status e = convertJiraStatusToWorkItemStatus (statusName epic)
      /\ children e = []
      /\ totalStoryPoints e = Fin 0 /\ completedStoryPoints e = Fin 0.
Proof.
  intros epic message Hepic Hsearch. unfold processEpicWithChildren.
  destruct (extracted epicRoom (issueDescription epic) Hepic) as (text & ->).
  cbn [bind]. rewrite Hsearch. eexists. split; [reflexivity|]. cbn. auto 10.
Qed.

(** X27.  What a description nested beyond the room on the stack does.
    That of the epic is extracted outside the [try]: the function
    throws [RangeError].  That of a child is extracted inside it: the
    epic is answered with the children before that child and with both
    totals at zero, whatever their estimates. *)
Theorem processEpicWithChildren_overflow :
  forall (epic : Issue),
    ((epicRoom < Adf.depth (issueDescription epic))%nat ->
     processEpicWithChildren plus searchChildren epicRoom childRoom epic
     = Throw Adf.rangeError)
    /\ (forall before deep after,
          (Adf.depth (issueDescription epic) <= epicRoom)%nat ->
          searchChildren (key epic) = Ok (Some (before ++ deep :: after)) ->
          Forall (fun issue =>
                    (Adf.depth (issueDescription issue) <= childRoom)%nat) before ->
          (childRoom < Adf.depth (issueDescription deep))%nat ->
          exists e,
            processEpicWithChildren plus searchChildren epicRoom childRoom epic
            = Ok e
            /\ Forall2 (childOf childRoom (key epic)) before (children e)
            /\ totalStoryPoints e = Fin 0 /\ completedStoryPoints e = Fin 0).
Proof.
  intros epic. split.
  - intros Hdeep. unfold processEpicWithChildren.
    now rewrite (proj2 (extract_room (issueDescription epic) epicRoom) Hdeep).
  - intros before deep after Hepic Hsearch Hbefore Hdeep.
    unfold processEpicWithChildren.
    destruct (extracted epicRoom (issueDescription epic) Hepic) as (text & ->).
    cbn [bind]. rewrite Hsearch.
    destruct (forEachChild_overflow (key epic) before deep after Hbefore Hdeep
                [] (Fin 0) (Fin 0)) as (kids & -> & Hkids).
    cbn [app]. eexists. split; [reflexivity|].
    cbn [children totalStoryPoints completedStoryPoints fst snd]. auto.
Qed.

Lemma processEpicWithChildren_ok (epic : Issue) :
  (Adf.depth (issueDescription epic) <= epicRoom)%nat ->
  exists e, processEpicWithChildren plus searchChildren epicRoom childRoom epic
            = Ok e
            /\ jiraId e = key epic.
Proof.
  intros Hepic. unfold processEpicWithChildren.
  destruct (extracted epicRoom (issueDescription epic) Hepic) as (text & ->).
  cbn [bind].
  destruct (searchChildren (key epic)) as [answer|message].
  - destruct (forEachChild plus childRoom (key epic)
                (match answer with Some l => l | None => [] end) [] (Fin 0) (Fin 0))
      as [kids [totals|e]]; eexists; split; reflexivity.
  - eexists. split; reflexivity.
Qed.

Lemma promiseAll_ok (batch : list Issue) :
  Forall (fun epic => (Adf.depth (issueDescription epic) <= epicRoom)%nat) batch ->
  exists results,
    promiseAll plus searchChildren epicRoom childRoom batch = Ok results
    /\ map jiraId results = map key batch.
Proof.
  induction 1 as [|epic rest Hepic _ (results & Hrest & Hkeys)]; cbn.
  - exists []. auto.
  - destruct (processEpicWithChildren_ok epic Hepic) as (e & -> & He). cbn [bind].
    rewrite Hrest. cbn [bind]. exists (e :: results). cbn. now rewrite He, Hkeys.
Qed.

Lemma within_skipn (i : nat) (epics : list Issue) :
  Forall (fun epic => (Adf.depth (issueDescription epic) <= epicRoom)%nat) epics ->
  Forall (fun epic => (Adf.depth (issueDescription epic) <= epicRoom)%nat)
         (firstn batchSize (skipn i epics)).
Proof.
  rewrite !Forall_forall. intros H x Hx. apply H.
  rewrite <- (firstn_skipn i epics). apply in_or_app. right.
  rewrite <- (firstn_skipn batchSize (skipn i epics)). apply in_or_app. now left.
Qed.

Lemma forEachBatch_ok (fuel : nat) :
  forall i epics acc,
    Forall (fun epic => (Adf.depth (issueDescription epic) <= epicRoom)%nat)
           epics ->
    (List.length epics - i <= fuel)%nat ->
    exists results,
      forEachBatch plus searchChildren epicRoom childRoom fuel i epics acc
      = Some (Ok (acc ++ results))
      /\ map jiraId results = map key (skipn i epics).
Proof.
  induction fuel as [|fuel IH]; intros i epics acc Hwithin Hfuel.
  - cbn [forEachBatch].
    assert (Hi : (i <? List.length epics)%nat = false) by (apply Nat.ltb_ge; lia).
    rewrite Hi. exists []. rewrite app_nil_r, skipn_all2 by lia. auto.
  - cbn [forEachBatch]. destruct (i <? List.length epics)%nat eqn:Hi.
    + destruct (promiseAll_ok (firstn batchSize (skipn i epics))
                  (within_skipn i epics Hwithin))
        as (first & -> & Hfirst).
      destruct (IH (i + batchSize)%nat epics (acc ++ first) Hwithin)
        as (more & -> & Hmore).
      { unfold batchSize. lia. }
      exists (first ++ more). rewrite app_assoc. split; [reflexivity|].
      rewrite map_app, Hfirst, Hmore, <- map_app. f_equal.
      replace (i + batchSize)%nat with (batchSize + i)%nat by lia.
      rewrite <- skipn_skipn. apply firstn_skipn.
    + apply Nat.ltb_ge in Hi. exists []. rewrite app_nil_r, skipn_all2 by lia. auto.
Qed.

(** X15.  When the descriptions of the epics of the page are within
    the room on the stack, the page is answered with one aggregate per
    epic of the search answer, in the answer's order and cut to the
    limit, whatever the searches for the children and the children's
    descriptions do; the batches of ten leave neither order nor
    content changed; and [hasMore] says whether the start offset plus
    the number of aggregates is below the remote total. *)
Theorem processEpics_page :
  forall (issues : option (list Issue)) (total limit startAt fuel : nat),
    (limit <= fuel)%nat ->
    Forall (fun epic => (Adf.depth (issueDescription epic) <= epicRoom)%nat)
           (firstn limit (match issues with Some l => l | None => [] end)) ->
    exists response,
      processEpics plus searchChildren epicRoom childRoom fuel issues
                   total limit startAt
      = Some (Ok response)
      /\ map jiraId (epics response)
         = map key (firstn limit (match issues with Some l => l | None => [] end))
      /\ (List.length (epics response) <= limit)%nat
      /\ pagination response
         = mkPagination limit startAt total
                        (startAt + List.length (epics response) <? total)%nat.
Proof.
  intros issues total limit startAt fuel Hfuel Hwithin. unfold processEpics.
  set (page := firstn limit (match issues with Some l => l | None => [] end)) in *.
  assert (Hlen : (List.length page <= limit)%nat) by apply firstn_le_length.
  destruct (forEachBatch_ok fuel 0 page [] Hwithin) as (results & -> & Hkeys);
    [lia|].
  cbn [app skipn] in *. eexists. split; [reflexivity|].
  cbn [epics pagination]. split; [exact Hkeys|]. split; [|reflexivity].
  rewrite <- (length_map jiraId), Hkeys, length_map. exact Hlen.
Qed.

End EpicsImportProperties.

Section EpicsImportExamples.
Import StoryPoints EpicsImport.

Lemma checkoutStories_within :
  Forall (fun issue => (Adf.depth (issueDescription issue) <= 8)%nat)
         checkoutStories.
Proof. repeat constructor. Qed.

Lemma processEpicWithChildren_totals_witness :
  exists e,
    processEpicWithChildren exactPlus checkoutService 8 8 checkoutEpic = Ok e
    /\ totalStoryPoints e = Fin 8 /\ completedStoryPoints e = Fin 3
    /\ map childStatus (children e) = ["Completed"; "Completed"].
Proof.
  assert (Hepic : (Adf.depth (issueDescription checkoutEpic) <= 8)%nat)
    by (vm_compute; lia).
  destruct (processEpicWithChildren_totals exactPlus checkoutService 8 8
              checkoutEpic (Some checkoutStories) Hepic checkoutStories_within
              eq_refl) as (e & He & _).
  exists e. split; [exact He|]. vm_compute in He. injection He as <-.
  repeat split.
Defined.

Lemma processEpicWithChildren_isolates_failure_witness :
  exists e,
    processEpicWithChildren exactPlus checkoutService 8 8
      (mkIssue "REF-20" "Search" Adf.Nullish "To Do" VNull) = Ok e
    /\ children e = [].
Proof.
  assert (Hepic : (Adf.depth Adf.Nullish <= 8)%nat) by (vm_compute; lia).
  destruct (processEpicWithChildren_isolates_failure exactPlus checkoutService 8 8
              (mkIssue "REF-20" "Search" Adf.Nullish "To Do" VNull)
              "Jira API error: 502" Hepic eq_refl)
    as (e & He & _ & _ & _ & Hc & _).
  exists e. auto.
Defined.

Lemma processEpicWithChildren_overflow_witness :
  processEpicWithChildren exactPlus checkoutService 2 8
    (mkIssue "REF-30" "Deep" (Adf.nested 2) "To Do" VNull)
  = Throw Adf.rangeError.
Proof.
  refine (proj1 (processEpicWithChildren_overflow exactPlus checkoutService 2 8
                   (mkIssue "REF-30" "Deep" (Adf.nested 2) "To Do" VNull)) _).
  vm_compute. lia.
Defined.

Lemma processEpics_page_witness :
  exists response,
    processEpics exactPlus checkoutService 8 8 25
                 (Some [checkoutEpic;
                        mkIssue "REF-20" "Search" Adf.Nullish "To Do" VNull])
                 7 25 5
    = Some (Ok response)
    /\ map jiraId (epics response) = ["REF-10"; "REF-20"]
    /\ hasMore (pagination response) = false.
Proof.
  assert (Hwithin :
    Forall (fun epic => (Adf.depth (issueDescription epic) <= 8)%nat)
           (firstn 25 [checkoutEpic;
                       mkIssue "REF-20" "Search" Adf.Nullish "To Do" VNull])).
  { repeat constructor. }
  destruct (processEpics_page exactPlus checkoutService 8 8
              (Some [checkoutEpic;
                     mkIssue "REF-20" "Search" Adf.Nullish "To Do" VNull])
              7 25 5 25 (le_n 25) Hwithin)
    as (response & Hrun & Hkeys & _ & Hpage).
  exists response. split; [exact Hrun|]. split; [exact Hkeys|].
  vm_compute in Hrun. injection Hrun as <-. reflexivity.
Defined.

End EpicsImportExamples.

(** *** Persisting completed tickets *)

Section TicketSyncProperties.
Import StoryPoints SprintMatcher TicketSync.

Variable accepts : JsNumber -> bool.
Variable stack : nat.
Variable findFirst : FindFirst.

Local Open Scope nat_scope.

Lemma markCompleted_keeps_key (ticketKey : string) (w0 w : WorkItemRow) :
  hasJiraId ticketKey
    (if (rowId w =? rowId w0)%nat then markCompleted w else w)
  = hasJiraId ticketKey w.
Proof. now destruct (rowId w =? rowId w0)%nat. Qed.

Lemma find_marked (ticketKey : string) (w0 : WorkItemRow) (rows : list WorkItemRow) :
  List.find (hasJiraId ticketKey) rows = Some w0 ->
  List.find (hasJiraId ticketKey)
    (map (fun w => if (rowId w =? rowId w0)%nat then markCompleted w else w) rows)
  = Some (markCompleted w0).
Proof.
  induction rows as [|x rest IH]; [discriminate|].
  cbn [List.find map]. rewrite markCompleted_keeps_key.
  destruct (hasJiraId ticketKey x) eqn:Hx.
  - intros [= ->]. now rewrite Nat.eqb_refl.
  - exact IH.
Qed.

Lemma ticketRows_marked (ticketKey : string) (w0 : WorkItemRow) (rows : list WorkItemRow) :
  List.length (filter (hasJiraId ticketKey)
            (map (fun w => if (rowId w =? rowId w0)%nat then markCompleted w else w) rows))
  = List.length (filter (hasJiraId ticketKey) rows).
Proof.
  induction rows as [|x rest IH]; [reflexivity|].
  cbn [filter map]. rewrite markCompleted_keeps_key.
  destruct (hasJiraId ticketKey x); cbn [List.length]; now rewrite IH.
Qed.

Lemma assigned_found (sprintId workItemId : nat) (a : nat * nat) (l : list (nat * nat)) :
  List.find (assigned sprintId workItemId) l = Some a ->
  a = (sprintId, workItemId) /\ In (sprintId, workItemId) l.
Proof.
  intros H. apply find_some in H. destruct H as [Hin Ha].
  unfold assigned in Ha. apply andb_prop in Ha. destruct Ha as [H1 H2].
  apply Nat.eqb_eq in H1, H2. destruct a as [x y]. cbn in H1, H2. subst.
  now split.
Qed.

Lemma assigned_appended (sprintId workItemId : nat) (l : list (nat * nat)) :
  List.find (assigned sprintId workItemId) l = None ->
  List.find (assigned sprintId workItemId) (l ++ [(sprintId, workItemId)])
  = Some (sprintId, workItemId).
Proof.
  induction l as [|x rest IH]; cbn [List.find app].
  - intros _. unfold assigned. cbn [fst snd]. now rewrite !Nat.eqb_refl.
  - destruct (assigned sprintId workItemId x); [discriminate|]. exact IH.
Qed.

Lemma hasJiraId_eq (ticketKey : string) (w : WorkItemRow) :
  hasJiraId ticketKey w = true <-> jiraId w = Some ticketKey.
Proof.
  unfold hasJiraId. destruct (jiraId w) as [j|]; [|split; discriminate].
  rewrite String.eqb_eq. split; [now intros ->|now intros [= ->]].
Qed.

Lemma marked_in (w0 : WorkItemRow) (rows : list WorkItemRow) :
  In w0 rows ->
  In (markCompleted w0)
     (map (fun w => if (rowId w =? rowId w0)%nat then markCompleted w else w) rows).
Proof.
  intros Hin. apply in_map_iff. exists w0. split; [|assumption].
  now rewrite Nat.eqb_refl.
Qed.

(** What [findFirst] answers on a key: a row of the key when there is
    one, whichever the store chooses. *)
Lemma pick_ticket (ticketKey : string) (rows : list WorkItemRow) :
  match pick findFirst (hasJiraId ticketKey) rows with
  | Some w => In w rows /\ jiraId w = Some ticketKey
  | None => filter (hasJiraId ticketKey) rows = []
  end.
Proof.
  destruct (pick findFirst (hasJiraId ticketKey) rows) as [w|] eqn:E.
  - apply pick_some in E. destruct E as [Hin Hw]. split; [assumption|].
    now apply hasJiraId_eq.
  - apply filter_nothing. exact (pick_none findFirst _ _ E).
Qed.

(** A successful [persist] names a completed work item of the ticket
    that the store holds, assigned to the target sprint. *)
Lemma persist_inv (jiraIssue : CompletedIssue) (targetSprint : Db.Sprint)
    (db db' : SyncDb) (r : SyncResult) :
  persist accepts stack findFirst jiraIssue targetSprint db = Ok (r, db') ->
  exists w points,
    r = Synced (key (ticket jiraIssue)) (Db.name targetSprint)
               (Db.id targetSprint) (rowId w) points
    /\ points = (if truthyPoints (storyPointsField jiraIssue)
                 then storyPointsField jiraIssue else PValue (VNumber (Fin 1)))
    /\ In w (workItems db')
    /\ jiraId w = Some (key (ticket jiraIssue))
    /\ status w = "Completed"
    /\ List.find (assigned (Db.id targetSprint) (rowId w)) (sprintWorkItems db')
       = Some (Db.id targetSprint, rowId w).
Proof.
  unfold persist.
  set (points := if truthyPoints (storyPointsField jiraIssue)
                 then storyPointsField jiraIssue else PValue (VNumber (Fin 1))).
  set (k := key (ticket jiraIssue)).
  assert (Hassign : forall w db1,
    In w (workItems db1) -> jiraId w = Some k -> status w = "Completed" ->
    Ok (Synced k (Db.name targetSprint) (Db.id targetSprint) (rowId w) points,
        match List.find (assigned (Db.id targetSprint) (rowId w))
                        (sprintWorkItems db1) with
        | Some _ => db1
        | None =>
            mkSyncDb (workItems db1)
              (sprintWorkItems db1 ++ [(Db.id targetSprint, rowId w)])
              (nextWorkItemId db1)
        end) = Ok (r, db') ->
    exists w points0,
      r = Synced k (Db.name targetSprint) (Db.id targetSprint) (rowId w) points0
      /\ points0 = points
      /\ In w (workItems db')
      /\ jiraId w = Some k
      /\ status w = "Completed"
      /\ List.find (assigned (Db.id targetSprint) (rowId w)) (sprintWorkItems db')
         = Some (Db.id targetSprint, rowId w)).
  { intros w db1 Hin Hkey Hstatus Hres. exists w, points.
    destruct (List.find (assigned (Db.id targetSprint) (rowId w))
                        (sprintWorkItems db1)) as [a|] eqn:Ea.
    - injection Hres as <- <-. destruct (assigned_found _ _ _ _ Ea) as [-> _].
      repeat split; assumption.
    - injection Hres as <- <-. cbn [workItems sprintWorkItems].
      repeat split; try assumption. now apply assigned_appended. }
  pose proof (pick_ticket k (workItems db)) as Hpick.
  destruct (pick findFirst (hasJiraId k) (workItems db)) as [w0|].
  - destruct Hpick as [Hin Hkey].
    destruct (String.eqb (status w0) "Completed") eqn:Es; cbn [bind].
    + apply String.eqb_eq in Es. intros H. exact (Hassign w0 db Hin Hkey Es H).
    + intros H.
      refine (Hassign (markCompleted w0) _ _ Hkey eq_refl H).
      cbn [workItems]. now apply marked_in.
  - destruct (Adf.extractTextFromADF stack (issueDescription jiraIssue))
      as [text|e]; [|discriminate]. cbn [bind].
    unfold createWorkItem.
    destruct points as [b|[| |str|n|]]; try discriminate.
    destruct (updated (ticket jiraIssue)) as [u|]; [|discriminate].
    destruct (accepts n); [|discriminate]. cbn [bind].
    intros H.
    match type of H with
    | context [rowId ?w] =>
        refine (Hassign w _ _ eq_refl eq_refl H)
    end.
    cbn [workItems]. apply in_or_app. right. now left.
Qed.

(** How a successful [persist] changes the two tables. *)
Lemma persist_store (jiraIssue : CompletedIssue) (targetSprint : Db.Sprint)
    (db db' : SyncDb) (r : SyncResult) :
  persist accepts stack findFirst jiraIssue targetSprint db = Ok (r, db') ->
  (workItems db' = workItems db
   \/ (exists w0, workItems db'
         = map (fun w => if (rowId w =? rowId w0)%nat then markCompleted w else w)
               (workItems db))
   \/ (exists w, ticketRows (key (ticket jiraIssue)) db = []
         /\ jiraId w = Some (key (ticket jiraIssue))
         /\ workItems db' = workItems db ++ [w]))
  /\ (sprintWorkItems db' = sprintWorkItems db
      \/ exists a, sprintWorkItems db' = sprintWorkItems db ++ [a]).
Proof.
  unfold persist.
  pose proof (pick_ticket (key (ticket jiraIssue)) (workItems db)) as Hpick.
  destruct (pick findFirst (hasJiraId (key (ticket jiraIssue))) (workItems db))
    as [w0|].
  - destruct (String.eqb (status w0) "Completed"); cbn [bind];
      match goal with
      | |- context [List.find (assigned ?a ?b) ?l] =>
          destruct (List.find (assigned a b) l)
      end; intros [= <- <-]; cbn [workItems sprintWorkItems];
      (split;
       [first [now left | right; left; eexists; reflexivity]
       |first [now left | right; eexists; reflexivity]]).
  - destruct (Adf.extractTextFromADF stack (issueDescription jiraIssue))
      as [text|e]; [|discriminate]. cbn [bind].
    unfold createWorkItem.
    destruct (if truthyPoints (storyPointsField jiraIssue)
              then storyPointsField jiraIssue else PValue (VNumber (Fin 1)))
      as [b|[| |str|n|]]; try discriminate.
    destruct (updated (ticket jiraIssue)) as [u|]; [|discriminate].
    destruct (accepts n); [|discriminate]. cbn [bind].
    match goal with
    | |- context [List.find (assigned ?a ?b) ?l] =>
        destruct (List.find (assigned a b) l)
    end; intros [= <- <-]; cbn [workItems sprintWorkItems];
      (split;
       [right; right; eexists; (split; [exact Hpick|split; [|reflexivity]]);
        reflexivity
       |first [now left | right; eexists; reflexivity]]).
Qed.

(** Nothing a successful sync of one ticket has established is undone
    by the sync of another. *)
Lemma persist_keeps_backed (jiraIssue : CompletedIssue) (targetSprint : Db.Sprint)
    (db db' : SyncDb) (r r0 : SyncResult) :
  persist accepts stack findFirst jiraIssue targetSprint db = Ok (r, db') ->
  backed db r0 -> backed db' r0.
Proof.
  intros H. destruct (persist_store _ _ _ _ _ H) as [Hrows Hassign].
  destruct r0 as [k0|k0 sn sid wid pts|k0 m]; cbn [backed]; try exact (fun x => x).
  intros [Hin (w & Hw & Hid & Hk & Hs)]. split.
  - destruct Hassign as [->|[a ->]]; [assumption|]. apply in_or_app. now left.
  - destruct Hrows as [->|[[w0 ->]|(w1 & _ & _ & ->)]].
    + exists w. repeat split; assumption.
    + exists (if (rowId w =? rowId w0)%nat then markCompleted w else w).
      split; [|destruct (rowId w =? rowId w0)%nat; repeat split; assumption].
      exact (in_map (fun w => if (rowId w =? rowId w0)%nat
                              then markCompleted w else w) _ _ Hw).
    + exists w. repeat split; try assumption. apply in_or_app. now left.
Qed.

Lemma persist_backed (jiraIssue : CompletedIssue) (targetSprint : Db.Sprint)
    (db db' : SyncDb) (r : SyncResult) :
  persist accepts stack findFirst jiraIssue targetSprint db = Ok (r, db') ->
  backed db' r.
Proof.
  intros H.
  destruct (persist_inv _ _ _ _ _ H) as (w & pts & -> & _ & Hin & Hk & Hs & Ha).
  cbn [backed]. split.
  - now destruct (assigned_found _ _ _ _ Ha).
  - exists w. repeat split; assumption.
Qed.

(** The rows of a key after a successful [persist]: never fewer, and
    one more only when there was none. *)
Lemma persist_ticketRows (jiraIssue : CompletedIssue) (targetSprint : Db.Sprint)
    (db db' : SyncDb) (r : SyncResult) (ticketKey : string) :
  persist accepts stack findFirst jiraIssue targetSprint db = Ok (r, db') ->
  List.length (ticketRows ticketKey db) <= List.length (ticketRows ticketKey db')
  /\ List.length (ticketRows ticketKey db')
     <= Nat.max 1 (List.length (ticketRows ticketKey db)).
Proof.
  intros H. destruct (persist_store _ _ _ _ _ H) as [Hrows _]. unfold ticketRows.
  destruct Hrows as [->|[[w0 ->]|(w1 & Hnone & Hk & ->)]].
  - lia.
  - rewrite ticketRows_marked. lia.
  - rewrite filter_app, length_app. cbn [filter].
    destruct (hasJiraId ticketKey w1) eqn:E; cbn [List.length]; [|lia].
    apply hasJiraId_eq in E. rewrite Hk in E. injection E as <-.
    unfold ticketRows in Hnone. rewrite Hnone. cbn [List.length]. lia.
Qed.

Lemma syncTicket_key (jiraIssue : CompletedIssue) (pastSprints : list Db.Sprint)
    (db db' : SyncDb) (r : SyncResult) :
  syncTicket accepts stack findFirst jiraIssue pastSprints db = Ok (r, db') ->
  ticketKeyOf r = key (ticket jiraIssue).
Proof.
  unfold syncTicket.
  destruct (syncCompletedTicketToSprint (ticket jiraIssue) pastSprints) as [|s].
  - now intros [= <- <-].
  - intros H. now destruct (persist_inv _ _ _ _ _ H) as (w & pts & -> & _).
Qed.

Lemma seen_iff (k : string) (seen : list string) :
  existsb (String.eqb k) seen = true <-> In k seen.
Proof.
  rewrite existsb_exists. split.
  - intros (x & Hin & Hx). apply String.eqb_eq in Hx. now subst.
  - intros Hin. exists k. split; [assumption|apply String.eqb_refl].
Qed.

Lemma firstOccurrences_fresh (keys seen : list string) :
  NoDup (firstOccurrences seen keys)
  /\ forall k, In k (firstOccurrences seen keys) <-> In k keys /\ ~ In k seen.
Proof.
  revert seen. induction keys as [|k0 rest IH]; intros seen; cbn [firstOccurrences].
  - split; [constructor|]. intros k. cbn [In]. tauto.
  - destruct (existsb (String.eqb k0) seen) eqn:E.
    + apply seen_iff in E. destruct (IH seen) as [Hnd Hin]. split; [assumption|].
      intros k. rewrite Hin. cbn [In]. split; [tauto|].
      intros [[<-|Hk] Hs]; [contradiction|tauto].
    + assert (Hs : ~ In k0 seen).
      { intros Hin. apply seen_iff in Hin. congruence. }
      destruct (IH (seen ++ [k0])) as [Hnd Hin]. split.
      * constructor; [|assumption]. rewrite Hin. intros [_ Hn]. apply Hn.
        apply in_or_app. right. now left.
      * intros k. cbn [In]. rewrite Hin, in_app_iff. cbn [In].
        destruct (string_dec k0 k) as [<-|Hne]; [tauto|]. tauto.
Qed.

Lemma forEachIssue_keys (issues : list CompletedIssue) (pastSprints : list Db.Sprint) :
  forall processedTickets syncResults db,
    map ticketKeyOf (fst (forEachIssue accepts stack findFirst issues pastSprints
                                       processedTickets syncResults db))
    = (map ticketKeyOf syncResults
       ++ firstOccurrences processedTickets
            (map (fun issue => key (ticket issue)) issues))%list.
Proof.
  induction issues as [|issue rest IH]; intros processedTickets syncResults db;
    cbn [forEachIssue firstOccurrences map fst].
  - now rewrite app_nil_r.
  - destruct (existsb (String.eqb (key (ticket issue))) processedTickets);
      [apply IH|].
    destruct (syncTicket accepts stack findFirst issue pastSprints db)
      as [[r db1]|e] eqn:Es;
      rewrite IH, map_app, <- app_assoc; cbn [map app ticketKeyOf];
      [now rewrite (syncTicket_key _ _ _ _ _ Es)|reflexivity].
Qed.

Lemma syncTicket_steps (jiraIssue : CompletedIssue) (pastSprints : list Db.Sprint)
    (db db' : SyncDb) (r : SyncResult) :
  syncTicket accepts stack findFirst jiraIssue pastSprints db = Ok (r, db') ->
  backed db' r
  /\ (forall r0, backed db r0 -> backed db' r0)
  /\ forall ticketKey,
       List.length (ticketRows ticketKey db) <= List.length (ticketRows ticketKey db')
       /\ List.length (ticketRows ticketKey db')
          <= Nat.max 1 (List.length (ticketRows ticketKey db)).
Proof.
  unfold syncTicket.
  destruct (syncCompletedTicketToSprint (ticket jiraIssue) pastSprints) as [|s].
  - intros [= <- <-]. cbn [backed]. repeat split; auto; lia.
  - intros H. split; [exact (persist_backed _ _ _ _ _ H)|]. split.
    + intros r0. exact (persist_keeps_backed _ _ _ _ _ r0 H).
    + intros ticketKey. exact (persist_ticketRows _ _ _ _ _ ticketKey H).
Qed.

Lemma forEachIssue_backed (issues : list CompletedIssue) (pastSprints : list Db.Sprint) :
  forall processedTickets syncResults db,
    Forall (backed db) syncResults ->
    Forall (backed (snd (forEachIssue accepts stack findFirst issues pastSprints
                                      processedTickets syncResults db)))
           (fst (forEachIssue accepts stack findFirst issues pastSprints
                              processedTickets syncResults db)).
Proof.
  induction issues as [|issue rest IH]; intros processedTickets syncResults db Hb;
    cbn [forEachIssue]; [exact Hb|].
  destruct (existsb (String.eqb (key (ticket issue))) processedTickets);
    [now apply IH|].
  destruct (syncTicket accepts stack findFirst issue pastSprints db)
    as [[r db1]|e] eqn:Es;
    apply IH; apply Forall_app; split.
  - destruct (syncTicket_steps _ _ _ _ _ Es) as (_ & Hkeep & _).
    eapply Forall_impl; [exact Hkeep|exact Hb].
  - constructor; [|constructor]. now destruct (syncTicket_steps _ _ _ _ _ Es).
  - exact Hb.
  - constructor; [exact I|constructor].
Qed.

Lemma forEachIssue_ticketRows (issues : list CompletedIssue)
    (pastSprints : list Db.Sprint) (ticketKey : string) :
  forall processedTickets syncResults db,
    List.length (ticketRows ticketKey db)
    <= List.length (ticketRows ticketKey
         (snd (forEachIssue accepts stack findFirst issues pastSprints
                            processedTickets syncResults db)))
    /\ List.length (ticketRows ticketKey
         (snd (forEachIssue accepts stack findFirst issues pastSprints
                            processedTickets syncResults db)))
       <= Nat.max 1 (List.length (ticketRows ticketKey db)).
Proof.
  induction issues as [|issue rest IH]; intros processedTickets syncResults db;
    cbn [forEachIssue snd]; [lia|].
  destruct (existsb (String.eqb (key (ticket issue))) processedTickets);
    [apply IH|].
  destruct (syncTicket accepts stack findFirst issue pastSprints db)
    as [[r db1]|e] eqn:Es;
    [|apply IH].
  destruct (syncTicket_steps _ _ _ _ _ Es) as (_ & _ & Hrows).
  specialize (Hrows ticketKey).
  specialize (IH (processedTickets ++ [key (ticket issue)])%list
                 (syncResults ++ [r])%list db1).
  lia.
Qed.

(** When a key has at most one row, two rows of the key are one. *)
Lemma only_row (ticketKey : string) (rows : list WorkItemRow) (w w' : WorkItemRow) :
  List.length (filter (hasJiraId ticketKey) rows) <= 1 ->
  In w rows -> jiraId w = Some ticketKey ->
  In w' rows -> jiraId w' = Some ticketKey ->
  w = w'.
Proof.
  intros Hlen Hw Hk Hw' Hk'.
  assert (H1 : In w (filter (hasJiraId ticketKey) rows)).
  { apply filter_In. split; [assumption|now apply hasJiraId_eq]. }
  assert (H2 : In w' (filter (hasJiraId ticketKey) rows)).
  { apply filter_In. split; [assumption|now apply hasJiraId_eq]. }
  destruct (filter (hasJiraId ticketKey) rows) as [|x [|y rest]];
    cbn [List.length] in Hlen; [destruct H1| |lia].
  destruct H1 as [<-|[]], H2 as [<-|[]]. reflexivity.
Qed.

(** X16.  When a ticket is reported as synced, the report names the
    ticket and the sprint the matcher chose, and the store backs it
    whichever row its lookup returns: it holds a work item with the
    reported id that carries the ticket key and is completed, and the
    assignment of that work item to that sprint. *)
Theorem syncTicket_synced_postcondition :
  forall (jiraIssue : CompletedIssue) (pastSprints : list Db.Sprint)
         (db db' : SyncDb) (ticketKey sprintName : string)
         (sprintId workItemId : nat) (points : Points),
    syncTicket accepts stack findFirst jiraIssue pastSprints db
    = Ok (Synced ticketKey sprintName sprintId workItemId points, db') ->
    ticketKey = key (ticket jiraIssue)
    /\ (exists s, syncCompletedTicketToSprint (ticket jiraIssue) pastSprints = target s
                  /\ Db.id s = sprintId /\ Db.name s = sprintName)
    /\ (exists w, In w (workItems db') /\ rowId w = workItemId
                  /\ jiraId w = Some ticketKey /\ status w = "Completed")
    /\ In (sprintId, workItemId) (sprintWorkItems db')
    /\ points = (if truthyPoints (storyPointsField jiraIssue)
                 then storyPointsField jiraIssue else PValue (VNumber (Fin 1))).
Proof.
  intros jiraIssue pastSprints db db' ticketKey sprintName sprintId workItemId points.
  unfold syncTicket.
  destruct (syncCompletedTicketToSprint (ticket jiraIssue) pastSprints) as [|s];
    [discriminate|].
  intros H.
  destruct (persist_inv _ _ _ _ _ H) as (w & pts & E & Hp & Hin & Hk & Hs & Ha).
  injection E as -> -> -> -> ->.
  split; [reflexivity|]. split; [exists s; auto|].
  split; [exists w; auto|]. split; [|assumption].
  now destruct (assigned_found _ _ _ _ Ha).
Qed.

(** X17.  Syncing a ticket whose key at most one work item carries is
    idempotent: when a sync of the ticket has returned, syncing the
    same ticket against the same sprints again returns the same result
    and leaves the store as it is, whichever rows the lookups return. *)
Theorem syncTicket_idempotent :
  forall (jiraIssue : CompletedIssue) (pastSprints : list Db.Sprint)
         (db db' : SyncDb) (r : SyncResult),
    List.length (ticketRows (key (ticket jiraIssue)) db) <= 1 ->
    syncTicket accepts stack findFirst jiraIssue pastSprints db = Ok (r, db') ->
    syncTicket accepts stack findFirst jiraIssue pastSprints db' = Ok (r, db').
Proof.
  intros jiraIssue pastSprints db db' r Hone. unfold syncTicket.
  destruct (syncCompletedTicketToSprint (ticket jiraIssue) pastSprints) as [|s].
  - now intros [= <- <-].
  - intros H.
    pose proof (persist_ticketRows _ _ _ _ _ (key (ticket jiraIssue)) H) as [_ Hle].
    destruct (persist_inv _ _ _ _ _ H) as (w & pts & -> & -> & Hin & Hk & Hs & Ha).
    unfold persist.
    pose proof (pick_ticket (key (ticket jiraIssue)) (workItems db')) as Hpick.
    destruct (pick findFirst (hasJiraId (key (ticket jiraIssue))) (workItems db'))
      as [w'|].
    + destruct Hpick as [Hin' Hk'].
      assert (Hsame : w' = w).
      { apply (only_row (key (ticket jiraIssue)) (workItems db')); try assumption.
        unfold ticketRows in Hle, Hone. lia. }
      subst w'. rewrite Hs. cbn [String.eqb bind]. cbn. now rewrite Ha.
    + exfalso. assert (Hw : In w (filter (hasJiraId (key (ticket jiraIssue)))
                                         (workItems db'))).
      { apply filter_In. split; [assumption|now apply hasJiraId_eq]. }
      rewrite Hpick in Hw. destruct Hw.
Qed.

(** X18.  The sync loop never deletes a work item of a ticket key and
    never adds one to a key that already has one: for every key the
    number of its work items does not decrease, and ends at most at
    one unless it was already larger. *)
Theorem forEachIssue_one_row_per_ticket :
  forall (issues : list CompletedIssue) (pastSprints : list Db.Sprint)
         (db : SyncDb) (ticketKey : string),
    List.length (ticketRows ticketKey db)
    <= List.length (ticketRows ticketKey
         (snd (forEachIssue accepts stack findFirst issues pastSprints [] [] db)))
    /\ List.length (ticketRows ticketKey
         (snd (forEachIssue accepts stack findFirst issues pastSprints [] [] db)))
       <= Nat.max 1 (List.length (ticketRows ticketKey db)).
Proof.
  intros issues pastSprints db ticketKey. apply forEachIssue_ticketRows.
Qed.

(** X19.  The sync loop reports exactly one result per distinct ticket
    key, in the order of the keys' first occurrence, whether the sync
    of a ticket returns or throws. *)
Theorem forEachIssue_one_result_per_key :
  forall (issues : list CompletedIssue) (pastSprints : list Db.Sprint) (db : SyncDb),
    let keys := map ticketKeyOf
                    (fst (forEachIssue accepts stack findFirst issues pastSprints
                                       [] [] db)) in
    keys = firstOccurrences [] (map (fun issue => key (ticket issue)) issues)
    /\ NoDup keys
    /\ forall k, In k keys <-> In k (map (fun issue => key (ticket issue)) issues).
Proof.
  intros issues pastSprints db keys. subst keys. rewrite forEachIssue_keys.
  cbn [map app].
  destruct (firstOccurrences_fresh (map (fun issue => key (ticket issue)) issues) [])
    as [Hnd Hin].
  split; [reflexivity|]. split; [assumption|].
  intros k. rewrite Hin. cbn [In]. tauto.
Qed.

(** X20.  After the sync loop every [synced] result is backed by the
    final store: a later ticket never undoes what an earlier one
    established. *)
Theorem forEachIssue_results_backed :
  forall (issues : list CompletedIssue) (pastSprints : list Db.Sprint) (db : SyncDb),
    Forall (backed (snd (forEachIssue accepts stack findFirst issues pastSprints
                                      [] [] db)))
           (fst (forEachIssue accepts stack findFirst issues pastSprints [] [] db)).
Proof.
  intros issues pastSprints db. apply forEachIssue_backed. constructor.
Qed.

(** X21.  Syncing a ticket throws exactly when a sprint is found for
    it, the store has no work item of its key, and either its
    description is nested beyond the room on the stack, or the new row
    is refused: its estimate is not a number the store takes, or its
    update time is not a valid date. *)
Theorem syncTicket_throws_iff :
  forall (jiraIssue : CompletedIssue) (pastSprints : list Db.Sprint) (db : SyncDb),
    (exists e, syncTicket accepts stack findFirst jiraIssue pastSprints db = Throw e)
    <->
    (syncCompletedTicketToSprint (ticket jiraIssue) pastSprints <> no_sprint_found
     /\ ticketRows (key (ticket jiraIssue)) db = []
     /\ (stack < Adf.depth (issueDescription jiraIssue)
         \/ ~ exists n u,
              (if truthyPoints (storyPointsField jiraIssue)
               then storyPointsField jiraIssue else PValue (VNumber (Fin 1)))
              = PValue (VNumber n)
              /\ accepts n = true
              /\ updated (ticket jiraIssue) = Some u)).
Proof.
  intros jiraIssue pastSprints db. unfold syncTicket.
  destruct (syncCompletedTicketToSprint (ticket jiraIssue) pastSprints) as [|s].
  - split; [intros [e H]; discriminate|]. intros [H _]. now destruct H.
  - unfold persist.
    pose proof (pick_ticket (key (ticket jiraIssue)) (workItems db)) as Hpick.
    destruct (pick findFirst (hasJiraId (key (ticket jiraIssue))) (workItems db))
      as [w0|].
    + destruct Hpick as [Hin Hk]. split.
      * intros [e H]. destruct (String.eqb (status w0) "Completed"); discriminate.
      * intros (_ & Hnone & _). exfalso.
        assert (Hw : In w0 (ticketRows (key (ticket jiraIssue)) db)).
        { apply filter_In. split; [assumption|now apply hasJiraId_eq]. }
        rewrite Hnone in Hw. destruct Hw.
    + destruct (Nat.le_gt_cases (Adf.depth (issueDescription jiraIssue)) stack)
        as [Hwithin|Hbeyond].
      2:{ rewrite (proj2 (extract_room (issueDescription jiraIssue) stack) Hbeyond).
          cbn [bind]. split; [|eauto]. intros _. split; [discriminate|].
          split; [exact Hpick|now left]. }
      destruct (extracted stack (issueDescription jiraIssue) Hwithin) as [text ->].
      cbn [bind]. unfold createWorkItem.
      destruct (if truthyPoints (storyPointsField jiraIssue)
                then storyPointsField jiraIssue else PValue (VNumber (Fin 1)))
        as [b|[| |str|n|]];
        try (split; [intros _; split; [discriminate|]; split; [exact Hpick|];
                     right; intros (n0 & u0 & Hn & _); discriminate
                    |intros _; destruct (updated (ticket jiraIssue)); cbn [bind];
                     eexists; reflexivity]).
      destruct (updated (ticket jiraIssue)) as [u|].
      * destruct (accepts n) eqn:Ea; cbn [bind].
        -- split; [intros [e H]; discriminate|].
           intros (_ & _ & [H|H]); [lia|]. destruct H. exists n, u. auto.
        -- split; [|intros _; cbn [bind]; eexists; reflexivity]. intros _.
           split; [discriminate|]. split; [exact Hpick|].
           right. intros (n0 & u0 & [= <-] & Hacc & _). congruence.
      * split; [|intros _; cbn [bind]; eexists; reflexivity]. intros _.
        split; [discriminate|]. split; [exact Hpick|].
        right. intros (n0 & u0 & _ & _ & Hu). discriminate.
Qed.

End TicketSyncProperties.

Section TicketSyncExamples.
Import StoryPoints SprintMatcher TicketSync.

Lemma syncTicket_synced_postcondition_witness :
  syncTicket storesFinite 8 inInsertionOrder loginFix [sprint12Extended; sprint12]
             emptyDb
  = Ok (Synced "REF-7" "Sprint 12 extended" 1 0 (PValue (VNumber (Fin 3))),
        afterLoginFix)
  /\ In (1, 0)%nat (sprintWorkItems afterLoginFix).
Proof.
  assert (Hrun : syncTicket storesFinite 8 inInsertionOrder loginFix
                            [sprint12Extended; sprint12] emptyDb
                 = Ok (Synced "REF-7" "Sprint 12 extended" 1 0
                              (PValue (VNumber (Fin 3))), afterLoginFix))
    by (vm_compute; reflexivity).
  split; [exact Hrun|].
  exact (proj1 (proj2 (proj2 (proj2
           (syncTicket_synced_postcondition storesFinite 8 inInsertionOrder loginFix
              [sprint12Extended; sprint12] emptyDb afterLoginFix
              "REF-7" "Sprint 12 extended" 1 0 (PValue (VNumber (Fin 3))) Hrun))))).
Defined.

Lemma syncTicket_idempotent_witness :
  syncTicket storesFinite 8 inInsertionOrder loginFix [sprint12Extended; sprint12]
             afterLoginFix
  = Ok (Synced "REF-7" "Sprint 12 extended" 1 0 (PValue (VNumber (Fin 3))),
        afterLoginFix).
Proof.
  assert (Hrun : syncTicket storesFinite 8 inInsertionOrder loginFix
                            [sprint12Extended; sprint12] emptyDb
                 = Ok (Synced "REF-7" "Sprint 12 extended" 1 0
                              (PValue (VNumber (Fin 3))), afterLoginFix))
    by (vm_compute; reflexivity).
  assert (Hone : (List.length (ticketRows (key (ticket loginFix)) emptyDb) <= 1)%nat)
    by (vm_compute; lia).
  exact (syncTicket_idempotent storesFinite 8 inInsertionOrder loginFix
           [sprint12Extended; sprint12] emptyDb afterLoginFix _ Hone Hrun).
Defined.

End TicketSyncExamples.

(** *** Writing work items *)

Section WorkItemRoutesProperties.
Import StoryPoints WorkItemRoutes.

Variable accepts : JsNumber -> bool.
Variable parseDate : string -> option Z.

Local Open Scope nat_scope.

Lemma hasId_iff (id : nat) (w : TicketSync.WorkItemRow) :
  hasId id w = true <-> TicketSync.rowId w = id.
Proof. unfold hasId. apply Nat.eqb_eq. Qed.

Lemma listed_iff (id : nat) (dependencies0 : list nat) :
  existsb (Nat.eqb id) dependencies0 = true <-> In id dependencies0.
Proof.
  rewrite existsb_exists. split.
  - intros (x & Hin & Hx). apply Nat.eqb_eq in Hx. now subst.
  - intros Hin. exists id. split; [assumption|apply Nat.eqb_refl].
Qed.

Lemma known_iff (id : nat) (db : ItemDb) :
  existsb (hasId id) (workItems db) = true <-> In id (ids db).
Proof.
  unfold ids. rewrite existsb_exists, in_map_iff. split.
  - intros (w & Hin & Hw). apply hasId_iff in Hw. eauto.
  - intros (w & Hw & Hin). exists w. split; [assumption|now apply hasId_iff].
Qed.

Lemma findUnique_known (id : nat) (db : ItemDb) (w : TicketSync.WorkItemRow) :
  findUnique id db = Some w -> TicketSync.rowId w = id /\ In id (ids db).
Proof.
  unfold findUnique. intros H. apply find_some in H. destruct H as [Hin Hw].
  apply hasId_iff in Hw. split; [assumption|]. subst id. now apply in_map.
Qed.

Lemma ids_findManyIn (dependencies0 : list nat) (db : ItemDb) :
  map TicketSync.rowId (findManyIn dependencies0 db)
  = filter (fun id => existsb (Nat.eqb id) dependencies0) (ids db).
Proof.
  unfold findManyIn, ids. induction (workItems db) as [|w rest IH]; [reflexivity|].
  cbn [filter map].
  destruct (existsb (Nat.eqb (TicketSync.rowId w)) dependencies0); cbn [map];
    now rewrite IH.
Qed.

(** The length comparison of the dependency check. *)
Lemma dependencies_checked (dependencies0 : list nat) (db : ItemDb) :
  NoDup (ids db) ->
  (List.length (findManyIn dependencies0 db) =? List.length dependencies0) = true
  <-> NoDup dependencies0 /\ forall id, In id dependencies0 -> In id (ids db).
Proof.
  intros Hids. rewrite Nat.eqb_eq, <- (length_map TicketSync.rowId), ids_findManyIn.
  set (found := filter (fun id => existsb (Nat.eqb id) dependencies0) (ids db)).
  assert (Hnd : NoDup found) by now apply NoDup_filter.
  assert (Hsub : incl found dependencies0).
  { intros id Hin. apply filter_In in Hin. now apply listed_iff. }
  split.
  - intros Hlen.
    assert (Hall : incl dependencies0 found).
    { apply NoDup_length_incl; [assumption|lia|assumption]. }
    split.
    + apply NoDup_incl_NoDup with (l := found); [assumption|lia|assumption].
    + intros id Hin. apply Hall in Hin. now apply filter_In in Hin.
  - intros [Hdeps Hexist].
    assert (Hall : incl dependencies0 found).
    { intros id Hin. apply filter_In. split; [now apply Hexist|now apply listed_iff]. }
    apply Nat.le_antisymm; now apply NoDup_incl_length.
Qed.

(** X22.  The dependency check of POST and PUT compares two lengths;
    it passes exactly when every listed id names a work item and no id
    is listed twice, so that a list naming an existing work item twice
    is refused as naming work items that do not exist. *)
Theorem dependency_check_iff :
  forall (dependencies0 : list nat) (db : ItemDb),
    NoDup (ids db) ->
    (List.length (findManyIn dependencies0 db) =? List.length dependencies0) = true
    <-> NoDup dependencies0 /\ forall id, In id dependencies0 -> In id (ids db).
Proof.
  intros dependencies0 db Hids. now apply dependencies_checked.
Qed.

Lemma samePair_iff (a b : nat * nat) : samePair a b = true <-> a = b.
Proof.
  unfold samePair. rewrite andb_true_iff, !Nat.eqb_eq.
  destruct a as [a1 a2], b as [b1 b2]. cbn [fst snd].
  split; [intros [-> ->]; reflexivity|intros [= -> ->]; now split].
Qed.

Lemma distinctPairs_iff (rows : list (nat * nat)) :
  distinctPairs rows = true <-> NoDup rows.
Proof.
  induction rows as [|a rest IH]; cbn [distinctPairs].
  - split; [constructor|reflexivity].
  - rewrite andb_true_iff, negb_true_iff, IH. split.
    + intros [Hnew Hrest]. constructor; [|assumption]. intros Hin.
      assert (E : existsb (samePair a) rest = true).
      { apply existsb_exists. exists a. split; [assumption|now apply samePair_iff]. }
      congruence.
    + intros H. inversion H as [|? ? Hnotin Hrest]; subst. split; [|assumption].
      destruct (existsb (samePair a) rest) eqn:E; [|reflexivity].
      apply existsb_exists in E. destruct E as (b & Hin & Hb).
      apply samePair_iff in Hb. now subst.
Qed.

Lemma createMany_ok (rows : list (nat * nat)) (db : ItemDb) :
  NoDup (workItemDependencies db ++ rows) ->
  (forall a b, In (a, b) rows -> In a (ids db) /\ In b (ids db)) ->
  createMany rows db
  = Ok (mkItemDb (workItems db) (workItemDependencies db ++ rows)
                 (nextWorkItemId db)).
Proof.
  intros Hnd Hfk. unfold createMany.
  apply distinctPairs_iff in Hnd. rewrite Hnd. cbn [negb].
  replace (forallb _ rows) with true; [reflexivity|].
  symmetry. apply forallb_forall. intros [a b] Hin. cbn [fst snd].
  destruct (Hfk a b Hin) as [Ha Hb]. apply known_iff in Ha, Hb. now rewrite Ha, Hb.
Qed.

Lemma createMany_inv (rows : list (nat * nat)) (db db' : ItemDb) :
  createMany rows db = Ok db' ->
  db' = mkItemDb (workItems db) (workItemDependencies db ++ rows)
                 (nextWorkItemId db).
Proof.
  unfold createMany.
  destruct (negb (distinctPairs (workItemDependencies db ++ rows))); [discriminate|].
  destruct (negb (forallb _ rows)); [discriminate|]. now intros [= <-].
Qed.

Lemma pairs_distinct (id : nat) (dependencies0 : list nat) :
  NoDup dependencies0 -> NoDup (map (fun depId => (id, depId)) dependencies0).
Proof.
  induction 1 as [|d rest Hnotin _ IH]; cbn [map]; constructor; [|assumption].
  rewrite in_map_iff. intros (x & [= ->] & Hin). contradiction.
Qed.

Lemma pairs_added (id : nat) (dependencies0 : list nat) (kept : list (nat * nat)) :
  NoDup kept -> NoDup dependencies0 ->
  (forall depId, ~ In (id, depId) kept) ->
  NoDup (kept ++ map (fun depId => (id, depId)) dependencies0).
Proof.
  intros Hkept Hdeps Hfresh. apply NoDup_app; [assumption|now apply pairs_distinct|].
  intros [a b] Hin. rewrite in_map_iff. intros (d & [= <- <-] & _).
  exact (Hfresh d Hin).
Qed.

(** What the guard on the dependencies of POST lets through. *)
Lemma post_dependencies_checked (dependencies0 : list nat) (db : ItemDb) :
  NoDup (ids db) ->
  (0 <? List.length dependencies0)
  && negb (List.length (findManyIn dependencies0 db) =? List.length dependencies0)
  = false ->
  NoDup dependencies0 /\ forall id, In id dependencies0 -> In id (ids db).
Proof.
  intros Hids H. destruct dependencies0 as [|d rest].
  - split; [constructor|intros id []].
  - cbn [List.length Nat.ltb Nat.leb andb] in H. apply negb_false_iff in H.
    now apply dependencies_checked.
Qed.

Lemma postTransaction_inv (body : WorkItemData) (dependencies0 : list nat)
    (status0 : string) (isEpic0 : bool) (db db' : ItemDb)
    (w : TicketSync.WorkItemRow) :
  postTransaction accepts parseDate body dependencies0 status0 isEpic0 db
  = Ok (w, db') ->
  TicketSync.rowId w = nextWorkItemId db
  /\ TicketSync.isEpic w = isEpic0
  /\ TicketSync.jiraId w = orNull (jiraId body)
  /\ db' = mkItemDb (workItems db ++ [w])
                    (workItemDependencies db
                     ++ map (fun depId => (nextWorkItemId db, depId)) dependencies0)
                    (S (nextWorkItemId db)).
Proof.
  unfold postTransaction, checked, newDate.
  destruct (title body) as [t|]; [|discriminate].
  destruct (estimateStoryPoints body) as [n|]; [|discriminate].
  destruct (requiredCompletionDate body) as [d|]; [|discriminate].
  destruct (requiredSkills body) as [skills|]; [|discriminate].
  destruct (accepts n); [|discriminate].
  destruct (parseDate d) as [date|]; [|discriminate]. cbn [bind TicketSync.rowId].
  destruct (0 <? List.length dependencies0) eqn:El.
  - match goal with
    | |- context [createMany ?rows ?db1] =>
        destruct (createMany rows db1) as [db2|e] eqn:Ec; [|discriminate];
        apply createMany_inv in Ec
    end.
    cbn [bind]. intros [= <- <-]. subst db2. now repeat split.
  - cbn [bind]. intros [= <- <-].
    destruct dependencies0; [|discriminate]. cbn [map]. rewrite app_nil_r.
    now repeat split.
Qed.

Lemma postTransaction_ok (body : WorkItemData) (dependencies0 : list nat)
    (status0 : string) (isEpic0 : bool) (db : ItemDb)
    (title0 date : string) (n : JsNumber) (skills : list string) :
  sound db ->
  NoDup dependencies0 ->
  (forall id, In id dependencies0 -> In id (ids db)) ->
  title body = Some title0 -> estimateStoryPoints body = Some n ->
  requiredCompletionDate body = Some date -> requiredSkills body = Some skills ->
  accepts n = true -> parseDate date <> None ->
  exists w db',
    postTransaction accepts parseDate body dependencies0 status0 isEpic0 db
    = Ok (w, db').
Proof.
  intros (Hlt & Hids & Hnd & Hpairs) Hdeps Hexist Ht Hn Hd Hs Hacc Hdate.
  unfold postTransaction, checked, newDate. rewrite Ht, Hn, Hd, Hs, Hacc.
  destruct (parseDate date) as [t|]; [|contradiction]. cbn [bind TicketSync.rowId].
  destruct (0 <? List.length dependencies0); [|cbn [bind]; eauto].
  rewrite createMany_ok; [cbn [bind]; eauto| |].
  - cbn [workItemDependencies]. apply pairs_added; try assumption.
    intros d Hin. apply Hpairs in Hin. destruct Hin as (_ & Hin & _).
    apply Hlt in Hin. lia.
  - intros a b Hin. apply in_map_iff in Hin. destruct Hin as (d & [= <- <-] & Hin).
    unfold ids. cbn [workItems]. rewrite map_app, !in_app_iff. cbn [map In].
    split; [now right; left|]. left. now apply Hexist.
Qed.

Lemma post_sound (body : WorkItemData) (db : ItemDb) :
  sound db -> sound (snd (post accepts parseDate body db)).
Proof.
  intros Hs. unfold post.
  repeat match goal with
         | |- sound (snd (if ?c then _ else _)) =>
             let E := fresh "E" in destruct c eqn:E; [exact Hs|]
         end.
  match goal with
  | |- sound (snd (match ?x with Some _ => _ | None => _ end)) =>
      destruct x; [exact Hs|]
  end.
  destruct (postTransaction accepts parseDate body (orKeep (dependencies body) [])
              (orKeep (status body) "Not Started") (orKeep (isEpic body) false) db)
    as [[w db']|m] eqn:Ht; cbn [snd]; [|exact Hs].
  destruct Hs as (Hlt & Hids & Hnd & Hpairs).
  destruct (post_dependencies_checked _ _ Hids E1) as [Hdeps Hexist].
  destruct (postTransaction_inv _ _ _ _ _ _ _ Ht) as (Hid & _ & _ & ->).
  assert (Hfresh : ~ In (nextWorkItemId db) (ids db)).
  { intros Hin. apply Hlt in Hin. lia. }
  unfold sound, ids. cbn [workItems workItemDependencies nextWorkItemId].
  rewrite map_app. cbn [map]. rewrite Hid. fold (ids db).
  split; [|split; [|split]].
  - intros id Hin. apply in_app_iff in Hin. cbn [In] in Hin.
    destruct Hin as [Hin|[<-|[]]]; [apply Hlt in Hin|]; lia.
  - apply NoDup_app; [assumption|repeat constructor; intros []|].
    intros id Hin [<-|[]]. contradiction.
  - apply pairs_added; try assumption.
    intros d Hin. apply Hpairs in Hin. now destruct Hin as (_ & Hin & _).
  - intros a b Hin. rewrite !in_app_iff. apply in_app_iff in Hin.
    destruct Hin as [Hin|Hin].
    + apply Hpairs in Hin. tauto.
    + apply in_map_iff in Hin. destruct Hin as (d & [= <- <-] & Hin).
      apply Hexist in Hin. split; [|split].
      * intros <-. contradiction.
      * right. now left.
      * now left.
Qed.

Lemma updated_id (body : WorkItemData) (old w : TicketSync.WorkItemRow) :
  updated accepts parseDate body old = Ok w ->
  TicketSync.rowId w = TicketSync.rowId old.
Proof.
  unfold updated.
  destruct (match estimateStoryPoints body with
            | Some n => checked accepts n
            | None => Ok (TicketSync.estimateStoryPoints old)
            end) as [n|e]; [|discriminate]. cbn [bind].
  destruct (match requiredCompletionDate body with
            | Some date => if JsString.truthy date then newDate parseDate date
                           else Ok (TicketSync.requiredCompletionDate old)
            | None => Ok (TicketSync.requiredCompletionDate old)
            end) as [t|e]; [|discriminate]. cbn [bind].
  now intros [= <-].
Qed.

Lemma updated_ok (body : WorkItemData) (old : TicketSync.WorkItemRow) :
  (forall n, estimateStoryPoints body = Some n -> accepts n = true) ->
  (forall date, requiredCompletionDate body = Some date -> parseDate date <> None) ->
  exists w, updated accepts parseDate body old = Ok w.
Proof.
  intros Hacc Hdate. unfold updated, checked, newDate.
  destruct (estimateStoryPoints body) as [n|];
    [rewrite (Hacc n eq_refl)|]; cbn [bind].
  all: destruct (requiredCompletionDate body) as [date|]; cbn [bind]; [|eauto].
  all: destruct (JsString.truthy date); cbn [bind]; [|eauto].
  all: specialize (Hdate date eq_refl).
  all: destruct (parseDate date); [cbn [bind]; eauto|contradiction].
Qed.

Lemma ids_replaced (id : nat) (w : TicketSync.WorkItemRow)
    (rows : list TicketSync.WorkItemRow) :
  TicketSync.rowId w = id ->
  map TicketSync.rowId (map (fun x => if hasId id x then w else x) rows)
  = map TicketSync.rowId rows.
Proof.
  intros Hw. induction rows as [|x rest IH]; [reflexivity|]. cbn [map].
  rewrite IH. destruct (hasId id x) eqn:E; [|reflexivity].
  apply hasId_iff in E. congruence.
Qed.

Lemma putTransaction_inv (id : nat) (body : WorkItemData) (db db' : ItemDb)
    (w : TicketSync.WorkItemRow) :
  putTransaction accepts parseDate id body db = Ok (w, db') ->
  In id (ids db)
  /\ ids db' = ids db
  /\ nextWorkItemId db' = nextWorkItemId db
  /\ workItemDependencies db'
     = match dependencies body with
       | Some dependencies0 =>
           filter (fun r => negb (fst r =? id)) (workItemDependencies db)
           ++ map (fun depId => (id, depId)) dependencies0
       | None => workItemDependencies db
       end.
Proof.
  unfold putTransaction.
  destruct (findUnique id db) as [old|] eqn:Ef; [|discriminate].
  destruct (findUnique_known _ _ _ Ef) as [Hold Hin].
  destruct (updated accepts parseDate body old) as [w0|e] eqn:Eu; [|discriminate].
  apply updated_id in Eu. rewrite Hold in Eu. cbn [bind].
  destruct (dependencies body) as [ds|].
  - destruct (0 <? List.length ds) eqn:El.
    + match goal with
      | |- context [createMany ?rows ?db1] =>
          destruct (createMany rows db1) as [db2|e] eqn:Ec; [|discriminate];
          apply createMany_inv in Ec
      end.
      cbn [bind]. intros [= <- <-]. subst db2. unfold ids.
      cbn [workItems workItemDependencies nextWorkItemId deleteMany].
      now rewrite ids_replaced.
    + cbn [bind]. intros [= <- <-]. destruct ds; [|discriminate]. unfold ids.
      cbn [workItems workItemDependencies nextWorkItemId deleteMany map].
      now rewrite ids_replaced, app_nil_r.
  - cbn [bind]. intros [= <- <-]. unfold ids.
    cbn [workItems workItemDependencies nextWorkItemId].
    now rewrite ids_replaced.
Qed.

Lemma kept_pairs (id : nat) (rows : list (nat * nat)) (a b : nat) :
  In (a, b) (filter (fun r => negb (fst r =? id)) rows) <-> In (a, b) rows /\ a <> id.
Proof.
  rewrite filter_In. cbn [fst]. rewrite negb_true_iff, Nat.eqb_neq. tauto.
Qed.

Lemma putTransaction_ok (id : nat) (body : WorkItemData) (db : ItemDb) :
  sound db ->
  In id (ids db) ->
  (forall n, estimateStoryPoints body = Some n -> accepts n = true) ->
  (forall date, requiredCompletionDate body = Some date -> parseDate date <> None) ->
  (forall dependencies0, dependencies body = Some dependencies0 ->
     NoDup dependencies0 /\ forall d, In d dependencies0 -> In d (ids db)) ->
  exists w db', putTransaction accepts parseDate id body db = Ok (w, db').
Proof.
  intros (Hlt & Hids & Hnd & Hpairs) Hin Hacc Hdate Hdeps. unfold putTransaction.
  destruct (findUnique id db) as [old|] eqn:Ef.
  2:{ apply known_iff in Hin. apply existsb_exists in Hin.
      destruct Hin as (x & Hx & Hid).
      now rewrite (find_none _ _ Ef x Hx) in Hid. }
  destruct (findUnique_known _ _ _ Ef) as [Hold _].
  destruct (updated_ok body old Hacc Hdate) as [w Hw]. rewrite Hw. cbn [bind].
  apply updated_id in Hw. rewrite Hold in Hw.
  destruct (dependencies body) as [ds|]; [|cbn [bind]; eauto].
  destruct (Hdeps ds eq_refl) as [Hds Hexist].
  destruct (0 <? List.length ds); [|cbn [bind]; eauto].
  rewrite createMany_ok; [cbn [bind]; eauto| |].
  - cbn [workItemDependencies deleteMany]. apply pairs_added; try assumption.
    + now apply NoDup_filter.
    + intros d Hd. apply kept_pairs in Hd. now destruct Hd.
  - intros a b Hab. apply in_map_iff in Hab. destruct Hab as (d & [= <- <-] & Hd).
    unfold ids. cbn [workItems deleteMany]. rewrite ids_replaced by assumption.
    split; [assumption|now apply Hexist].
Qed.

(** What the two guards on the dependencies of PUT let through. *)
Lemma put_dependencies_checked (id : nat) (body : WorkItemData) (db : ItemDb) :
  NoDup (ids db) ->
  match dependencies body with
  | Some dependencies0 => existsb (Nat.eqb id) dependencies0
  | None => false
  end = false ->
  match dependencies body with
  | Some dependencies0 =>
      negb (List.length (findManyIn dependencies0 db) =? List.length dependencies0)
  | None => false
  end = false ->
  forall dependencies0, dependencies body = Some dependencies0 ->
    ~ In id dependencies0
    /\ NoDup dependencies0 /\ forall d, In d dependencies0 -> In d (ids db).
Proof.
  intros Hids Hself Hlen ds Hds. rewrite Hds in Hself, Hlen. split.
  - intros Hin. apply listed_iff in Hin. congruence.
  - apply negb_false_iff in Hlen. now apply dependencies_checked.
Qed.

Lemma put_sound (id : nat) (body : WorkItemData) (db : ItemDb) :
  sound db -> sound (snd (put accepts parseDate id body db)).
Proof.
  intros Hs. unfold put.
  destruct (findUnique id db) as [old|] eqn:Ef; [|exact Hs].
  repeat match goal with
         | |- sound (snd (if ?c then _ else _)) =>
             let E := fresh "E" in destruct c eqn:E; [exact Hs|]
         end.
  destruct (putTransaction accepts parseDate id body db) as [[w db']|m] eqn:Ht;
    cbn [snd]; [|exact Hs].
  destruct Hs as (Hlt & Hids & Hnd & Hpairs).
  pose proof (put_dependencies_checked id body db Hids E0 E1) as Hdeps.
  destruct (putTransaction_inv _ _ _ _ _ Ht) as (Hin & Hsame & Hnext & Hrows).
  unfold sound. rewrite Hsame, Hnext, Hrows.
  split; [assumption|]. split; [assumption|].
  destruct (dependencies body) as [ds|]; [|now split].
  destruct (Hdeps ds eq_refl) as (Hself & Hds & Hexist). split.
  - apply pairs_added; try assumption; [now apply NoDup_filter|].
    intros d Hd. apply kept_pairs in Hd. now destruct Hd.
  - intros a b Hab. apply in_app_iff in Hab. destruct Hab as [Hab|Hab].
    + apply kept_pairs in Hab. destruct Hab as [Hab _]. now apply Hpairs.
    + apply in_map_iff in Hab. destruct Hab as (d & [= <- <-] & Hd).
      split; [|split; [assumption|now apply Hexist]].
      intros <-. contradiction.
Qed.

Lemma delete_sound (id : nat) (db : ItemDb) :
  sound db -> sound (snd (delete id db)).
Proof.
  intros Hs. unfold delete.
  destruct (findUnique id db) as [old|]; [|exact Hs]. cbn [snd].
  destruct Hs as (Hlt & Hids & Hnd & Hpairs).
  assert (Hleft : ids (mkItemDb (filter (fun w => negb (hasId id w)) (workItems db))
                         (filter (fun r => negb (fst r =? id) && negb (snd r =? id))
                                 (workItemDependencies db))
                         (nextWorkItemId db))
                  = filter (fun i => negb (i =? id)) (ids db)).
  { unfold ids. cbn [workItems]. induction (workItems db) as [|w rest IH];
      [reflexivity|]. cbn [filter map]. unfold hasId at 1.
    destruct (TicketSync.rowId w =? id); cbn [negb map]; now rewrite IH. }
  unfold sound. rewrite Hleft. cbn [workItemDependencies nextWorkItemId].
  split; [|split; [|split]].
  - intros i Hi. apply filter_In in Hi. now apply Hlt.
  - now apply NoDup_filter.
  - now apply NoDup_filter.
  - intros a b Hab. apply filter_In in Hab. destruct Hab as [Hab Hne].
    cbn [fst snd] in Hne. apply andb_prop in Hne. destruct Hne as [Ha Hb].
    destruct (Hpairs a b Hab) as (Hdiff & Hina & Hinb).
    split; [assumption|]. split; apply filter_In; split; assumption.
Qed.

Lemma handle_sound (request : Request) (db : ItemDb) :
  sound db -> sound (snd (handle accepts parseDate request db)).
Proof.
  destruct request as [body|id body|id]; cbn [handle];
    [apply post_sound|apply put_sound|apply delete_sound].
Qed.

(** X23.  Whatever requests are handled one after the other, the
    tables stay sound: ids stay unique, every dependency pair is
    stored once and joins two existing work items, and no work item
    ever depends on itself. *)
Theorem serve_sound :
  forall (requests : list Request) (db : ItemDb),
    sound db -> sound (serve accepts parseDate requests db).
Proof.
  induction requests as [|request rest IH]; intros db Hs; cbn [serve];
    [exact Hs|].
  apply IH. now apply handle_sound.
Qed.


Lemma known_findUnique (id : nat) (db : ItemDb) :
  In id (ids db) -> exists old, findUnique id db = Some old.
Proof.
  intros Hin. unfold findUnique.
  destruct (List.find (hasId id) (workItems db)) as [old|] eqn:Ef; [eauto|].
  apply known_iff in Hin. apply existsb_exists in Hin.
  destruct Hin as (x & Hx & Hid). now rewrite (find_none _ _ Ef x Hx) in Hid.
Qed.

(** X25.  POST never adds a second epic to a non-empty Jira key and
    removes none: for every such key the number of its epics does not
    decrease, and ends at most at one unless it was already larger. *)
Theorem post_epic_guard :
  forall (body : WorkItemData) (db : ItemDb) (key : string),
    JsString.truthy key = true ->
    List.length (epicRows key db)
    <= List.length (epicRows key (snd (post accepts parseDate body db)))
    /\ List.length (epicRows key (snd (post accepts parseDate body db)))
       <= Nat.max 1 (List.length (epicRows key db)).
Proof.
  intros body db key Hkey. unfold post.
  repeat match goal with
         | |- context [snd (if ?c then _ else _)] =>
             let E := fresh "E" in destruct c eqn:E; [cbn [snd]; lia|]
         end.
  match goal with
  | |- context [snd (match ?x with Some _ => _ | None => _ end)] =>
      destruct x eqn:Eg; [cbn [snd]; lia|]
  end.
  destruct (postTransaction accepts parseDate body (orKeep (dependencies body) [])
              (orKeep (status body) "Not Started") (orKeep (isEpic body) false) db)
    as [[w db']|m] eqn:Ht; cbn [snd]; [|lia].
  destruct (postTransaction_inv _ _ _ _ _ _ _ Ht) as (_ & Hepic & Hjira & ->).
  unfold epicRows. cbn [workItems]. rewrite filter_app, length_app. cbn [filter].
  destruct (isEpicOf key w) eqn:Ew; cbn [List.length]; [|lia].
  unfold isEpicOf in Ew. apply andb_prop in Ew. destruct Ew as [Hw Hk].
  apply hasJiraId_eq in Hk. rewrite Hjira in Hk. rewrite Hepic in Hw.
  rewrite Hw, Hk in Eg. cbn [orNull orKeep truthyString andb] in Eg.
  rewrite Hkey in Eg.
  rewrite (filter_nothing _ _ (find_none _ _ Eg)). cbn [List.length]. lia.
Qed.

(** X26.  Only the dependency of a work item on itself is refused:
    when one work item depends on another, a PUT that makes the other
    depend on the first is carried out, and the table then holds the
    dependency in both directions. *)
Theorem put_allows_cycle :
  forall (db : ItemDb) (a b : nat),
    sound db ->
    In (a, b) (workItemDependencies db) ->
    exists w db',
      put accepts parseDate b (onlyDependencies [a]) db = (Status200 w [a], db')
      /\ In (a, b) (workItemDependencies db')
      /\ In (b, a) (workItemDependencies db').
Proof.
  intros db a b Hs Hab.
  destruct (proj2 (proj2 (proj2 Hs)) a b Hab) as (Hne & Ha & Hb).
  assert (Hchecked : NoDup [a] /\ forall d, In d [a] -> In d (ids db)).
  { split; [repeat constructor; intros []|]. now intros d [<-|[]]. }
  unfold put. destruct (known_findUnique b db Hb) as [old ->].
  cbn [onlyDependencies estimateStoryPoints dependencies existsb orb].
  apply Nat.eqb_neq in Hne. rewrite Nat.eqb_sym in Hne. rewrite Hne.
  rewrite (proj2 (dependencies_checked [a] db (proj1 (proj2 Hs))) Hchecked).
  cbn [negb orKeep].
  destruct (putTransaction_ok b (onlyDependencies [a]) db Hs Hb) as (w & db' & Ht).
  - intros n [=].
  - intros date [=].
  - now intros ds [= <-].
  - fold (onlyDependencies [a]). rewrite Ht. exists w, db'. split; [reflexivity|].
    destruct (putTransaction_inv _ _ _ _ _ Ht) as (_ & _ & _ & ->).
    cbn [onlyDependencies dependencies map]. rewrite !in_app_iff. split.
    + left. apply kept_pairs. split; [assumption|]. apply Nat.eqb_neq.
      now rewrite Nat.eqb_sym.
    + right. now left.
Qed.

End WorkItemRoutesProperties.

Section WorkItemRoutesExamples.
Import StoryPoints WorkItemRoutes.

Lemma twoStories_sound : sound twoStories.
Proof.
  unfold sound, twoStories, ids. cbn [workItems workItemDependencies nextWorkItemId
                                      map story TicketSync.rowId].
  split; [|split; [|split]].
  - intros id [<-|[<-|[]]]; lia.
  - repeat constructor; cbn [In]; intros H; decompose [or] H; try discriminate;
      assumption.
  - repeat constructor. intros [].
  - intros a b [[= <- <-]|[]]. split; [discriminate|]. split; [now left|now right; left].
Qed.

Lemma dependency_check_iff_witness :
  NoDup [1; 0]%nat /\ forall id, In id [1; 0]%nat -> In id (ids twoStories).
Proof.
  exact (proj1 (dependency_check_iff [1; 0]%nat twoStories
                  (proj1 (proj2 twoStories_sound))) eq_refl).
Defined.

Lemma serve_sound_witness :
  sound (serve TicketSync.storesFinite anyDate
               [POST (newStory [0; 1]%nat); PUT 1 (onlyDependencies [0]%nat); DELETE 0]
               twoStories).
Proof.
  exact (serve_sound TicketSync.storesFinite anyDate
           [POST (newStory [0; 1]%nat); PUT 1 (onlyDependencies [0]%nat); DELETE 0]
           twoStories twoStories_sound).
Defined.


Lemma post_epic_guard_witness :
  (List.length (epicRows "REF-1"
                  (snd (post TicketSync.storesFinite anyDate (newEpic "REF-1")
                          (snd (post TicketSync.storesFinite anyDate (newEpic "REF-1")
                                     twoStories)))))
   <= Nat.max 1 (List.length (epicRows "REF-1"
                   (snd (post TicketSync.storesFinite anyDate (newEpic "REF-1") twoStories)))))%nat.
Proof.
  exact (proj2 (post_epic_guard TicketSync.storesFinite anyDate (newEpic "REF-1")
                  (snd (post TicketSync.storesFinite anyDate (newEpic "REF-1") twoStories))
                  "REF-1" eq_refl)).
Defined.

Lemma put_allows_cycle_witness :
  exists w db',
    put TicketSync.storesFinite anyDate 1 (onlyDependencies [0]%nat) twoStories
    = (Status200 w [0]%nat, db')
    /\ In (0, 1)%nat (workItemDependencies db')
    /\ In (1, 0)%nat (workItemDependencies db').
Proof.
  exact (put_allows_cycle TicketSync.storesFinite anyDate twoStories 0 1 twoStories_sound
           (or_introl eq_refl)).
Defined.

End WorkItemRoutesExamples.
